(** * jiractl: pagination, document text extraction and transition matching

    A shallow embedding of the result-normalisation core of jiractl
    (searchIssues, adfToText / adfExtract, formatDate, matchTransition,
    pickBestTransition, ambiguityWarning) and of the commands around it
    (the configuration, the API calls and their transport, the views,
    auth login and status, issues view, transition, assign and comment),
    together with the properties proved about them.

    Go values are modelled as follows.
    - [string] is a Go string: a sequence of bytes ([ascii] = one byte).
    - [int] is [Z]; every integer the modelled code computes is a length,
      an index or a difference of the two, so no 64-bit wrap-around occurs.
    - a slice is a [list]; [append] is [++].
    - a call that can panic returns a [Go A]: [Ret a] or [Panic].
    - an [error] is its message ([string]); [nil] is [None].
    - a function that talks to the server, reads the environment or
      prints is a [Cmd]: it threads the outside world, in which every
      request sent, text written and file written is recorded. *)

From Stdlib Require Import ZArith List Bool Ascii String Lia.
From Stdlib Require Import Permutation Sorted.
Import ListNotations.

Set Warnings "-register-all".

Open Scope list_scope.
Open Scope string_scope.
Open Scope Z_scope.

(* ------------------------------------------------------------------ *)
(** ** Go built-ins and the byte-level part of package strings *)
(* ------------------------------------------------------------------ *)

(** The outcome of a call that may panic. *)
Inductive Go (A : Type) : Type :=
| Ret (a : A)
| Panic.
Arguments Ret {A} a.
Arguments Panic {A}.

Definition bind {A B : Type} (m : Go A) (k : A -> Go B) : Go B :=
  match m with
  | Ret a => k a
  | Panic => Panic
  end.

Notation "x <- m ;; k" := (bind m (fun x => k))
  (at level 61, m at next level, right associativity).

(** [len(s)] for a string: its number of bytes. *)
Definition len (s : string) : Z := Z.of_nat (String.length s).

(** [len(x)] for a slice. *)
Definition slen {A : Type} (x : list A) : Z := Z.of_nat (List.length x).

(** [s[:n]] for a string; panics unless [0 <= n <= len(s)]. *)
Definition strTo (s : string) (n : Z) : Go string :=
  if (0 <=? n) && (n <=? len s) then Ret (substring 0 (Z.to_nat n) s)
  else Panic.

(** [x[:n]] for a slice of length [len(x) = cap(x)]; panics unless
    [0 <= n <= len(x)]. *)
Definition sliceTo {A : Type} (x : list A) (n : Z) : Go (list A) :=
  if (0 <=? n) && (n <=? slen x) then Ret (firstn (Z.to_nat n) x)
  else Panic.

(** [strings.HasPrefix(s, prefix)]. *)
Fixpoint HasPrefix (s prefix : string) {struct prefix} : bool :=
  match prefix, s with
  | EmptyString, _ => true
  | String _ _, EmptyString => false
  | String p prefix', String c s' => Ascii.eqb c p && HasPrefix s' prefix'
  end.

(** The scan behind [strings.Index]: the first offset at which [substr]
    starts, counted from [i], or [-1]. *)
Fixpoint indexFrom (s substr : string) (i : Z) : Z :=
  if HasPrefix s substr then i
  else match s with
       | EmptyString => -1
       | String _ s' => indexFrom s' substr (i + 1)
       end.

(** [strings.Index(s, substr)]. *)
Definition Index (s substr : string) : Z := indexFrom s substr 0.

(** [strings.Contains(s, substr)], which is [Index(s, substr) >= 0]. *)
Definition Contains (s substr : string) : bool := 0 <=? Index s substr.

(** [strings.Join(elems, sep)]. *)
Fixpoint Join (elems : list string) (sep : string) : string :=
  match elems with
  | [] => ""
  | [e] => e
  | e :: rest => e ++ sep ++ Join rest sep
  end.

(** [a < b] on strings: byte-wise lexicographic order. *)
Definition strLt (a b : string) : bool := String.ltb a b.

(** The suffix of [s] from byte [n] on. *)
Fixpoint skip (n : nat) (s : string) : string :=
  match n, s with
  | O, _ => s
  | S _, EmptyString => EmptyString
  | S n', String _ s' => skip n' s'
  end.

(** [minInt] of the program. *)
Definition minInt (a b : Z) : Z := if a <? b then a else b.

(* ------------------------------------------------------------------ *)
(** ** The library functions the program relies on *)
(* ------------------------------------------------------------------ *)

(** The value of a byte. *)
Definition code (c : ascii) : Z := Z.of_N (N_of_ascii c).

Definition inRange (lo hi : Z) (c : ascii) : bool :=
  (lo <=? code c) && (code c <=? hi).

Definition backslash : ascii := "092"%char.
Definition dquote : ascii := "034"%char.

(** Bytes [%q] copies unchanged: printable ASCII other than the double
    quote and the backslash. *)
Definition plainByte (c : ascii) : bool :=
  inRange 32 126 c && negb (Ascii.eqb c dquote)
  && negb (Ascii.eqb c backslash).

(** Strings made of such bytes only. *)
Fixpoint plain (s : string) : bool :=
  match s with
  | EmptyString => true
  | String c s' => plainByte c && plain s'
  end.

(** [s] between double quotes. *)
Definition quoted (s : string) : string :=
  String dquote (s ++ String dquote "").

(** The comparator handed to [sort.Slice] must be a strict weak order for
    the result to be sorted; both comparators of the program are. *)
Record StrictWeak {A : Type} (less : A -> A -> bool) : Prop := {
  sw_irrefl : forall a, less a a = false;
  sw_trans : forall a b c,
      less a b = true -> less b c = true -> less a c = true;
  sw_incomp : forall a b c,
      less a b = false -> less b c = false -> less a c = false
}.

(** The order both comparators implement on their keys: an integer first,
    then two fields compared in turn. *)
Definition keyLt {B C : Type} (ltB : B -> B -> bool) (ltC : C -> C -> bool)
           (eqB : B -> B -> bool) (a b : Z * B * C) : bool :=
  let '(a1, a2, a3) := a in
  let '(b1, b2, b3) := b in
  if negb (a1 =? b1) then a1 <? b1
  else if negb (eqB a2 b2) then ltB a2 b2
  else ltC a3 b3.

(** The two layouts [formatDate] tries, and the one it prints. *)
Definition layoutMillis : string := "2006-01-02T15:04:05.000-0700".
Definition layoutFrac : string := "2006-01-02T15:04:05.999-0700".
Definition layoutDate : string := "2006-01-02".

(** What the program uses of Go's Unicode-aware and table-driven library
    code: case mapping and folding, white-space trimming, the [%q] verb,
    [sort.Slice] and package time.  The program's behaviour is proved for
    every implementation with the stated laws.
    - [sort.Slice] is not stable: only a sorted permutation is promised.
    - [Quote] is [strconv.Quote], which [%q] prints: a string of [plain]
      bytes is copied between double quotes as it is.
    - [timeParse] fails on the empty string under both layouts. *)
Class GoLib : Type := {
  ToLower : string -> string;
  EqualFold : string -> string -> bool;
  TrimSpace : string -> string;
  Quote : string -> string;
  sortSlice : forall {A : Type}, (A -> A -> bool) -> list A -> list A;
  Time : Type;
  timeParse : string -> string -> option Time;
  timeFormat : Time -> string -> string;

  sortSlice_perm : forall (A : Type) (less : A -> A -> bool) (x : list A),
      Permutation (sortSlice less x) x;
  sortSlice_sorted : forall (A : Type) (less : A -> A -> bool) (x : list A),
      StrictWeak less ->
      Sorted (fun a b => less b a = false) (sortSlice less x);
  Quote_plain : forall s : string, plain s = true -> Quote s = quoted s;
  timeParse_empty_millis : timeParse layoutMillis "" = None;
  timeParse_empty_frac : timeParse layoutFrac "" = None
}.

(** [n] in decimal with [w] digits, the high ones dropped: what package
    time's [appendInt(b, n, w)] appends for [0 <= n < 10^w]. *)
Fixpoint decimal (w : nat) (n : Z) : string :=
  match w with
  | O => ""
  | S w' =>
      decimal w' (n / 10)
      ++ String (ascii_of_N (Z.to_N (48 + n mod 10))) ""
  end.

(** A date as [Format] prints it under [layoutDate]: the year with four
    digits, the month and the day with two. *)
Definition isoDate (y m d : Z) : string :=
  decimal 4 y ++ "-" ++ decimal 2 m ++ "-" ++ decimal 2 d.

(** [isLeap(year)] and [daysIn(m, year)] of package time. *)
Definition leapYear (y : Z) : bool :=
  (y mod 4 =? 0) && (negb (y mod 100 =? 0) || (y mod 400 =? 0)).

Definition daysInMonth (m y : Z) : Z :=
  if m =? 2 then (if leapYear y then 29 else 28)
  else if (m =? 4) || (m =? 6) || (m =? 9) || (m =? 11) then 30
  else 31.

(** A day of the calendar, in a year that four digits can write. *)
Definition validDate (y m d : Z) : Prop :=
  0 <= y <= 9999 /\ 1 <= m <= 12 /\ 1 <= d <= daysInMonth m y.

(** What [formatDate] uses of the dates of package time.  [Year], [Month]
    and [Day] are the methods of that name: the date of a time in the
    time's own location.
    - [Parse] under either layout reads the year, the month and the day
      from four, two and two digits at the head of the string, refuses a
      month or a day out of range, and returns the time in a zone of the
      offset that was written, so that its date is the one written.
    - [Format] under [layoutDate] prints that date. *)
Class GoTime (lib : GoLib) : Type := {
  Year : Time -> Z;
  Month : Time -> Z;
  Day : Time -> Z;

  timeParse_date : forall (layout s : string) (t : Time),
      layout = layoutMillis \/ layout = layoutFrac ->
      timeParse layout s = Some t ->
      validDate (Year t) (Month t) (Day t)
      /\ HasPrefix s (isoDate (Year t) (Month t) (Day t)) = true;
  timeFormat_date : forall t : Time,
      validDate (Year t) (Month t) (Day t) ->
      timeFormat t layoutDate = isoDate (Year t) (Month t) (Day t)
}.

(** The characters of a string as a reader counts them: the code points
    of well-formed UTF-8, one for every byte that is not a continuation
    byte [10xxxxxx].  The program itself never counts them. *)
Fixpoint characters (s : string) : Z :=
  match s with
  | EmptyString => 0
  | String c s' =>
      (if inRange 128 191 c then 0 else 1) + characters s'
  end.

(* ------------------------------------------------------------------ *)
(** ** Jira API types *)
(* ------------------------------------------------------------------ *)

Record JiraNameField : Type := { NameOf : string }.

(** Only the key of an issue matters to the code modelled here. *)
Record JiraIssue : Type := { Key : string; Self : string }.

(** [Total] and [Issues] of the response carry the prefix [Resp] to keep
    them apart from the fields of [SearchIssuesResult]. *)
Record JiraSearchResponse : Type := {
  RespTotal : Z;
  RespIssues : list JiraIssue;
  NextPageToken : string
}.

Record JiraTransition : Type := {
  ID : string;
  Name : string;
  To : option JiraNameField
}.

Record SearchIssuesResult : Type := {
  Issues : list JiraIssue;
  Total : Z;
  HasMore : bool
}.

(* ------------------------------------------------------------------ *)
(** ** searchIssues *)
(* ------------------------------------------------------------------ *)

(** The remote end of one search request.  [fetch] stands for building the
    request URL, [client.Do] and [decodeAPIResponse]: given the JQL, the
    [maxResults] and the page token of the request it yields the decoded
    response or the error, and the server's next state. *)
Record PageSource : Type := {
  Server : Type;
  fetch : Server -> string -> Z -> string ->
          Server * (string + JiraSearchResponse)
}.

(** The variables of [searchIssues] that live across loop iterations;
    [resultTotal] is [result.Total]. *)
Record SearchState : Type := {
  all : list JiraIssue;
  nextPageToken : string;
  resultTotal : Z
}.

(** How the [for] loop ends: normally, or by returning an error. *)
Inductive LoopEnd : Type :=
| LoopDone (st : SearchState)
| LoopFailed (st : SearchState) (err : string).

Section SearchIssues.
Variable src : PageSource.
Variable jql : string.
Variable limit : Z.

(** The assignments made on a decoded response: [result.Total], the
    [append] to [all], and [nextPageToken]. *)
Definition absorb (st : SearchState) (searchResp : JiraSearchResponse)
  : SearchState :=
  {| all := all st ++ RespIssues searchResp;
     nextPageToken := NextPageToken searchResp;
     resultTotal := RespTotal searchResp |}.

(** The test before [break]. *)
Definition lastPage (searchResp : JiraSearchResponse) : bool :=
  (slen (RespIssues searchResp) =? 0)
  || (NextPageToken searchResp =? "")%string.

(** [for len(all) < limit { ... }], with [fuel] bounding the number of
    iterations; [None] means the bound was reached. *)
Fixpoint searchLoop (fuel : nat) (srv : Server src) (st : SearchState)
  : option LoopEnd :=
  if slen (all st) <? limit then
    match fuel with
    | O => None
    | S fuel' =>
        let maxResults := minInt (limit - slen (all st)) 100 in
        match fetch src srv jql maxResults (nextPageToken st) with
        | (_, inl err) => Some (LoopFailed st err)
        | (srv', inr searchResp) =>
            if lastPage searchResp
            then Some (LoopDone (absorb st searchResp))
            else searchLoop fuel' srv' (absorb st searchResp)
        end
    end
  else Some (LoopDone st).

(** The responses the loop decodes, in the order it receives them: the
    same walk as [searchLoop], keeping the pages instead of the state. *)
Fixpoint pages (fuel : nat) (srv : Server src) (st : SearchState)
  : list JiraSearchResponse :=
  if slen (all st) <? limit then
    match fuel with
    | O => []
    | S fuel' =>
        let maxResults := minInt (limit - slen (all st)) 100 in
        match fetch src srv jql maxResults (nextPageToken st) with
        | (_, inl err) => []
        | (srv', inr searchResp) =>
            searchResp ::
            (if lastPage searchResp then []
             else pages fuel' srv' (absorb st searchResp))
        end
    end
  else [].

(** The [maxResults] of the requests the loop sends, in order. *)
Fixpoint requested (fuel : nat) (srv : Server src) (st : SearchState)
  : list Z :=
  if slen (all st) <? limit then
    match fuel with
    | O => []
    | S fuel' =>
        let maxResults := minInt (limit - slen (all st)) 100 in
        maxResults ::
        match fetch src srv jql maxResults (nextPageToken st) with
        | (_, inl err) => []
        | (srv', inr searchResp) =>
            if lastPage searchResp then []
            else requested fuel' srv' (absorb st searchResp)
        end
    end
  else [].

Definition initialState : SearchState :=
  {| all := []; nextPageToken := ""; resultTotal := 0 |}.

(** The statements after the loop.  [all[:limit]] panics on a negative
    [limit]. *)
Definition finish (st : SearchState)
  : Go (SearchIssuesResult * option string) :=
  kept <- (if slen (all st) >? limit
           then sliceTo (all st) limit else Ret (all st));;
  Ret ({| Issues := kept;
          Total := resultTotal st;
          HasMore := negb (nextPageToken st =? "")%string
                     || (slen kept <? resultTotal st) |}, None).

(** [searchIssues(cfg, jql, limit)] with a bound on the passes through
    the loop: [None] when the bound is reached, else the call's outcome,
    the pair being Go's [(result, err)]. *)
Definition searchIssuesFuel (fuel : nat) (srv : Server src)
  : option (Go (SearchIssuesResult * option string)) :=
  match searchLoop fuel srv initialState with
  | None => None
  | Some (LoopFailed st err) =>
      Some (Ret ({| Issues := []; Total := resultTotal st;
                    HasMore := false |}, Some err))
  | Some (LoopDone st) => Some (finish st)
  end.

(** [searchIssues(cfg, jql, limit)].  A pass that continues has added an
    issue, so [limit] passes always suffice ([searchLoop_total]): the
    result is never [None]. *)
Definition searchIssues (srv : Server src)
  : option (Go (SearchIssuesResult * option string)) :=
  searchIssuesFuel (Z.to_nat limit) srv.

(** The pages a call of [searchIssues] receives. *)
Definition pagesOf (srv : Server src) : list JiraSearchResponse :=
  pages (Z.to_nat limit) srv initialState.
End SearchIssues.

(** What the variables hold before any page has come in. *)
Definition noPage : JiraSearchResponse :=
  {| RespTotal := 0; RespIssues := []; NextPageToken := "" |}.

(* ------------------------------------------------------------------ *)
(** ** adfToText and adfExtract *)
(* ------------------------------------------------------------------ *)

(** A decoded JSON value, Go's [any] after [json.Unmarshal]: [nil], [bool],
    [float64] (kept as its bit pattern), [string], [[]any] and
    [map[string]any].  A map is an association list read at the first
    binding of a key. *)
Inductive any : Type :=
| Nil
| Bool (b : bool)
| Number (bits : Z)
| Str (s : string)
| Arr (elems : list any)
| Obj (fields : list (string * any)).

(** [m[k]] on a [map[string]any]: the zero value [nil] for a missing key. *)
Fixpoint mapIndex (m : list (string * any)) (k : string) : any :=
  match m with
  | [] => Nil
  | (k', v) :: m' => if (k' =? k)%string then v else mapIndex m' k
  end.

(** [s, _ := v.(string)]: the empty string when [v] is not a string. *)
Definition stringOr (v : any) : string :=
  match v with
  | Str s => s
  | _ => ""
  end.

(** The line feed the extractor writes. *)
Definition nl : string := String "010"%char "".

(** The block-level node types after which a separator is written. *)
Definition isBlock (childType : string) : bool :=
  ((childType =? "paragraph") || (childType =? "heading")
   || (childType =? "bulletList") || (childType =? "orderedList")
   || (childType =? "blockquote") || (childType =? "codeBlock")
   || (childType =? "mediaSingle") || (childType =? "rule"))%string.

(** The newline written after child [i] of [n] children. *)
Definition separator (childType : string) (i n : Z) : string :=
  if isBlock childType && (i <? n - 1) then nl else "".

(** The newline written at the end of a list item. *)
Definition listItemEnd (nodeType : string) : string :=
  if (nodeType =? "listItem")%string then nl else "".

(** What [adfExtract] appends to the builder when run on the map inside
    [v]; nothing for a value that is not a map.  The recursion follows the
    tree: the inner [fix]es are the lookup of ["content"] and the [range]
    loop over it ([adfExtract_unfold] states it with [mapIndex]). *)
Fixpoint extractValue (v : any) : string :=
  match v with
  | Obj node =>
      stringOr (mapIndex node "text") ++
      (fix content (fs : list (string * any)) : string :=
         match fs with
         | [] => ""
         | (k, c) :: fs' =>
             if (k =? "content")%string then
               match c with
               | Arr children =>
                   (fix loop (cs : list any) (i : Z) : string :=
                      match cs with
                      | [] => ""
                      | child :: cs' =>
                          match child with
                          | Obj childMap =>
                              extractValue child ++
                              separator (stringOr (mapIndex childMap "type"))
                                        i (slen children)
                          | _ => ""
                          end ++ loop cs' (i + 1)
                      end) children 0
                   ++ listItemEnd (stringOr (mapIndex node "type"))
               | _ => ""
               end
             else content fs'
         end) node
  | _ => ""
  end.

(** [adfExtract(node, sb)]: the text appended to [sb]. *)
Definition adfExtract (node : list (string * any)) : string :=
  extractValue (Obj node).

(** The [for i, child := range content] loop of [adfExtract], from child
    [i] on, [n] being [len(content)]. *)
Fixpoint extractChildren (n : Z) (cs : list any) (i : Z) : string :=
  match cs with
  | [] => ""
  | child :: cs' =>
      match child with
      | Obj childMap =>
          adfExtract childMap ++
          separator (stringOr (mapIndex childMap "type")) i n
      | _ => ""
      end ++ extractChildren n cs' (i + 1)
  end.

Section WithLib.
Context {lib : GoLib}.

(** [adfToText(v)]. *)
Definition adfToText (v : any) : string :=
  match v with
  | Nil => ""
  | Str s => s
  | Obj doc => TrimSpace (adfExtract doc)
  | _ => ""
  end.

(* ---------------------------------------------------------------- *)
(** ** formatDate *)
(* ---------------------------------------------------------------- *)

Definition formatDate (s : string) : Go string :=
  if (s =? "")%string then Ret ""
  else
    match timeParse layoutMillis s with
    | Some t => Ret (timeFormat t layoutDate)
    | None =>
        match timeParse layoutFrac s with
        | Some t => Ret (timeFormat t layoutDate)
        | None => if len s >=? 10 then strTo s 10 else Ret s
        end
    end.

(* ---------------------------------------------------------------- *)
(** ** matchTransition *)
(* ---------------------------------------------------------------- *)

Record scoredMatch : Type := {
  transition : JiraTransition;
  score : Z
}.

(** The three slices filled by the classification loop. *)
Record Tiers : Type := {
  exact : list JiraTransition;
  prefix : list JiraTransition;
  contains : list scoredMatch
}.

Definition noTiers : Tiers :=
  {| exact := []; prefix := []; contains := [] |}.

(** One pass of [for _, t := range transitions { switch ... }]. *)
Definition classify (query queryLower : string) (acc : Tiers)
           (t : JiraTransition) : Tiers :=
  let nameLower := ToLower (Name t) in
  if EqualFold (Name t) query then
    {| exact := exact acc ++ [t];
       prefix := prefix acc; contains := contains acc |}
  else if HasPrefix nameLower queryLower then
    {| exact := exact acc;
       prefix := prefix acc ++ [t]; contains := contains acc |}
  else if Contains nameLower queryLower then
    {| exact := exact acc; prefix := prefix acc;
       contains := contains acc ++
                   [{| transition := t;
                       score := Index nameLower queryLower |}] |}
  else acc.

(** The whole classification loop. *)
Definition collect (query : string) (transitions : list JiraTransition)
  : Tiers :=
  fold_left (classify query (ToLower query)) transitions noTiers.

(** What qualifies a transition for each tier, as the [switch] tests it:
    the first case that holds decides. *)
Definition isExact (query : string) (t : JiraTransition) : bool :=
  EqualFold (Name t) query.

Definition isPrefix (query : string) (t : JiraTransition) : bool :=
  negb (EqualFold (Name t) query)
  && HasPrefix (ToLower (Name t)) (ToLower query).

Definition isContains (query : string) (t : JiraTransition) : bool :=
  negb (EqualFold (Name t) query)
  && negb (HasPrefix (ToLower (Name t)) (ToLower query))
  && Contains (ToLower (Name t)) (ToLower query).

Definition scored (query : string) (t : JiraTransition) : scoredMatch :=
  {| transition := t;
     score := Index (ToLower (Name t)) (ToLower query) |}.

(** The comparator of [sort.Slice(contains, ...)]. *)
Definition lessScored (a b : scoredMatch) : bool :=
  if negb (score a =? score b) then score a <? score b
  else
    let ni := ToLower (Name (transition a)) in
    let nj := ToLower (Name (transition b)) in
    if negb (ni =? nj)%string then strLt ni nj
    else len (Name (transition a)) <? len (Name (transition b)).

(** The comparator of [sort.Slice(copyCandidates, ...)]. *)
Definition lessTransition (a b : JiraTransition) : bool :=
  let ni := ToLower (Name a) in
  let nj := ToLower (Name b) in
  if negb (len (Name a) =? len (Name b)) then len (Name a) <? len (Name b)
  else if negb (ni =? nj)%string then strLt ni nj
  else strLt (ID a) (ID b).

(** The keys the two comparators order by. *)
Definition keyOfTransition (t : JiraTransition) : Z * string * string :=
  (len (Name t), ToLower (Name t), ID t).

Definition keyOfScored (m : scoredMatch) : Z * string * Z :=
  (score m, ToLower (Name (transition m)), len (Name (transition m))).

(** [pickBestTransition(candidates)]; [copyCandidates[0]] panics on an
    empty slice. *)
Definition pickBestTransition (candidates : list JiraTransition)
  : Go JiraTransition :=
  match candidates with
  | [only] => Ret only
  | _ =>
      match sortSlice lessTransition candidates with
      | first :: _ => Ret first
      | [] => Panic
      end
  end.

(** The text [fmt.Sprintf] builds from the format
    status %q matched multiple transitions (%s); using %q
    for the query, the joined names and the selected name. *)
Definition warningText (query : string) (names : list string)
           (selected : string) : string :=
  "status " ++ Quote query ++ " matched multiple transitions ("
  ++ Join names ", " ++ "); using " ++ Quote selected.

(** The message [fmt.Errorf] builds from the format
    no transition matching %q; available transitions: %s
    for the query and the joined names. *)
Definition noMatchText (query : string) (names : list string) : string :=
  "no transition matching " ++ Quote query
  ++ "; available transitions: " ++ Join names ", ".

(** [ambiguityWarning(query, candidates, selected)]. *)
Definition ambiguityWarning (query : string)
           (candidates : list JiraTransition) (selected : JiraTransition)
  : string :=
  if slen candidates <=? 1 then ""
  else warningText query (map Name candidates) (Name selected).

(** The zero value [JiraTransition{}]. *)
Definition noTransition : JiraTransition :=
  {| ID := ""; Name := ""; To := None |}.

(** The result tuple of [matchTransition]:
    (transition, matchedBy, warning, err). *)
Definition MatchResult : Type :=
  (JiraTransition * string * string * option string)%type.

Definition matchTransition (transitions : list JiraTransition)
           (targetStatus : string) : Go MatchResult :=
  let query := TrimSpace targetStatus in
  if (query =? "")%string then
    Ret (noTransition, "", "", Some "--status is required")
  else
    let tiers := collect query transitions in
    if slen (exact tiers) >? 0 then
      picked <- pickBestTransition (exact tiers);;
      Ret (picked, "exact", "", None)
    else if slen (prefix tiers) >? 0 then
      picked <- pickBestTransition (prefix tiers);;
      Ret (picked, "prefix",
           ambiguityWarning query (prefix tiers) picked, None)
    else if slen (contains tiers) >? 0 then
      let sorted := sortSlice lessScored (contains tiers) in
      let candidates := map transition sorted in
      picked <- pickBestTransition candidates;;
      Ret (picked, "contains",
           ambiguityWarning query candidates picked, None)
    else
      Ret (noTransition, "", "",
           Some (noMatchText query (map Name transitions))).

(** The candidate list of the contains tier after [sort.Slice]. *)
Definition containsCandidates (query : string)
           (ts : list JiraTransition) : list JiraTransition :=
  map transition (sortSlice lessScored (contains (collect query ts))).

(** The five ways through [matchTransition], each with the conditions
    under which it is taken and the value returned. *)
Inductive MatchRun (ts : list JiraTransition) (target : string)
  : Go MatchResult -> Prop :=
| RunBlank :
    TrimSpace target = "" ->
    MatchRun ts target
             (Ret (noTransition, "", "", Some "--status is required"))
| RunExact (picked : JiraTransition) :
    TrimSpace target <> "" ->
    exact (collect (TrimSpace target) ts) <> [] ->
    pickBestTransition (exact (collect (TrimSpace target) ts))
    = Ret picked ->
    MatchRun ts target (Ret (picked, "exact", "", None))
| RunPrefix (picked : JiraTransition) :
    TrimSpace target <> "" ->
    exact (collect (TrimSpace target) ts) = [] ->
    prefix (collect (TrimSpace target) ts) <> [] ->
    pickBestTransition (prefix (collect (TrimSpace target) ts))
    = Ret picked ->
    MatchRun ts target
             (Ret (picked, "prefix",
                   ambiguityWarning (TrimSpace target)
                     (prefix (collect (TrimSpace target) ts)) picked,
                   None))
| RunContains (picked : JiraTransition) :
    TrimSpace target <> "" ->
    exact (collect (TrimSpace target) ts) = [] ->
    prefix (collect (TrimSpace target) ts) = [] ->
    contains (collect (TrimSpace target) ts) <> [] ->
    pickBestTransition (containsCandidates (TrimSpace target) ts)
    = Ret picked ->
    MatchRun ts target
             (Ret (picked, "contains",
                   ambiguityWarning (TrimSpace target)
                     (containsCandidates (TrimSpace target) ts) picked,
                   None))
| RunNoMatch :
    TrimSpace target <> "" ->
    exact (collect (TrimSpace target) ts) = [] ->
    prefix (collect (TrimSpace target) ts) = [] ->
    contains (collect (TrimSpace target) ts) = [] ->
    MatchRun ts target
             (Ret (noTransition, "", "",
                   Some (noMatchText (TrimSpace target) (map Name ts)))).

(** The candidates of the tier that produced the result. *)
Definition winningCandidates (matchedBy query : string)
           (ts : list JiraTransition) : list JiraTransition :=
  if (matchedBy =? "exact")%string then exact (collect query ts)
  else if (matchedBy =? "prefix")%string then prefix (collect query ts)
  else if (matchedBy =? "contains")%string then containsCandidates query ts
  else [].
End WithLib.

(* ------------------------------------------------------------------ *)
(** ** The library on ASCII text *)
(* ------------------------------------------------------------------ *)

(** Executable definitions of the library functions for strings of ASCII
    bytes, on which they are what Go computes, so that the program can be
    run on concrete inputs. *)
Module Ascii7.

(** ['A'..'Z'] to ['a'..'z']. *)
Definition lowerByte (c : ascii) : ascii :=
  if inRange 65 90 c then ascii_of_N (N_of_ascii c + 32) else c.

Fixpoint mapBytes (f : ascii -> ascii) (s : string) : string :=
  match s with
  | EmptyString => EmptyString
  | String c s' => String (f c) (mapBytes f s')
  end.

Definition ToLower (s : string) : string := mapBytes lowerByte s.

Definition EqualFold (s t : string) : bool :=
  (ToLower s =? ToLower t)%string.

(** The ASCII white space of [strings.TrimSpace]:
    tab, line feed, vertical tab, form feed, carriage return, space. *)
Definition isSpace (c : ascii) : bool :=
  inRange 9 13 c || (code c =? 32).

Fixpoint trimLeft (s : string) : string :=
  match s with
  | EmptyString => EmptyString
  | String c s' => if isSpace c then trimLeft s' else s
  end.

(** Drops the white space at the end: a byte is kept when it is not a
    space or something is kept after it. *)
Fixpoint trimRight (s : string) : string :=
  match s with
  | EmptyString => EmptyString
  | String c s' =>
      match trimRight s' with
      | EmptyString => if isSpace c then EmptyString
                       else String c EmptyString
      | kept => String c kept
      end
  end.

Definition TrimSpace (s : string) : string := trimRight (trimLeft s).

(** The character of a digit below 16, in lower case. *)
Definition digitChar (n : Z) : ascii :=
  ascii_of_N (Z.to_N (if n <? 10 then 48 + n else 87 + n)).

(** The escape of one byte in a double-quoted Go string literal. *)
Definition escapeByte (c : ascii) : string :=
  if plainByte c then String c ""
  else if Ascii.eqb c dquote then String backslash (String dquote "")
  else if Ascii.eqb c backslash then String backslash (String backslash "")
  else if code c =? 7 then String backslash "a"
  else if code c =? 8 then String backslash "b"
  else if code c =? 12 then String backslash "f"
  else if code c =? 10 then String backslash "n"
  else if code c =? 13 then String backslash "r"
  else if code c =? 9 then String backslash "t"
  else if code c =? 11 then String backslash "v"
  else String backslash
         (String "x" (String (digitChar (code c / 16))
                             (String (digitChar (code c mod 16)) ""))).

Fixpoint escape (s : string) : string :=
  match s with
  | EmptyString => EmptyString
  | String c s' => escapeByte c ++ escape s'
  end.

Definition Quote (s : string) : string := quoted (escape s).

(** Stable insertion: [x] goes before the first element not below it. *)
Fixpoint insert {A : Type} (less : A -> A -> bool) (x : A) (l : list A)
  : list A :=
  match l with
  | [] => [x]
  | y :: r => if less y x then y :: insert less x r else x :: y :: r
  end.

(** The stable sorted order: the one [sort.Slice] leaves a short slice
    in, which it sorts by insertion. *)
Fixpoint sortSlice {A : Type} (less : A -> A -> bool) (l : list A)
  : list A :=
  match l with
  | [] => []
  | x :: r => insert less x (sortSlice less r)
  end.

(** A parsed time stamp: its calendar date, clock and zone offset in
    seconds, as written; the fraction of the second is dropped. *)
Record Time : Type := {
  year : Z; month : Z; day : Z;
  hour : Z; minute : Z; second : Z; offset : Z
}.

Definition digit (c : ascii) : option Z :=
  if inRange 48 57 c then Some (code c - 48) else None.

(** Exactly [n] decimal digits. *)
Fixpoint digits (n : nat) (acc : Z) (s : string) : option (Z * string) :=
  match n with
  | O => Some (acc, s)
  | S n' =>
      match s with
      | EmptyString => None
      | String c s' =>
          match digit c with
          | Some d => digits n' (10 * acc + d) s'
          | None => None
          end
      end
  end.

(** As many decimal digits as there are, at most [fuel]. *)
Fixpoint someDigits (fuel : nat) (s : string) : string :=
  match fuel, s with
  | S fuel', String c s' =>
      match digit c with
      | Some _ => someDigits fuel' s'
      | None => s
      end
  | _, _ => s
  end.

Definition expect (c : ascii) (s : string) : option string :=
  match s with
  | String c' s' => if Ascii.eqb c c' then Some s' else None
  | EmptyString => None
  end.

Definition isLeap (y : Z) : bool :=
  (y mod 4 =? 0) && (negb (y mod 100 =? 0) || (y mod 400 =? 0)).

Definition daysIn (m y : Z) : Z :=
  if m =? 2 then (if isLeap y then 29 else 28)
  else if (m =? 4) || (m =? 6) || (m =? 9) || (m =? 11) then 30
  else 31.

Definition obind {A B : Type} (m : option A) (k : A -> option B)
  : option B :=
  match m with
  | Some a => k a
  | None => None
  end.

(** The numeric zone [-0700]: a sign and four digits, then the end. *)
Definition zone (s : string) : option Z :=
  match s with
  | String sign s1 =>
      if Ascii.eqb sign "+" || Ascii.eqb sign "-" then
        obind (digits 2 0 s1) (fun '(hh, s2) =>
        obind (digits 2 0 s2) (fun '(mm, s3) =>
        match s3 with
        | EmptyString =>
            if (hh <=? 24) && (mm <? 60) then
              Some ((if Ascii.eqb sign "-" then -1 else 1)
                    * (hh * 3600 + mm * 60))
            else None
        | _ => None
        end))
      else None
  | EmptyString => None
  end.

(** Date and clock up to the seconds, common to both layouts. *)
Definition dateClock (s : string)
  : option (Z * Z * Z * Z * Z * Z * string) :=
  obind (digits 4 0 s) (fun '(y, s) =>
  obind (expect "-" s) (fun s =>
  obind (digits 2 0 s) (fun '(mo, s) =>
  obind (expect "-" s) (fun s =>
  obind (digits 2 0 s) (fun '(d, s) =>
  obind (expect "T" s) (fun s =>
  obind (digits 2 0 s) (fun '(h, s) =>
  obind (expect ":" s) (fun s =>
  obind (digits 2 0 s) (fun '(mi, s) =>
  obind (expect ":" s) (fun s =>
  obind (digits 2 0 s) (fun '(sec, s) =>
  if (1 <=? mo) && (mo <=? 12) && (1 <=? d) && (d <=? daysIn mo y)
     && (h <? 24) && (mi <? 60) && (sec <? 60)
  then Some (y, mo, d, h, mi, sec, s) else None))))))))))).

(** The fraction of [layoutMillis]: a period and exactly three digits. *)
Definition fracMillis (s : string) : option string :=
  obind (expect "." s) (fun s =>
  obind (digits 3 0 s) (fun '(_, s) => Some s)).

(** The fraction of [layoutFrac]: absent, or a period and digits. *)
Definition fracAny (s : string) : string :=
  match s with
  | String dot (String c s') =>
      if Ascii.eqb dot "." then
        match digit c with
        | Some _ => someDigits (String.length s') s'
        | None => s
        end
      else s
  | _ => s
  end.

Definition mkTime (p : Z * Z * Z * Z * Z * Z * string) (off : Z) : Time :=
  let '(y, mo, d, h, mi, sec, _) := p in
  {| year := y; month := mo; day := d; hour := h; minute := mi;
     second := sec; offset := off |}.

(** A strict reader of the two layouts of [formatDate]. *)
Definition timeParse (layout s : string) : option Time :=
  if (layout =? layoutMillis)%string then
    obind (dateClock s) (fun p =>
    let '(_, _, _, _, _, _, rest) := p in
    obind (fracMillis rest) (fun rest =>
    obind (zone rest) (fun off => Some (mkTime p off))))
  else if (layout =? layoutFrac)%string then
    obind (dateClock s) (fun p =>
    let '(_, _, _, _, _, _, rest) := p in
    obind (zone (fracAny rest)) (fun off => Some (mkTime p off)))
  else None.

(** [n] written with at least [w] digits, zero padded ([n >= 0]). *)
Fixpoint padded (w : nat) (n : Z) : string :=
  match w with
  | O => ""
  | S w' => padded w' (n / 10) ++ String (digitChar (n mod 10)) ""
  end.

(** [t.Format("2006-01-02")]; other layouts are not used. *)
Definition timeFormat (t : Time) (layout : string) : string :=
  if (layout =? layoutDate)%string then
    padded 4 (year t) ++ "-" ++ padded 2 (month t) ++ "-"
    ++ padded 2 (day t)
  else "".

End Ascii7.

(* ------------------------------------------------------------------ *)
(** ** The page tokens of searchIssues *)
(* ------------------------------------------------------------------ *)

Section SearchTokens.
Variable src : PageSource.
Variable jql : string.
Variable limit : Z.

(** The [nextPageToken] of the requests the loop sends, in order: the
    same walk as [requested], keeping the token instead of [maxResults]. *)
Fixpoint tokensSent (fuel : nat) (srv : Server src) (st : SearchState)
  : list string :=
  if slen (all st) <? limit then
    match fuel with
    | O => []
    | S fuel' =>
        let maxResults := minInt (limit - slen (all st)) 100 in
        nextPageToken st ::
        match fetch src srv jql maxResults (nextPageToken st) with
        | (_, inl err) => []
        | (srv', inr searchResp) =>
            if lastPage searchResp then []
            else tokensSent fuel' srv' (absorb st searchResp)
        end
    end
  else [].

(** The tokens a call of [searchIssues] sends. *)
Definition tokensOf (srv : Server src) : list string :=
  tokensSent (Z.to_nat limit) srv initialState.
End SearchTokens.

(* ------------------------------------------------------------------ *)
(** ** The commands: configuration, API calls, views *)
(* ------------------------------------------------------------------ *)

(** [trimRightByte(s, c)], to which [strings.TrimRight(s, cutset)] goes
    for a cutset of one ASCII byte: a byte is kept when it is not [c] or
    something is kept after it. *)
Fixpoint trimRightByte (s : string) (c : ascii) : string :=
  match s with
  | EmptyString => EmptyString
  | String b s' =>
      match trimRightByte s' c with
      | EmptyString => if Ascii.eqb b c then EmptyString
                       else String b EmptyString
      | kept => String b kept
      end
  end.

(** [n] times the byte [c]. *)
Fixpoint bytes (n : nat) (c : ascii) : string :=
  match n with
  | O => EmptyString
  | S n' => String c (bytes n' c)
  end.

(** The last byte of [s], if any. *)
Fixpoint lastByte (s : string) : option ascii :=
  match s with
  | EmptyString => None
  | String b EmptyString => Some b
  | String _ s' => lastByte s'
  end.

(** The alphabet of [base64.StdEncoding]: the character of a value
    below 64. *)
Definition encodeStd (n : Z) : ascii :=
  ascii_of_N (Z.to_N (if n <? 26 then 65 + n
                      else if n <? 52 then 97 + (n - 26)
                      else if n <? 62 then 48 + (n - 52)
                      else if n =? 62 then 43 else 47)).

(** The six bits of [val] from bit [shift] on, as a character. *)
Definition sextet (val shift : Z) : ascii :=
  encodeStd (Z.land (Z.shiftr val shift) 63).

(** [base64.StdEncoding.EncodeToString(src)]: three bytes make four
    characters; a last group of one or two bytes is padded with [=]. *)
Fixpoint EncodeToString (src : string) : string :=
  match src with
  | EmptyString => EmptyString
  | String a EmptyString =>
      let val := Z.shiftl (code a) 16 in
      String (sextet val 18) (String (sextet val 12) "==")
  | String a (String b EmptyString) =>
      let val := Z.lor (Z.shiftl (code a) 16) (Z.shiftl (code b) 8) in
      String (sextet val 18)
        (String (sextet val 12) (String (sextet val 6) "="))
  | String a (String b (String c rest)) =>
      let val := Z.lor (Z.lor (Z.shiftl (code a) 16) (Z.shiftl (code b) 8))
                       (code c) in
      String (sextet val 18)
        (String (sextet val 12)
           (String (sextet val 6)
              (String (sextet val 0) (EncodeToString rest))))
  end.

(** An outcome of a command: a value, a returned [error], or a panic. *)
Inductive Result (A : Type) : Type :=
| Ok (a : A)
| Err (err : string)
| Crash.
Arguments Ok {A} a.
Arguments Err {A} err.
Arguments Crash {A}.

(** A computation that threads the outside world [W] and may return an
    [error]: the shape of every function that talks to Jira or prints. *)
Definition Cmd (W A : Type) : Type := W -> W * Result A.

Definition ret {W A : Type} (a : A) : Cmd W A := fun w => (w, Ok a).

Definition failWith {W A : Type} (err : string) : Cmd W A :=
  fun w => (w, Err err).

(** [v, err := m; if err != nil { return err }; k v]. *)
Definition andThen {W A B : Type} (m : Cmd W A) (k : A -> Cmd W B)
  : Cmd W B :=
  fun w =>
    match m w with
    | (w', Ok a) => k a w'
    | (w', Err err) => (w', Err err)
    | (w', Crash) => (w', Crash)
    end.

Notation "x <== m ;; k" := (andThen m (fun x => k))
  (at level 61, m at next level, right associativity).

(** A Go pair [(value, err)] read as a step. *)
Definition orFail {W A : Type} (r : string + A) : Cmd W A :=
  match r with
  | inl err => failWith err
  | inr a => ret a
  end.

(** A call that may panic, read as a step. *)
Definition lift {W A : Type} (m : Go A) : Cmd W A :=
  match m with
  | Ret a => ret a
  | Panic => fun w => (w, Crash)
  end.

Module Cli.

Record Config : Type := {
  Server : string;
  Email : string;
  APIToken : string
}.

(** The zero value [Config{}]. *)
Definition noConfig : Config :=
  {| Server := ""; Email := ""; APIToken := "" |}.

Record JiraUser : Type := {
  AccountID : string;
  EmailAddress : string;
  DisplayName : string;
  Active : bool
}.

(** The issue with its fields.  A pointer field is an [option]. *)
Record JiraIssueFields : Type := {
  Summary : string;
  Description : any;
  Status : option JiraNameField;
  IssueType : option JiraNameField;
  Priority : option JiraNameField;
  Assignee : option JiraUser;
  Reporter : option JiraUser;
  Created : string;
  Updated : string;
  Labels : list string;
  Components : list JiraNameField
}.

Record JiraIssue : Type := {
  Key : string;
  Self : string;
  Fields : JiraIssueFields
}.

(** [Created] and [Updated] of a comment carry the prefix [Comment]. *)
Record JiraComment : Type := {
  Author : option JiraUser;
  Body : any;
  CommentCreated : string;
  CommentUpdated : string
}.

(** [Errors] is a Go map: its entries are listed in the order the [range]
    statement visits them, which Go leaves open. *)
Record JiraAPIError : Type := {
  ErrorMessages : list string;
  Errors : list (string * string)
}.

(** The document of a comment request; the fields [Type] and [Content]
    carry the name of their struct. *)
Record JiraADFText : Type := {
  TextType : string;
  Text : string
}.

Record JiraADFParagraph : Type := {
  ParagraphType : string;
  ParagraphContent : list JiraADFText
}.

Record JiraADFDocument : Type := {
  DocumentType : string;
  Version : Z;
  DocumentContent : list JiraADFParagraph
}.

Record JiraCommentRequest : Type := {
  RequestBody : JiraADFDocument
}.

(** The output types; their fields carry the prefix [View] or the name of
    the result where the name is taken by an API type. *)
Record IssueView : Type := {
  ViewKey : string;
  ViewSummary : string;
  ViewStatus : string;
  ViewType : string;
  ViewPriority : string;
  ViewAssignee : string;
  ViewCreated : string;
  ViewUpdated : string;
  ViewURL : string
}.

Record CommentView : Type := {
  ViewAuthor : string;
  ViewBody : string;
  ViewCommentCreated : string
}.

(** [IssueView] is the embedded struct. *)
Record IssueDetailView : Type := {
  DetailIssueView : IssueView;
  ViewDescription : string;
  ViewComments : list CommentView
}.

Record TransitionResult : Type := {
  TransitionKey : string;
  TransitionStatus : string;
  MatchedBy : string;
  Warning : string;
  TransitionURL : string
}.

Record AssignResult : Type := {
  AssignKey : string;
  AssignAssignee : string;
  AssigneeName : string;
  AssignURL : string
}.

Record CommentResult : Type := {
  CommentKey : string;
  Comment : string;
  CommentURL : string
}.

(** The values handed to [printJSON]; [ShownStatus] is the map of
    [runAuthStatus] with its server and its e-mail address. *)
Inductive Shown : Type :=
| ShownStatus (server address : string)
| ShownDetail (view : IssueDetailView)
| ShownTransition (r : TransitionResult)
| ShownAssign (r : AssignResult)
| ShownComment (r : CommentResult).

(** An outgoing request as the program builds it: method, URL, the
    headers in the order they are set, and the body. *)
Record Request : Type := {
  Method : string;
  URL : string;
  Header : list (string * string);
  Payload : option string
}.

(** What the program reads of a response: [Body] is what [io.ReadAll]
    or the JSON decoder gets from [resp.Body]; here [ResponseBody]. *)
Record Response : Type := {
  StatusCode : Z;
  ResponseStatus : string;
  ResponseBody : string
}.

(** The remote end of [client.Do]: the base transport, the network and
    the server, with the time limit and the redirects of the client.
    [baseRoundTrip] is given the request as it leaves the transport of
    the program and answers with the response or the error. *)
Record Remote : Type := {
  Conn : Type;
  baseRoundTrip : Conn -> Request -> Conn * (string + Response)
}.

(** The fields [email] and [token] of the transport the client is built
    with; its base is the remote end. *)
Record basicAuthTransport : Type := {
  email : string;
  token : string
}.

(** What [os.ReadFile] answers: an error that is [os.ErrNotExist],
    another error, or the bytes. *)
Inductive FileRead : Type :=
| NotExist
| ReadError (err : string)
| FileBytes (b : string).

(** The process environment: [os.Getenv], the outcome of [configPath()]
    (the directory lookup and [os.MkdirAll]), [os.ReadFile], the error
    of [os.WriteFile], [isInteractive()], and the line a scanner reads
    from standard input, if [Scan] finds one.

    [configPath] is the value [configPath()] returns, the path or the
    error.  On its way [configDir()] creates the directory jiractl with
    [os.MkdirAll]: every function that loads the configuration does so,
    and this change of the file system is not part of the model.  The
    events below are the requests, the printed text and the files
    written with [os.WriteFile]; nothing is proved about directories. *)
Record Os : Type := {
  Getenv : string -> string;
  configPath : string + string;
  ReadFile : string -> FileRead;
  WriteFile : string -> string -> option string;
  isInteractive : bool;
  scanLine : option string
}.

(** The library functions of the commands that are taken as they are:
    - [ToUpper] is [strings.ToUpper], [PathEscape] is [url.PathEscape];
    - [searchURL base query] is [url.Parse(base)], then [Query()],
      [Set("query", query)], [Encode()] and [String()]; [commentsURL
      base limit] is the same with orderBy set to -created and
      maxResults to the limit in decimal; [formatInt] is the verb %d;
    - [requestError method url] is the error of [http.NewRequest];
    - the [unmarshal], [decode] and [marshal] functions are package
      encoding/json at the types the program uses them at;
      [unmarshalConfig] gives the filled [Config] together with the error,
      [decodeTransitions] the [Transitions] of the decoded response,
      [decodeComments] its [Comments],
      [marshalConfig] is [MarshalIndent] with two spaces,
      [marshalShown indent v] is [MarshalIndent] or [Marshal]. *)
Class Wire : Type := {
  ToUpper : string -> string;
  PathEscape : string -> string;
  searchURL : string -> string -> string + string;
  requestError : string -> string -> option string;
  unmarshalConfig : string -> Config * option string;
  marshalConfig : Config -> string + string;
  decodeUser : string -> string + JiraUser;
  unmarshalAPIError : string -> option JiraAPIError;
  decodeIssue : string -> string + JiraIssue;
  decodeTransitions : string -> string + list JiraTransition;
  decodeUsers : string -> string + list JiraUser;
  decodeComments : string -> string + list JiraComment;
  commentsURL : string -> Z -> string + string;
  formatInt : Z -> string;
  marshalTransitionRequest : string -> string + string;
  marshalAssignRequest : string -> string + string;
  marshalCommentRequest : JiraCommentRequest -> string + string;
  marshalShown : bool -> Shown -> string + string
}.

(** What a command does to the outside: the requests that leave its
    transport, the text written to the two output streams, and the calls
    of [os.WriteFile]. *)
Inductive Event : Type :=
| Sends (req : Request)
| Stdout (text : string)
| Stderr (text : string)
| Writes (path b : string).

Section Commands.
Context {lib : GoLib} {wire : Wire}.

(* ---------------------------------------------------------------- *)
(** *** firstNonEmpty *)
(* ---------------------------------------------------------------- *)

Fixpoint firstNonEmpty (values : list string) : string :=
  match values with
  | [] => ""
  | v :: rest =>
      if negb (TrimSpace v =? "")%string then TrimSpace v
      else firstNonEmpty rest
  end.

(* ---------------------------------------------------------------- *)
(** *** loadConfig and loadAuthConfig *)
(* ---------------------------------------------------------------- *)

(** [loadConfig()], the pair being Go's [(cfg, err)]. *)
Definition loadConfig (os : Os) : Config * option string :=
  match configPath os with
  | inl err => (noConfig, Some err)
  | inr path =>
      match ReadFile os path with
      | NotExist => (noConfig, None)
      | ReadError err => (noConfig, Some err)
      | FileBytes b => unmarshalConfig b
      end
  end.

(** [if v := os.Getenv(name); v != "" { field = v }]. *)
Definition override (os : Os) (name field : string) : string :=
  if negb (Getenv os name =? "")%string then Getenv os name else field.

Definition notAuthenticated : string :=
  "not authenticated; run: jiractl auth login --server URL --email EMAIL".

(** The configuration after the three overrides. *)
Definition resolved (os : Os) (cfg : Config) : Config :=
  {| Server := override os "JIRACTL_SERVER" (Server cfg);
     Email := override os "JIRACTL_EMAIL" (Email cfg);
     APIToken := override os "JIRACTL_API_TOKEN" (APIToken cfg) |}.

(** [loadAuthConfig()]. *)
Definition loadAuthConfig (os : Os) : Config * option string :=
  match loadConfig os with
  | (_, Some err) => (noConfig, Some err)
  | (cfg, None) =>
      let cfg := resolved os cfg in
      if ((Server cfg =? "") || (Email cfg =? "")
          || (APIToken cfg =? ""))%string
      then (noConfig, Some notAuthenticated)
      else ({| Server := trimRightByte (Server cfg) "/";
               Email := Email cfg;
               APIToken := APIToken cfg |}, None)
  end.

(* ---------------------------------------------------------------- *)
(** *** View helpers *)
(* ---------------------------------------------------------------- *)

Definition nameOrEmpty (f : option JiraNameField) : string :=
  match f with
  | None => ""
  | Some f => NameOf f
  end.

Definition userEmail (u : option JiraUser) : string :=
  match u with
  | None => ""
  | Some u =>
      if negb (EmailAddress u =? "")%string then EmailAddress u
      else DisplayName u
  end.

Definition userDisplayName (u : option JiraUser) : string :=
  match u with
  | None => ""
  | Some u =>
      if negb (DisplayName u =? "")%string then DisplayName u
      else EmailAddress u
  end.

Definition issueToView (issue : JiraIssue) (server : string)
  : Go IssueView :=
  created <- formatDate (Created (Fields issue));;
  updated <- formatDate (Updated (Fields issue));;
  Ret {| ViewKey := Key issue;
         ViewSummary := Summary (Fields issue);
         ViewStatus := nameOrEmpty (Status (Fields issue));
         ViewType := nameOrEmpty (IssueType (Fields issue));
         ViewPriority := nameOrEmpty (Priority (Fields issue));
         ViewAssignee := userEmail (Assignee (Fields issue));
         ViewCreated := created;
         ViewUpdated := updated;
         ViewURL := server ++ "/browse/" ++ Key issue |}.

(** The zero value [IssueView{}], which [make] fills the slice with. *)
Definition noView : IssueView :=
  {| ViewKey := ""; ViewSummary := ""; ViewStatus := ""; ViewType := "";
     ViewPriority := ""; ViewAssignee := ""; ViewCreated := "";
     ViewUpdated := ""; ViewURL := "" |}.

(** [x[i] = v] on a slice; panics unless [0 <= i < len(x)]. *)
Fixpoint setAt {A : Type} (x : list A) (i : nat) (v : A) : Go (list A) :=
  match x, i with
  | [], _ => Panic
  | _ :: rest, O => Ret (v :: rest)
  | a :: rest, S i' => rest' <- setAt rest i' v;; Ret (a :: rest')
  end.

(** [for i, issue := range issues { views[i] = ... }] from index [i]
    on. *)
Fixpoint fillViews (server : string) (issues : list JiraIssue) (i : nat)
         (views : list IssueView) : Go (list IssueView) :=
  match issues with
  | [] => Ret views
  | issue :: rest =>
      view <- issueToView issue server;;
      views' <- setAt views i view;;
      fillViews server rest (S i) views'
  end.

Definition issuesToViews (issues : list JiraIssue) (server : string)
  : Go (list IssueView) :=
  fillViews server issues 0 (repeat noView (List.length issues)).

(** The loop of [issueToDetailView]: one [append] for each comment. *)
Fixpoint commentViews (comments : list JiraComment)
         (acc : list CommentView) : Go (list CommentView) :=
  match comments with
  | [] => Ret acc
  | c :: rest =>
      created <- formatDate (CommentCreated c);;
      commentViews rest
        (acc ++ [{| ViewAuthor := userDisplayName (Author c);
                    ViewBody := adfToText (Body c);
                    ViewCommentCreated := created |}])%list
  end.

Definition issueToDetailView (issue : JiraIssue) (server : string)
           (comments : list JiraComment) : Go IssueDetailView :=
  view <- issueToView issue server;;
  views <- commentViews comments [];;
  Ret {| DetailIssueView := view;
         ViewDescription := adfToText (Description (Fields issue));
         ViewComments := views |}.

(* ---------------------------------------------------------------- *)
(** *** The comment document *)
(* ---------------------------------------------------------------- *)

(** The request body [addComment] builds for [text]. *)
Definition commentRequest (text : string) : JiraCommentRequest :=
  {| RequestBody :=
       {| DocumentType := "doc";
          Version := 1;
          DocumentContent :=
            [{| ParagraphType := "paragraph";
                ParagraphContent :=
                  [{| TextType := "text"; Text := text |}] |}] |} |}.

(** The bit pattern of the [float64] that holds the integer [n], for
    [n] of at most 53 bits: sign, biased exponent, fraction. *)
Definition floatBits (n : Z) : Z :=
  if n =? 0 then 0
  else
    let e := Z.log2 (Z.abs n) in
    (if n <? 0 then 2 ^ 63 else 0)
    + (1023 + e) * 2 ^ 52 + (Z.abs n - 2 ^ e) * 2 ^ (52 - e).

(** The document as it is read back: the value [json.Unmarshal] gives
    for the JSON object [json.Marshal] writes, whose keys are those of the
    struct tags; a string of valid UTF-8 comes back as it is. *)
Definition textValue (t : JiraADFText) : any :=
  Obj [("type", Str (TextType t)); ("text", Str (Text t))].

Definition paragraphValue (p : JiraADFParagraph) : any :=
  Obj [("type", Str (ParagraphType p));
       ("content", Arr (map textValue (ParagraphContent p)))].

Definition documentValue (d : JiraADFDocument) : any :=
  Obj [("type", Str (DocumentType d));
       ("version", Number (floatBits (Version d)));
       ("content", Arr (map paragraphValue (DocumentContent d)))].

(** The text of a paragraph: its text nodes one after the other. *)
Definition paragraphText (p : JiraADFParagraph) : string :=
  Join (map Text (ParagraphContent p)) "".

(* ---------------------------------------------------------------- *)
(** *** The API calls *)
(* ---------------------------------------------------------------- *)

(** [fmt.Errorf("jira api error (%s): %s", resp.Status, detail)]. *)
Definition apiErrorText (resp : Response) (detail : string) : string :=
  "jira api error (" ++ ResponseStatus resp ++ "): " ++ detail.

(** The messages collected from a decoded error body. *)
Definition apiMessages (apiErr : JiraAPIError) : list string :=
  (ErrorMessages apiErr
   ++ map (fun kv => (fst kv ++ ": " ++ snd kv)%string)
          (Errors apiErr))%list.

(** The detail shown when the body carries no message. *)
Definition bodyOrStatus (resp : Response) : string :=
  let trimmed := TrimSpace (ResponseBody resp) in
  if (trimmed =? "")%string then ResponseStatus resp else trimmed.

(** The error built from a response that is not accepted: the block
    shared, word for word, by [decodeAPIResponse], [doTransition],
    [assignIssue] and [addComment]. *)
Definition apiError (resp : Response) : string :=
  match unmarshalAPIError (ResponseBody resp) with
  | Some apiErr =>
      if slen (apiMessages apiErr) >? 0
      then apiErrorText resp (Join (apiMessages apiErr) "; ")
      else apiErrorText resp (bodyOrStatus resp)
  | None => apiErrorText resp (bodyOrStatus resp)
  end.

(** [decodeAPIResponse(resp, out)] for the decoder of the type of
    [out]: the error, or the decoded value. *)
Definition decodeAPIResponse {A : Type} (decode : string -> string + A)
           (resp : Response) : string + A :=
  if StatusCode resp >=? 300 then inl (apiError resp)
  else decode (ResponseBody resp).

(** [http.NewRequest(method, url, body)]. *)
Definition newRequest (method url : string) (payload : option string)
  : string + Request :=
  match requestError method url with
  | Some err => inl err
  | None => inr {| Method := method; URL := url; Header := [];
                   Payload := payload |}
  end.

(** [req.Header.Set(key, value)] for a key not yet set. *)
Definition setHeader (key value : string) (req : Request) : Request :=
  {| Method := Method req; URL := URL req;
     Header := (Header req ++ [(key, value)])%list;
     Payload := Payload req |}.

Definition requestFailed (err : string) : string :=
  "jira api request failed: " ++ err.

Definition issueURL (cfg : Config) (issueKey rest : string) : string :=
  Server cfg ++ "/rest/api/3/issue/" ++ PathEscape issueKey ++ rest.

(** [buildHTTPClient(server, email, token)]: the client is its
    transport; the server is not used. *)
Definition buildHTTPClient (server address secret : string)
  : basicAuthTransport :=
  {| email := address; token := secret |}.

(** The client of the API calls. *)
Definition clientOf (cfg : Config) : basicAuthTransport :=
  buildHTTPClient (Server cfg) (Email cfg) (APIToken cfg).

(** The value of the [Authorization] header. *)
Definition basicAuth (t : basicAuthTransport) : string :=
  "Basic " ++ EncodeToString (email t ++ ":" ++ token t).

(** The request [r] that [RoundTrip] passes on. *)
Definition authorized (t : basicAuthTransport) (req : Request)
  : Request :=
  setHeader "Authorization" (basicAuth t) req.

Definition issueFields : string :=
  "?fields=summary,description,status,issuetype,priority,assignee,"
  ++ "reporter,created,updated,labels,components".

Variable remote : Remote.

(** The outside world of a command: the remote end and what the command
    has done so far. *)
Record World : Type := {
  conn : Conn remote;
  events : list Event
}.

Definition emit (e : Event) : Cmd World unit :=
  fun w => ({| conn := conn w; events := (events w ++ [e])%list |}, Ok tt).

(** [RoundTrip(req)] of the transport: the clone [r] of the request
    with its [Authorization] header goes to the base transport. *)
Definition RoundTrip (t : basicAuthTransport) (req : Request)
  : Cmd World (string + Response) :=
  fun w =>
    let r := authorized t req in
    let '(c, answer) := baseRoundTrip remote (conn w) r in
    ({| conn := c; events := (events w ++ [Sends r])%list |}, Ok answer).

(** [client.Do(req)] for a client built by [buildHTTPClient]. *)
Definition clientDo (client : basicAuthTransport) (req : Request)
  : Cmd World (string + Response) :=
  RoundTrip client req.

(** A GET request with the [Accept] header, sent and decoded: the body
    common to [getIssue], [getTransitions] and [searchUser]. *)
Definition getJSON {A : Type} (client : basicAuthTransport)
           (decode : string -> string + A) (u : string) : Cmd World A :=
  req <== orFail (newRequest "GET" u None);;
  answer <== clientDo client (setHeader "Accept" "application/json" req);;
  match answer with
  | inl err => failWith (requestFailed err)
  | inr resp => orFail (decodeAPIResponse decode resp)
  end.

(** A request with a JSON body, sent, and accepted on the status
    [expected] only: the body common to [doTransition], [assignIssue]
    and [addComment] after [json.Marshal]. *)
Definition sendJSON (client : basicAuthTransport) (method u b : string)
           (expected : Z) : Cmd World unit :=
  req <== orFail (newRequest method u (Some b));;
  answer <== clientDo client
    (setHeader "Accept" "application/json"
       (setHeader "Content-Type" "application/json" req));;
  match answer with
  | inl err => failWith (requestFailed err)
  | inr resp =>
      if negb (StatusCode resp =? expected) then failWith (apiError resp)
      else ret tt
  end.

Definition getIssue (cfg : Config) (issueKey : string)
  : Cmd World JiraIssue :=
  getJSON (clientOf cfg) decodeIssue (issueURL cfg issueKey issueFields).

Definition getTransitions (cfg : Config) (issueKey : string)
  : Cmd World (list JiraTransition) :=
  getJSON (clientOf cfg) decodeTransitions
          (issueURL cfg issueKey "/transitions").

Definition doTransition (cfg : Config) (issueKey transitionID : string)
  : Cmd World unit :=
  b <== orFail (marshalTransitionRequest transitionID);;
  sendJSON (clientOf cfg) "POST" (issueURL cfg issueKey "/transitions")
           b 204.

Definition searchUser (cfg : Config) (query : string)
  : Cmd World (list JiraUser) :=
  u <== orFail (searchURL (Server cfg ++ "/rest/api/3/user/search") query);;
  getJSON (clientOf cfg) decodeUsers u.

Definition assignIssue (cfg : Config) (issueKey accountID : string)
  : Cmd World unit :=
  b <== orFail (marshalAssignRequest accountID);;
  sendJSON (clientOf cfg) "PUT" (issueURL cfg issueKey "/assignee") b 204.

Definition addComment (cfg : Config) (issueKey text : string)
  : Cmd World unit :=
  b <== orFail (marshalCommentRequest (commentRequest text));;
  sendJSON (clientOf cfg) "POST" (issueURL cfg issueKey "/comment") b 201.

(* ---------------------------------------------------------------- *)
(** *** The commands that change an issue *)
(* ---------------------------------------------------------------- *)

(** [printJSON(v)]. *)
Definition printJSON (os : Os) (v : Shown) : Cmd World unit :=
  let pretty :=
    (TrimSpace (Getenv os "JIRACTL_JSON_PRETTY") =? "1")%string in
  b <== orFail (marshalShown pretty v);;
  emit (Stdout (b ++ nl)).

(** [cfg, err := loadAuthConfig()] read as a step. *)
Definition authConfig (os : Os) : Cmd World Config :=
  match loadAuthConfig os with
  | (_, Some err) => failWith err
  | (cfg, None) => ret cfg
  end.

Definition keyRequired (command flags : string) : string :=
  "issue key is required (e.g. jiractl issues " ++ command ++ " PROJ-123"
  ++ flags ++ ")".

(** [runIssuesTransition(args)] after [fs.Parse(args)] has succeeded:
    [status] and [jsonOut] are the values of the flags, [remaining] is
    [fs.Args()]. *)
Definition runIssuesTransition (os : Os) (status : string)
           (jsonOut : bool) (remaining : list string) : Cmd World unit :=
  match remaining with
  | [] => failWith (keyRequired "transition"
                  (" --status " ++ quoted "In Progress"))
  | first :: _ =>
      let issueKey := ToUpper first in
      if (status =? "")%string then
        failWith ("--status is required (e.g. --status "
              ++ quoted "In Progress" ++ ")")
      else
        cfg <== authConfig os;;
        transitions <== getTransitions cfg issueKey;;
        found <== lift (matchTransition transitions status);;
        let '(matched, matchedBy, warning, err) := found in
        match err with
        | Some err => failWith err
        | None =>
            _ <== doTransition cfg issueKey (ID matched);;
            let result :=
              {| TransitionKey := issueKey;
                 TransitionStatus := Name matched;
                 MatchedBy := matchedBy;
                 Warning := warning;
                 TransitionURL := Server cfg ++ "/browse/" ++ issueKey |} in
            if jsonOut then printJSON os (ShownTransition result)
            else
              _ <== (if negb (warning =? "")%string
                     then emit (Stderr ("warning: " ++ warning ++ nl))
                     else ret tt);;
              emit (Stdout (TransitionKey result ++ " transitioned to "
                            ++ TransitionStatus result ++ nl))
        end
  end.

(** The three variables [runIssuesAssign] resolves:
    (accountID, displayName, assigneeEmail). *)
Definition resolveAssignee (cfg : Config) (issueKey email : string)
  : Cmd World (string * string * string) :=
  if (email =? "")%string then
    issue <== getIssue cfg issueKey;;
    match Reporter (Fields issue) with
    | None =>
        failWith "issue has no reporter; use --email to specify an assignee"
    | Some reporter =>
        if (AccountID reporter =? "")%string then
          failWith "issue has no reporter; use --email to specify an assignee"
        else ret (AccountID reporter, DisplayName reporter,
                  EmailAddress reporter)
    end
  else
    users <== searchUser cfg email;;
    match users with
    | [] => failWith ("no user found for " ++ Quote email)
    | user :: _ =>
        ret (AccountID user, DisplayName user, EmailAddress user)
    end.

(** [runIssuesAssign(args)] after the flags are parsed. *)
Definition runIssuesAssign (os : Os) (email : string) (jsonOut : bool)
           (remaining : list string) : Cmd World unit :=
  match remaining with
  | [] => failWith (keyRequired "assign" "")
  | first :: _ =>
      let issueKey := ToUpper first in
      cfg <== authConfig os;;
      who <== resolveAssignee cfg issueKey email;;
      let '(accountID, displayName, assigneeEmail) := who in
      _ <== assignIssue cfg issueKey accountID;;
      let result :=
        {| AssignKey := issueKey;
           AssignAssignee := assigneeEmail;
           AssigneeName := displayName;
           AssignURL := Server cfg ++ "/browse/" ++ issueKey |} in
      if jsonOut then printJSON os (ShownAssign result)
      else if negb (displayName =? "")%string
              && negb (assigneeEmail =? "")%string then
        emit (Stdout (AssignKey result ++ " assigned to " ++ displayName
                      ++ " (" ++ assigneeEmail ++ ")" ++ nl))
      else if negb (displayName =? "")%string then
        emit (Stdout (AssignKey result ++ " assigned to " ++ displayName
                      ++ nl))
      else
        emit (Stdout (AssignKey result ++ " assigned to " ++ assigneeEmail
                      ++ nl))
  end.

(** [runIssuesComment(args)] after the flags are parsed. *)
Definition runIssuesComment (os : Os) (body : string) (jsonOut : bool)
           (remaining : list string) : Cmd World unit :=
  match remaining with
  | [] => failWith (keyRequired "comment" (" --body " ++ quoted "text"))
  | first :: _ =>
      let issueKey := ToUpper first in
      if (body =? "")%string then failWith "--body is required"
      else
        cfg <== authConfig os;;
        _ <== addComment cfg issueKey body;;
        let result :=
          {| CommentKey := issueKey;
             Comment := body;
             CommentURL := Server cfg ++ "/browse/" ++ issueKey |} in
        if jsonOut then printJSON os (ShownComment result)
        else emit (Stdout ("Comment added to " ++ CommentKey result ++ nl))
  end.

(* ---------------------------------------------------------------- *)
(** *** issues view *)
(* ---------------------------------------------------------------- *)

Definition getComments (cfg : Config) (issueKey : string) (limit : Z)
  : Cmd World (list JiraComment) :=
  u <== orFail (commentsURL (issueURL cfg issueKey "/comment") limit);;
  getJSON (clientOf cfg) decodeComments u.

(** The [fmt.Printf] of one comment. *)
Definition commentBlock (c : CommentView) : string :=
  nl ++ "  " ++ ViewAuthor c ++ " (" ++ ViewCommentCreated c ++ "):" ++ nl
  ++ "  " ++ ViewBody c ++ nl.

(** What [runIssuesView] prints without --json, one text for each
    [fmt.Printf]: the nine fields, the description if there is one, and
    the comments if there are any. *)
Definition detailOutput (view : IssueDetailView) : list string :=
  let v := DetailIssueView view in
  ["Key:         " ++ ViewKey v ++ nl;
   "Summary:     " ++ ViewSummary v ++ nl;
   "Status:      " ++ ViewStatus v ++ nl;
   "Type:        " ++ ViewType v ++ nl;
   "Priority:    " ++ ViewPriority v ++ nl;
   "Assignee:    " ++ ViewAssignee v ++ nl;
   "Created:     " ++ ViewCreated v ++ nl;
   "Updated:     " ++ ViewUpdated v ++ nl;
   "URL:         " ++ ViewURL v ++ nl]
  ++ (if negb (ViewDescription view =? "")%string
      then [nl ++ "Description:" ++ nl ++ ViewDescription view ++ nl]
      else [])
  ++ (if slen (ViewComments view) >? 0
      then (nl ++ "Comments (" ++ formatInt (slen (ViewComments view))
            ++ "):" ++ nl)
           :: map commentBlock (ViewComments view)
      else []).

(** The texts written to standard output one after the other. *)
Fixpoint printAll (texts : list string) : Cmd World unit :=
  match texts with
  | [] => ret tt
  | text :: rest => _ <== emit (Stdout text);; printAll rest
  end.

(** [runIssuesView(args)] after the flags are parsed: [commentLimit] is
    the value of --comment-limit. *)
Definition runIssuesView (os : Os) (commentLimit : Z) (jsonOut : bool)
           (remaining : list string) : Cmd World unit :=
  if commentLimit <=? 0 then
    failWith "--comment-limit must be greater than 0"
  else
    match remaining with
    | [] => failWith (keyRequired "view" "")
    | first :: _ =>
        let issueKey := ToUpper first in
        cfg <== authConfig os;;
        issue <== getIssue cfg issueKey;;
        comments <== getComments cfg issueKey commentLimit;;
        view <== lift (issueToDetailView issue (Server cfg) comments);;
        if jsonOut then printJSON os (ShownDetail view)
        else printAll (detailOutput view)
    end.

(* ---------------------------------------------------------------- *)
(** *** The auth commands *)
(* ---------------------------------------------------------------- *)

(** [os.WriteFile(path, b, 0o600)]. *)
Definition writeFile (os : Os) (path b : string) : Cmd World unit :=
  fun w =>
    ({| conn := conn w; events := (events w ++ [Writes path b])%list |},
     match WriteFile os path b with
     | Some err => Err err
     | None => Ok tt
     end).

(** [saveConfig(cfg)]. *)
Definition saveConfig (os : Os) (cfg : Config) : Cmd World unit :=
  path <== orFail (configPath os);;
  b <== orFail (marshalConfig cfg);;
  writeFile os path b.

(** [if err := m; err != nil { return fmt.Errorf(prefix + "%w", err) }]. *)
Definition wrapped {A : Type} (prefix : string) (m : Cmd World A)
  : Cmd World A :=
  fun w =>
    match m w with
    | (w', Err err) => (w', Err (prefix ++ err))
    | done => done
    end.

(** The token of [runAuthLogin]: the flag, else the variable, else, on a
    terminal, the line read after the prompt. *)
Definition resolveToken (os : Os) (secret : string) : Cmd World string :=
  let tok := firstNonEmpty [secret; Getenv os "JIRACTL_API_TOKEN"] in
  if (tok =? "")%string then
    if negb (isInteractive os) then
      failWith ("--token is required in non-interactive mode "
                ++ "(or set JIRACTL_API_TOKEN)")
    else
      _ <== emit (Stdout "API token: ");;
      let tok := match scanLine os with
                 | Some text => TrimSpace text
                 | None => tok
                 end in
      if (tok =? "")%string then failWith "API token cannot be empty"
      else ret tok
  else ret tok.

(** [runAuthLogin(args)] after the flags are parsed: [server], [address]
    and [secret] are the values of --server, --email and --token. *)
Definition runAuthLogin (os : Os) (server address secret : string)
  : Cmd World unit :=
  let srv := firstNonEmpty [server; Getenv os "JIRACTL_SERVER"] in
  if (srv =? "")%string then
    failWith "--server is required (or set JIRACTL_SERVER)"
  else
    let srv := trimRightByte srv "/" in
    let em := firstNonEmpty [address; Getenv os "JIRACTL_EMAIL"] in
    if (em =? "")%string then
      failWith "--email is required (or set JIRACTL_EMAIL)"
    else
      tok <== resolveToken os secret;;
      let client := buildHTTPClient srv em tok in
      req <== orFail (newRequest "GET" (srv ++ "/rest/api/3/myself") None);;
      answer <== clientDo client
        (setHeader "Accept" "application/json" req);;
      match answer with
      | inl err => failWith ("failed to connect to " ++ srv ++ ": " ++ err)
      | inr resp =>
          if negb (StatusCode resp =? 200) then
            failWith ("auth verification failed (" ++ ResponseStatus resp
                      ++ "): " ++ TrimSpace (ResponseBody resp))
          else
            match decodeUser (ResponseBody resp) with
            | inl err => failWith ("failed to parse auth response: " ++ err)
            | inr user =>
                let cfg := {| Server := srv; Email := em;
                              APIToken := tok |} in
                _ <== wrapped "failed to save config: "
                              (saveConfig os cfg);;
                emit (Stdout ("Authenticated as " ++ DisplayName user
                              ++ " (" ++ em ++ ") on " ++ srv ++ nl))
            end
      end.

(** [runAuthStatus(args)] after the flags are parsed. *)
Definition runAuthStatus (os : Os) (jsonOut : bool) : Cmd World unit :=
  cfg <== authConfig os;;
  if jsonOut then printJSON os (ShownStatus (Server cfg) (Email cfg))
  else
    _ <== emit (Stdout ("Authenticated: yes" ++ nl));;
    _ <== emit (Stdout ("Server:        " ++ Server cfg ++ nl));;
    emit (Stdout ("Email:         " ++ Email cfg ++ nl)).

(** The requests among the events, in order. *)
Fixpoint requestsOf (es : list Event) : list Request :=
  match es with
  | [] => []
  | Sends req :: es' => req :: requestsOf es'
  | _ :: es' => requestsOf es'
  end.

(** Every request a computation hands to the network satisfies [P],
    from whatever world it starts. *)
Definition sendsOnly {A : Type} (P : Request -> Prop) (m : Cmd World A)
  : Prop :=
  forall w : World,
    exists new,
      events (fst (m w)) = (events w ++ new)%list
      /\ Forall P (requestsOf new).

End Commands.

Arguments conn {remote} w.
Arguments events {remote} w.

End Cli.

(* ------------------------------------------------------------------ *)
(** ** Sample inputs *)
(* ------------------------------------------------------------------ *)

Module Samples.

Definition tr (id name : string) : JiraTransition :=
  {| ID := id; Name := name; To := None |}.

Definition issue (key : string) : JiraIssue := {| Key := key; Self := "" |}.

(** A string holding a double quote: [a], the quote, [b]. *)
Definition withQuote (a b : string) : string := a ++ String dquote b.

(** [n] times the letter e with an acute accent, U+00E9: the two bytes
    195 and 169 of its UTF-8 encoding. *)
Fixpoint accents (n : nat) : string :=
  match n with
  | O => ""
  | S n' => String "195"%char (String "169"%char (accents n'))
  end.

(** The transitions of the repository's tests. *)
Definition doneFirst : list JiraTransition :=
  [tr "10" "Done"; tr "11" "Done (QA)"].
Definition doneLast : list JiraTransition :=
  [tr "1" "Done (QA)"; tr "2" "Done"].
Definition inProgressDone : list JiraTransition :=
  [tr "1" "In Progress"; tr "2" "Done"].

(** Two transitions that differ in case only. *)
Definition twiceDone : list JiraTransition :=
  [tr "1" "Done"; tr "2" "done"].

(** Two names holding the query, the shorter one further right. *)
Definition notDoneUndone : list JiraTransition :=
  [tr "31" "Not Done"; tr "32" "Undone work item"].

(** Names with a double quote in them. *)
Definition quotedNames : list JiraTransition :=
  [tr "1" (withQuote "x" "y"); tr "2" (withQuote "x" "z")].

(** The source of the repository's pagination test: two issues and the
    token page-2 on the first request, no issue and no token after. *)
Definition twoPages : PageSource :=
  {| Server := unit;
     fetch := fun srv _ _ token =>
       if (token =? "")%string then
         (srv, inr {| RespTotal := 5;
                      RespIssues := [issue "PROJ-1"; issue "PROJ-2"];
                      NextPageToken := "page-2" |})
       else
         (srv, inr {| RespTotal := 5; RespIssues := [];
                      NextPageToken := "" |}) |}.

(** A source that answers every request with all its three issues. *)
Definition threeAtOnce : JiraSearchResponse :=
  {| RespTotal := 3;
     RespIssues := [issue "PROJ-1"; issue "PROJ-2"; issue "PROJ-3"];
     NextPageToken := "" |}.

Definition overshooting : PageSource :=
  {| Server := unit; fetch := fun srv _ _ _ => (srv, inr threeAtOnce) |}.

(** A list item that has a text and no content array, and a bullet list
    of two such items. *)
Definition bareItem (text : string) : any :=
  Obj [("type", Str "listItem"); ("text", Str text)].

Definition bareList : list (string * any) :=
  [("type", Str "bulletList");
   ("content", Arr [bareItem "a"; bareItem "b"])].

(** The same list with each text in a paragraph of the item. *)
Definition paragraph (text : string) : any :=
  Obj [("type", Str "paragraph");
       ("content", Arr [Obj [("type", Str "text"); ("text", Str text)]])].

Definition fullItem (text : string) : any :=
  Obj [("type", Str "listItem"); ("content", Arr [paragraph text])].

Definition fullList : list (string * any) :=
  [("type", Str "bulletList");
   ("content", Arr [fullItem "a"; fullItem "b"])].

End Samples.

(* ------------------------------------------------------------------ *)
(** ** Sample environments of the commands *)
(* ------------------------------------------------------------------ *)

Module CliSamples.
Import Samples.

(** ['a'..'z'] to ['A'..'Z']. *)
Definition upperByte (c : ascii) : ascii :=
  if inRange 97 122 c then ascii_of_N (N_of_ascii c - 32) else c.

Definition reporter : Cli.JiraUser :=
  {| Cli.AccountID := "acc-7"; Cli.EmailAddress := "ann@example.com";
     Cli.DisplayName := "Ann"; Cli.Active := true |}.

Definition reported : Cli.JiraIssue :=
  {| Cli.Key := "PROJ-1"; Cli.Self := "";
     Cli.Fields :=
       {| Cli.Summary := "Fix it"; Cli.Description := Nil;
          Cli.Status := Some {| NameOf := "Open" |};
          Cli.IssueType := None; Cli.Priority := None;
          Cli.Assignee := None; Cli.Reporter := Some reporter;
          Cli.Created := "2026-02-10T12:34:56.000+0100";
          Cli.Updated := ""; Cli.Labels := []; Cli.Components := [] |} |}.

Definition remark : Cli.JiraComment :=
  {| Cli.Author := Some reporter; Cli.Body := Str "Looks good";
     Cli.CommentCreated := "2026-02-11T08:00:00.000+0100";
     Cli.CommentUpdated := "" |}.

(** The configuration a login of Ann stores. *)
Definition stored : Cli.Config :=
  {| Cli.Server := "https://jira.example";
     Cli.Email := "ann@example.com"; Cli.APIToken := "secret" |}.

Definition sameConfig (a b : Cli.Config) : bool :=
  ((Cli.Server a =? Cli.Server b) && (Cli.Email a =? Cli.Email b)
   && (Cli.APIToken a =? Cli.APIToken b))%string.

Definition notFound : Cli.JiraAPIError :=
  {| Cli.ErrorMessages := ["Issue does not exist"];
     Cli.Errors := [("status", "unknown")] |}.

(** The library of the commands for the runs below: upper case on ASCII;
    issue keys of letters, digits and hyphens, which [url.PathEscape]
    leaves as they are; requests that can always be built.  A JSON text
    is stood for by a word: the bodies [transitions], [issue], [users],
    [comments], [user], [config] and [errors] decode to one sample value
    each and nothing else decodes; a marshalled value is a word followed
    by its text, and [stored] is the one configuration that can be
    written.  Limits have two digits, counts one. *)
Definition words : Cli.Wire :=
  {| Cli.ToUpper := Ascii7.mapBytes upperByte;
     Cli.PathEscape := fun s => s;
     Cli.searchURL := fun base query => inr (base ++ "?query=" ++ query);
     Cli.requestError := fun _ _ => None;
     Cli.unmarshalConfig := fun b =>
       if (b =? "config")%string then (stored, None)
       else (Cli.noConfig, Some "unexpected end of JSON input");
     Cli.marshalConfig := fun cfg =>
       if sameConfig cfg stored then inr "config"
       else inl "unsupported value";
     Cli.decodeUser := fun body =>
       if (body =? "user")%string then inr reporter
       else inl "invalid character";
     Cli.unmarshalAPIError := fun body =>
       if (body =? "errors")%string then Some notFound else None;
     Cli.decodeIssue := fun body =>
       if (body =? "issue")%string then inr reported
       else inl "invalid character";
     Cli.decodeTransitions := fun body =>
       if (body =? "transitions")%string then inr doneLast
       else inl "invalid character";
     Cli.decodeUsers := fun body =>
       if (body =? "users")%string then inr [reporter]
       else inl "invalid character";
     Cli.decodeComments := fun body =>
       if (body =? "comments")%string then inr [remark; remark]
       else inl "invalid character";
     Cli.commentsURL := fun base limit =>
       inr (base ++ "?maxResults=" ++ Ascii7.padded 2 limit
            ++ "&orderBy=-created");
     Cli.formatInt := fun n => Ascii7.padded 1 n;
     Cli.marshalTransitionRequest := fun id => inr ("transition " ++ id);
     Cli.marshalAssignRequest := fun id => inr ("assign " ++ id);
     Cli.marshalCommentRequest := fun _ => inr "comment";
     Cli.marshalShown := fun _ _ => inr "result" |}.

(** No configuration file, and the three variables set; the server is
    given with a trailing slash. *)
Definition fromEnvironment : Cli.Os :=
  {| Cli.Getenv := fun name =>
       if (name =? "JIRACTL_SERVER")%string then "https://jira.example/"
       else if (name =? "JIRACTL_EMAIL")%string then "ann@example.com"
       else if (name =? "JIRACTL_API_TOKEN")%string then "secret"
       else "";
     Cli.configPath := inr "/home/ann/.config/jiractl/config.json";
     Cli.ReadFile := fun _ => Cli.NotExist;
     Cli.WriteFile := fun _ _ => None;
     Cli.isInteractive := false;
     Cli.scanLine := None |}.

(** The same with two slashes as the server. *)
Definition slashesOnly : Cli.Os :=
  {| Cli.Getenv := fun name =>
       if (name =? "JIRACTL_SERVER")%string then "//"
       else Cli.Getenv fromEnvironment name;
     Cli.configPath := Cli.configPath fromEnvironment;
     Cli.ReadFile := Cli.ReadFile fromEnvironment;
     Cli.WriteFile := Cli.WriteFile fromEnvironment;
     Cli.isInteractive := false;
     Cli.scanLine := None |}.

(** A server that lists the transitions of [doneLast] on a GET and
    accepts every other request with 204 No Content. *)
Definition obliging : Cli.Remote :=
  {| Cli.Conn := unit;
     Cli.baseRoundTrip := fun c req =>
       if (Cli.Method req =? "GET")%string then
         (c, inr {| Cli.StatusCode := 200;
                    Cli.ResponseStatus := "200 OK";
                    Cli.ResponseBody := "transitions" |})
       else
         (c, inr {| Cli.StatusCode := 204;
                    Cli.ResponseStatus := "204 No Content";
                    Cli.ResponseBody := "" |}) |}.

Definition start : Cli.World obliging := Cli.Build_World obliging tt [].

(** A server that answers a request for comments with two comments
    and any other request with the issue [reported]. *)
Definition serves : Cli.Remote :=
  {| Cli.Conn := unit;
     Cli.baseRoundTrip := fun c req =>
       (c, inr {| Cli.StatusCode := 200;
                  Cli.ResponseStatus := "200 OK";
                  Cli.ResponseBody :=
                    if Contains (Cli.URL req) "/comment"
                    then "comments" else "issue" |}) |}.

Definition opened : Cli.World serves := Cli.Build_World serves tt [].

(** A server that answers every request with the user Ann. *)
Definition knowsAnn : Cli.Remote :=
  {| Cli.Conn := unit;
     Cli.baseRoundTrip := fun c _ =>
       (c, inr {| Cli.StatusCode := 200;
                  Cli.ResponseStatus := "200 OK";
                  Cli.ResponseBody := "user" |}) |}.

Definition fresh : Cli.World knowsAnn := Cli.Build_World knowsAnn tt [].

(** The environment after a login: the file in place and no variable
    set but the one named [variable], which holds [value]. *)
Definition afterLogin (variable value : string) : Cli.Os :=
  {| Cli.Getenv := fun name =>
       if (name =? variable)%string then value else "";
     Cli.configPath := inr "/home/ann/.config/jiractl/config.json";
     Cli.ReadFile := fun _ => Cli.FileBytes "config";
     Cli.WriteFile := fun _ _ => None;
     Cli.isInteractive := false;
     Cli.scanLine := None |}.


(** A source that sends one page of two issues with a token and fails on
    the request that carries the token. *)
Definition breaksOnSecond : PageSource :=
  {| Server := unit;
     fetch := fun srv _ _ token =>
       if (token =? "")%string then
         (srv, inr {| RespTotal := 5;
                      RespIssues := [issue "PROJ-1"; issue "PROJ-2"];
                      NextPageToken := "page-2" |})
       else (srv, inl "connection reset") |}.

(** Two paragraphs, the second of two text nodes. *)
Definition twoParagraphs : list Cli.JiraADFParagraph :=
  [ {| Cli.ParagraphType := "paragraph";
       Cli.ParagraphContent :=
         [{| Cli.TextType := "text"; Cli.Text := "A" |}] |};
    {| Cli.ParagraphType := "paragraph";
       Cli.ParagraphContent :=
         [{| Cli.TextType := "text"; Cli.Text := "B" |};
          {| Cli.TextType := "text"; Cli.Text := "C" |}] |} ].

End CliSamples.

(* ------------------------------------------------------------------ *)
(** * Properties *)
(* ------------------------------------------------------------------ *)

(** ** The ASCII library satisfies the laws *)

Module Ascii7Facts.
Import Ascii7.

Lemma insert_perm {A : Type} (less : A -> A -> bool) (x : A) (l : list A) :
  Permutation (insert less x l) (x :: l).
Proof.
  induction l as [|y r IH]; simpl.
  - apply Permutation_refl.
  - destruct (less y x).
    + apply Permutation_trans with (y :: x :: r).
      * now apply perm_skip.
      * apply perm_swap.
    + apply Permutation_refl.
Qed.

Lemma sort_perm {A : Type} (less : A -> A -> bool) (l : list A) :
  Permutation (sortSlice less l) l.
Proof.
  induction l as [|x r IH]; simpl.
  - apply perm_nil.
  - apply Permutation_trans with (x :: sortSlice less r).
    + apply insert_perm.
    + now apply perm_skip.
Qed.

Lemma insert_hd {A : Type} (less : A -> A -> bool) (R : A -> A -> Prop)
      (a x : A) (l : list A) :
  R a x -> HdRel R a l -> HdRel R a (insert less x l).
Proof.
  intros Hax Hl. destruct l as [|y r]; simpl.
  - now constructor.
  - inversion Hl; subst. destruct (less y x); now constructor.
Qed.

Lemma insert_sorted {A : Type} (less : A -> A -> bool) (x : A)
      (l : list A) :
  StrictWeak less ->
  Sorted (fun a b => less b a = false) l ->
  Sorted (fun a b => less b a = false) (insert less x l).
Proof.
  intros SW. induction l as [|y r IH]; intros Hs; simpl.
  - repeat constructor.
  - inversion Hs as [|? ? Hr Hy]; subst.
    destruct (less y x) eqn:Hyx.
    + constructor; [now apply IH|].
      apply insert_hd; [|exact Hy].
      destruct (less x y) eqn:Hxy; [|reflexivity].
      rewrite <- (sw_irrefl less SW y).
      symmetry. now apply (sw_trans less SW y x y).
    + constructor; [exact Hs|]. now constructor.
Qed.

Lemma sort_sorted {A : Type} (less : A -> A -> bool) (l : list A) :
  StrictWeak less ->
  Sorted (fun a b => less b a = false) (sortSlice less l).
Proof.
  intros SW. induction l as [|x r IH]; simpl.
  - constructor.
  - now apply insert_sorted.
Qed.

Lemma escape_plain (s : string) : plain s = true -> escape s = s.
Proof.
  induction s as [|c s IH]; simpl; intros H.
  - reflexivity.
  - apply andb_true_iff in H as [Hc Hs].
    unfold escapeByte. rewrite Hc. simpl. now rewrite IH.
Qed.

Lemma quote_plain (s : string) : plain s = true -> Quote s = quoted s.
Proof. intros H. unfold Quote. now rewrite escape_plain. Qed.

End Ascii7Facts.

(** The ASCII library as an implementation of [GoLib]. *)
#[local] Instance asciiLib : GoLib := {|
  ToLower := Ascii7.ToLower;
  EqualFold := Ascii7.EqualFold;
  TrimSpace := Ascii7.TrimSpace;
  Quote := Ascii7.Quote;
  sortSlice := @Ascii7.sortSlice;
  Time := Ascii7.Time;
  timeParse := Ascii7.timeParse;
  timeFormat := Ascii7.timeFormat;
  sortSlice_perm := @Ascii7Facts.sort_perm;
  sortSlice_sorted := @Ascii7Facts.sort_sorted;
  Quote_plain := Ascii7Facts.quote_plain;
  timeParse_empty_millis := eq_refl;
  timeParse_empty_frac := eq_refl
|}.

(** ** Strings *)

Lemma app_nil_r_str (s : string) : s ++ "" = s.
Proof. induction s as [|c s IH]; simpl; [reflexivity | now rewrite IH]. Qed.

Lemma app_assoc_str (a b c : string) : (a ++ b) ++ c = a ++ b ++ c.
Proof. induction a as [|x a IH]; simpl; [reflexivity | now rewrite IH]. Qed.

Lemma len_nonneg (s : string) : 0 <= len s.
Proof. unfold len. lia. Qed.

Lemma HasPrefix_app (p s : string) : HasPrefix (p ++ s) p = true.
Proof.
  induction p as [|c p IH]; simpl.
  - reflexivity.
  - now rewrite Ascii.eqb_refl.
Qed.

Lemma HasPrefix_split (s p : string) :
  HasPrefix s p = true -> exists rest, s = p ++ rest.
Proof.
  revert s. induction p as [|c p IH]; intros s H.
  - now exists s.
  - destruct s as [|d s]; simpl in H; [discriminate|].
    apply andb_true_iff in H as [Hc Hp].
    apply Ascii.eqb_eq in Hc. subst d.
    destruct (IH s Hp) as [rest ->]. now exists rest.
Qed.

Lemma indexFrom_lower (s substr : string) (i : Z) :
  indexFrom s substr i = -1 \/ i <= indexFrom s substr i.
Proof.
  revert i. induction s as [|c s IH]; intros i; simpl.
  - destruct (HasPrefix "" substr); [right; lia | now left].
  - destruct (HasPrefix (String c s) substr); [right; lia|].
    destruct (IH (i + 1)) as [H|H]; [now left | right; lia].
Qed.

Lemma indexFrom_shift (s substr : string) (i : Z) :
  indexFrom s substr i =
  if indexFrom s substr 0 =? -1 then -1 else indexFrom s substr 0 + i.
Proof.
  revert i. induction s as [|c s IH]; intros i; simpl.
  - destruct (HasPrefix "" substr); simpl; [lia | reflexivity].
  - destruct (HasPrefix (String c s) substr); simpl; [lia|].
    rewrite (IH (i + 1)), (IH 1).
    destruct (indexFrom s substr 0 =? -1) eqn:E; simpl; [reflexivity|].
    apply Z.eqb_neq in E.
    destruct (indexFrom_lower s substr 0) as [H|H]; [contradiction|].
    destruct (indexFrom s substr 0 + 1 =? -1) eqn:E'; [lia | lia].
Qed.

(** [Index] is the offset of the first occurrence: [substr] starts there
    and at no earlier offset; it is [-1] when [substr] starts nowhere. *)
Lemma Index_first (s substr : string) :
  (Index s substr = -1 /\
   forall j : nat, HasPrefix (skip j s) substr = false)
  \/
  (0 <= Index s substr <= len s /\
   HasPrefix (skip (Z.to_nat (Index s substr)) s) substr = true /\
   forall j : nat, (j < Z.to_nat (Index s substr))%nat ->
                   HasPrefix (skip j s) substr = false).
Proof.
  unfold Index. induction s as [|c s IH]; simpl.
  - destruct (HasPrefix "" substr) eqn:E.
    + right. split; [unfold len; simpl; lia|]. split; [exact E|].
      intros j Hj. simpl in Hj. lia.
    + left. split; [reflexivity|]. intros [|j]; exact E.
  - destruct (HasPrefix (String c s) substr) eqn:E.
    + right. split; [pose proof (len_nonneg (String c s)); lia|].
      split; [exact E|]. intros j Hj. simpl in Hj. lia.
    + rewrite indexFrom_shift.
      destruct IH as [[H0 Hno]|[[Hlo Hhi] [Hat Hbefore]]].
      * left. rewrite H0. split; [reflexivity|].
        intros [|j]; simpl; [exact E | apply Hno].
      * right.
        assert (Hne : (indexFrom s substr 0 =? -1) = false)
          by (apply Z.eqb_neq; lia).
        rewrite Hne.
        assert (Hnat : Z.to_nat (indexFrom s substr 0 + 1)
                       = S (Z.to_nat (indexFrom s substr 0))) by lia.
        rewrite Hnat.
        split; [unfold len in *; simpl String.length; lia|].
        split; [exact Hat|].
        intros [|j] Hj; simpl; [exact E | apply Hbefore; lia].
Qed.

Lemma indexFrom_here (s q : string) (i : Z) :
  HasPrefix s q = true -> indexFrom s q i = i.
Proof. intros H. destruct s; simpl; now rewrite H. Qed.

Lemma indexFrom_found (a q b : string) (i : Z) :
  0 <= i -> 0 <= indexFrom (a ++ q ++ b) q i.
Proof.
  revert i. induction a as [|c a IH]; intros i Hi.
  - simpl append. rewrite indexFrom_here; [exact Hi | apply HasPrefix_app].
  - simpl. destruct (HasPrefix _ q); [exact Hi|]. apply IH. lia.
Qed.

Lemma Contains_middle (a q b : string) : Contains (a ++ q ++ b) q = true.
Proof. unfold Contains, Index. apply Z.leb_le. now apply indexFrom_found. Qed.

Lemma Contains_prefix (q b : string) : Contains (q ++ b) q = true.
Proof. apply (Contains_middle "" q b). Qed.

Lemma Contains_inside (a s b q : string) :
  Contains s q = true -> Contains (a ++ s ++ b) q = true.
Proof.
  intros H.
  destruct (Index_first s q) as [[H0 _]|[[Hlo Hhi] [Hat _]]].
  - unfold Contains in H. rewrite H0 in H. discriminate.
  - clear H. remember (Z.to_nat (Index s q)) as n eqn:En. clear En Hlo Hhi.
    revert a s Hat. induction n as [|n IH]; intros a s Hat.
    + simpl in Hat. destruct (HasPrefix_split _ _ Hat) as [rest ->].
      rewrite app_assoc_str. apply Contains_middle.
    + destruct s as [|c s]; simpl in Hat.
      * destruct (HasPrefix_split _ _ Hat) as [rest E].
        destruct q; [|discriminate].
        unfold Contains, Index. now rewrite indexFrom_here.
      * specialize (IH (a ++ String c "") s Hat).
        rewrite app_assoc_str in IH. exact IH.
Qed.

Lemma Join_cons (e : string) (rest : list string) (sep : string) :
  rest <> [] -> Join (e :: rest) sep = e ++ sep ++ Join rest sep.
Proof. destruct rest; [contradiction | reflexivity]. Qed.

(** Every element of a joined list occurs in the result. *)
Lemma Join_contains (elems : list string) (sep e : string) :
  In e elems -> Contains (Join elems sep) e = true.
Proof.
  induction elems as [|x rest IH]; intros Hin; [contradiction|].
  destruct rest as [|y rest].
  - destruct Hin as [->|[]]. simpl.
    rewrite <- (app_nil_r_str e) at 1. apply Contains_prefix.
  - rewrite Join_cons by discriminate.
    destruct Hin as [->|Hin].
    + apply Contains_prefix.
    + rewrite <- app_assoc_str.
      rewrite <- (app_nil_r_str (Join (y :: rest) sep)).
      apply Contains_inside. now apply IH.
Qed.

(** ** The order on strings and the two comparators *)

Lemma ascii_compare_refl (c : ascii) : Ascii.compare c c = Eq.
Proof. unfold Ascii.compare. apply N.compare_refl. Qed.

Lemma string_compare_refl (s : string) : String.compare s s = Eq.
Proof.
  induction s as [|c s IH]; simpl; [reflexivity|].
  now rewrite ascii_compare_refl.
Qed.

Lemma strLt_irrefl (s : string) : strLt s s = false.
Proof. unfold strLt, String.ltb. now rewrite string_compare_refl. Qed.

Lemma string_compare_lt_trans (a b c : string) :
  String.compare a b = Lt -> String.compare b c = Lt ->
  String.compare a c = Lt.
Proof.
  revert b c. induction a as [|x a IH]; intros [|y b] [|z c];
    simpl; try discriminate; try reflexivity.
  destruct (Ascii.compare x y) eqn:Exy; try discriminate;
    destruct (Ascii.compare y z) eqn:Eyz; try discriminate; intros Hab Hbc.
  - apply Ascii.compare_eq_iff in Exy, Eyz. subst.
    rewrite ascii_compare_refl. now apply (IH b c).
  - apply Ascii.compare_eq_iff in Exy. subst. now rewrite Eyz.
  - apply Ascii.compare_eq_iff in Eyz. subst. now rewrite Exy.
  - unfold Ascii.compare in *.
    rewrite N.compare_lt_iff in Exy, Eyz.
    assert (H : (N_of_ascii x < N_of_ascii z)%N) by lia.
    apply N.compare_lt_iff in H. now rewrite H.
Qed.

Lemma strLt_trans (a b c : string) :
  strLt a b = true -> strLt b c = true -> strLt a c = true.
Proof.
  unfold strLt, String.ltb. intros Hab Hbc.
  destruct (String.compare a b) eqn:Eab; try discriminate.
  destruct (String.compare b c) eqn:Ebc; try discriminate.
  now rewrite (string_compare_lt_trans a b c Eab Ebc).
Qed.

Lemma strLt_total (a b : string) :
  strLt a b = false -> strLt b a = false -> a = b.
Proof.
  unfold strLt, String.ltb. intros Hab Hba.
  rewrite String.compare_antisym in Hba.
  apply String.compare_eq_iff.
  destruct (String.compare a b); simpl in *; congruence.
Qed.

(** A comparator that reads a strict total order off a key is a strict
    weak order. *)
Section KeyOrder.
Variables (A K : Type) (key : A -> K) (lt : K -> K -> bool).
Hypothesis lt_irrefl : forall k, lt k k = false.
Hypothesis lt_trans :
  forall a b c, lt a b = true -> lt b c = true -> lt a c = true.
Hypothesis lt_total : forall a b, lt a b = false -> lt b a = false -> a = b.

Lemma StrictWeak_key : StrictWeak (fun a b => lt (key a) (key b)).
Proof.
  split.
  - intros a. apply lt_irrefl.
  - intros a b c. apply lt_trans.
  - intros a b c Hab Hbc.
    destruct (lt (key a) (key c)) eqn:Hac; [|reflexivity].
    destruct (lt (key b) (key a)) eqn:Hba.
    + rewrite (lt_trans _ _ _ Hba Hac) in Hbc. discriminate.
    + rewrite (lt_total _ _ Hab Hba) in Hac. congruence.
Qed.
End KeyOrder.

Section KeyLt.
Variables (B C : Type) (ltB : B -> B -> bool) (ltC : C -> C -> bool).
Variable eqB : B -> B -> bool.
Hypothesis eqB_spec : forall x y, eqB x y = true <-> x = y.
Hypothesis ltB_irrefl : forall k, ltB k k = false.
Hypothesis ltB_trans :
  forall a b c, ltB a b = true -> ltB b c = true -> ltB a c = true.
Hypothesis ltB_total :
  forall a b, ltB a b = false -> ltB b a = false -> a = b.
Hypothesis ltC_irrefl : forall k, ltC k k = false.
Hypothesis ltC_trans :
  forall a b c, ltC a b = true -> ltC b c = true -> ltC a c = true.
Hypothesis ltC_total :
  forall a b, ltC a b = false -> ltC b a = false -> a = b.

Let eqB_refl (x : B) : eqB x x = true.
Proof. now apply eqB_spec. Qed.

Let eqB_false (x y : B) : eqB x y = false -> x <> y.
Proof. intros H E. apply eqB_spec in E. congruence. Qed.

Lemma keyLt_irrefl (k : Z * B * C) : keyLt ltB ltC eqB k k = false.
Proof.
  destruct k as [[k1 k2] k3]. simpl.
  rewrite Z.eqb_refl, eqB_refl. simpl. apply ltC_irrefl.
Qed.

Lemma keyLt_trans (a b c : Z * B * C) :
  keyLt ltB ltC eqB a b = true -> keyLt ltB ltC eqB b c = true ->
  keyLt ltB ltC eqB a c = true.
Proof.
  destruct a as [[a1 a2] a3], b as [[b1 b2] b3], c as [[c1 c2] c3].
  simpl.
  destruct (a1 =? b1) eqn:E1; simpl.
  - apply Z.eqb_eq in E1. subst b1.
    destruct (eqB a2 b2) eqn:E2; simpl.
    + apply eqB_spec in E2. subst b2.
      destruct (a1 =? c1); simpl; [|tauto].
      destruct (eqB a2 c2); simpl; [|tauto]. apply ltC_trans.
    + intros Hab. destruct (a1 =? c1) eqn:E3; simpl; [|tauto].
      destruct (eqB b2 c2) eqn:E4; simpl.
      * apply eqB_spec in E4. subst c2. rewrite E2. simpl. now intros _.
      * intros Hbc. pose proof (ltB_trans _ _ _ Hab Hbc) as Hac.
        destruct (eqB a2 c2) eqn:E5; simpl; [|exact Hac].
        apply eqB_spec in E5. subst c2.
        now rewrite ltB_irrefl in Hac.
  - intros Hab. apply Z.ltb_lt in Hab.
    destruct (b1 =? c1) eqn:E3; simpl.
    + apply Z.eqb_eq in E3. subst c1. rewrite E1. simpl.
      intros _. now apply Z.ltb_lt.
    + intros Hbc. apply Z.ltb_lt in Hbc.
      assert (E : (a1 =? c1) = false) by (apply Z.eqb_neq; lia).
      rewrite E. simpl. apply Z.ltb_lt. lia.
Qed.

Lemma keyLt_total (a b : Z * B * C) :
  keyLt ltB ltC eqB a b = false -> keyLt ltB ltC eqB b a = false -> a = b.
Proof.
  destruct a as [[a1 a2] a3], b as [[b1 b2] b3]. simpl.
  rewrite (Z.eqb_sym b1 a1).
  destruct (a1 =? b1) eqn:E1; simpl.
  - apply Z.eqb_eq in E1. subst b1.
    destruct (eqB a2 b2) eqn:E2; simpl.
    + apply eqB_spec in E2. subst b2. rewrite eqB_refl. simpl.
      intros H1 H2. now rewrite (ltC_total _ _ H1 H2).
    + destruct (eqB b2 a2) eqn:E3; simpl.
      * apply eqB_spec in E3. subst b2. now rewrite eqB_refl in E2.
      * intros H1 H2. apply eqB_false in E2.
        now rewrite (ltB_total _ _ H1 H2) in E2.
  - intros H1 H2. apply Z.eqb_neq in E1.
    apply Z.ltb_ge in H1, H2. lia.
Qed.
End KeyLt.

Ltac order_facts :=
  first [ exact String.eqb_eq | exact strLt_irrefl | exact strLt_trans
        | exact strLt_total | exact Z.ltb_irrefl | idtac ].

Section Comparators.
Context {lib : GoLib}.

Lemma lessTransition_key (a b : JiraTransition) :
  lessTransition a b =
  keyLt strLt strLt String.eqb (keyOfTransition a) (keyOfTransition b).
Proof. reflexivity. Qed.

Lemma lessScored_key (a b : scoredMatch) :
  lessScored a b =
  keyLt strLt Z.ltb String.eqb (keyOfScored a) (keyOfScored b).
Proof. reflexivity. Qed.

Lemma Zlt_trans_b (a b c : Z) :
  (a <? b) = true -> (b <? c) = true -> (a <? c) = true.
Proof. rewrite !Z.ltb_lt. lia. Qed.

Lemma Zlt_total_b (a b : Z) : (a <? b) = false -> (b <? a) = false -> a = b.
Proof. rewrite !Z.ltb_ge. lia. Qed.

Lemma lessTransition_StrictWeak : StrictWeak lessTransition.
Proof.
  apply (StrictWeak_key JiraTransition _ keyOfTransition
                        (keyLt strLt strLt String.eqb)).
  - apply keyLt_irrefl; order_facts.
  - apply keyLt_trans; order_facts.
  - apply keyLt_total; order_facts.
Qed.

Lemma lessScored_StrictWeak : StrictWeak lessScored.
Proof.
  apply (StrictWeak_key scoredMatch _ keyOfScored
                        (keyLt strLt Z.ltb String.eqb)).
  - apply keyLt_irrefl; order_facts.
  - apply keyLt_trans; order_facts. exact Zlt_trans_b.
  - apply keyLt_total; order_facts. exact Zlt_total_b.
Qed.
End Comparators.

(** ** The classification loop *)

Section Tiers.
Context {lib : GoLib}.

Lemma classify_fold (query : string) (ts : list JiraTransition)
      (acc : Tiers) :
  fold_left (classify query (ToLower query)) ts acc =
  {| exact := (exact acc ++ filter (isExact query) ts)%list;
     prefix := (prefix acc ++ filter (isPrefix query) ts)%list;
     contains := (contains acc
                  ++ map (scored query) (filter (isContains query) ts))%list
  |}.
Proof.
  revert acc. induction ts as [|t ts IH]; intros acc; simpl.
  - rewrite !app_nil_r. now destruct acc.
  - rewrite IH. unfold classify, isExact, isPrefix, isContains.
    destruct (EqualFold (Name t) query); simpl.
    + now rewrite <- app_assoc.
    + destruct (HasPrefix (ToLower (Name t)) (ToLower query)); simpl.
      * now rewrite <- app_assoc.
      * destruct (Contains (ToLower (Name t)) (ToLower query)); simpl.
        -- now rewrite <- app_assoc.
        -- reflexivity.
Qed.

Lemma collect_exact (query : string) (ts : list JiraTransition) :
  exact (collect query ts) = filter (isExact query) ts.
Proof. unfold collect. now rewrite classify_fold. Qed.

Lemma collect_prefix (query : string) (ts : list JiraTransition) :
  prefix (collect query ts) = filter (isPrefix query) ts.
Proof. unfold collect. now rewrite classify_fold. Qed.

Lemma collect_contains (query : string) (ts : list JiraTransition) :
  contains (collect query ts)
  = map (scored query) (filter (isContains query) ts).
Proof. unfold collect. now rewrite classify_fold. Qed.

Lemma collect_contains_transitions (query : string)
      (ts : list JiraTransition) :
  map transition (contains (collect query ts))
  = filter (isContains query) ts.
Proof.
  rewrite collect_contains, map_map. simpl. apply map_id.
Qed.

Lemma slen_pos {A : Type} (l : list A) : (slen l >? 0) = true <-> l <> [].
Proof.
  unfold slen. destruct l.
  - split; [discriminate | congruence].
  - split; [discriminate|]. intros _. rewrite Z.gtb_ltb. apply Z.ltb_lt.
    rewrite length_cons. lia.
Qed.

Lemma slen_pos_false {A : Type} (l : list A) :
  (slen l >? 0) = false <-> l = [].
Proof.
  destruct (slen l >? 0) eqn:E.
  - apply slen_pos in E. split; [discriminate | contradiction].
  - split; [intros _ | reflexivity].
    destruct l; [reflexivity|]. unfold slen in E.
    rewrite Z.gtb_ltb in E. apply Z.ltb_ge in E.
    rewrite length_cons in E. lia.
Qed.

(** ** pickBestTransition *)

Lemma sorted_head_least {A : Type} (less : A -> A -> bool)
      (first : A) (rest : list A) :
  StrictWeak less ->
  Sorted (fun a b => less b a = false) (first :: rest) ->
  forall c, In c (first :: rest) -> less c first = false.
Proof.
  intros SW Hs c Hc.
  apply Sorted_StronglySorted in Hs.
  - destruct Hc as [<-|Hc]; [apply (sw_irrefl less SW)|].
    apply StronglySorted_inv in Hs as [_ Hall].
    rewrite Forall_forall in Hall. now apply Hall.
  - intros x y z Hyx Hzy. exact (sw_incomp less SW z y x Hzy Hyx).
Qed.

Lemma sortSlice_nonempty {A : Type} (less : A -> A -> bool) (l : list A) :
  l <> [] -> sortSlice less l <> [].
Proof.
  intros Hl E. pose proof (sortSlice_perm A less l) as P.
  rewrite E in P. apply Permutation_nil in P. contradiction.
Qed.

(** On a non-empty slice [pickBestTransition] returns one of the
    candidates, and no candidate is below it in the tie-break order. *)
Lemma pickBest_least (candidates : list JiraTransition) :
  candidates <> [] ->
  exists picked,
    pickBestTransition candidates = Ret picked
    /\ In picked candidates
    /\ forall c, In c candidates -> lessTransition c picked = false.
Proof.
  intros Hne.
  assert (Hsort : exists picked,
             match sortSlice lessTransition candidates with
             | first :: _ => Ret first
             | [] => Panic
             end = Ret picked
             /\ In picked candidates
             /\ forall c, In c candidates -> lessTransition c picked = false).
  { pose proof (sortSlice_perm _ lessTransition candidates) as P.
    pose proof (sortSlice_sorted _ lessTransition candidates
                                 lessTransition_StrictWeak) as S.
    destruct (sortSlice lessTransition candidates) as [|first rest] eqn:E.
    - now apply sortSlice_nonempty in E.
    - exists first. split; [reflexivity|]. split.
      + apply (Permutation_in _ P). now left.
      + intros c Hc.
        apply (sorted_head_least lessTransition first rest
                                 lessTransition_StrictWeak S).
        apply (Permutation_in _ (Permutation_sym P) Hc). }
  destruct candidates as [|only [|second more]]; [contradiction| |exact Hsort].
  exists only. split; [reflexivity|]. split; [now left|].
  intros c [<-|[]]. apply (sw_irrefl _ lessTransition_StrictWeak).
Qed.

Lemma lessTransition_false_len (c p : JiraTransition) :
  lessTransition c p = false -> len (Name p) <= len (Name c).
Proof.
  unfold lessTransition.
  destruct (len (Name c) =? len (Name p)) eqn:E; simpl.
  - apply Z.eqb_eq in E. lia.
  - intros H. apply Z.ltb_ge in H. exact H.
Qed.

(** ** The shape of every run of matchTransition *)

Lemma containsCandidates_perm (query : string) (ts : list JiraTransition) :
  Permutation (containsCandidates query ts)
              (filter (isContains query) ts).
Proof.
  unfold containsCandidates.
  rewrite <- collect_contains_transitions.
  apply Permutation_map, sortSlice_perm.
Qed.

Lemma containsCandidates_nonempty (query : string)
      (ts : list JiraTransition) :
  contains (collect query ts) <> [] -> containsCandidates query ts <> [].
Proof.
  intros Hne E. unfold containsCandidates in E.
  apply map_eq_nil in E. now apply sortSlice_nonempty in E.
Qed.

Lemma matchTransition_run (ts : list JiraTransition) (target : string) :
  MatchRun ts target (matchTransition ts target).
Proof.
  unfold matchTransition.
  destruct (TrimSpace target =? "")%string eqn:Eq.
  - apply String.eqb_eq in Eq. now apply RunBlank.
  - apply String.eqb_neq in Eq.
    destruct (slen (exact (collect (TrimSpace target) ts)) >? 0) eqn:Ee.
    + apply slen_pos in Ee.
      destruct (pickBest_least _ Ee) as [p [Hp _]].
      rewrite Hp. simpl. now apply RunExact.
    + apply slen_pos_false in Ee.
      destruct (slen (prefix (collect (TrimSpace target) ts)) >? 0) eqn:Ep.
      * apply slen_pos in Ep.
        destruct (pickBest_least _ Ep) as [p [Hp _]].
        rewrite Hp. simpl. now apply RunPrefix.
      * apply slen_pos_false in Ep.
        destruct (slen (contains (collect (TrimSpace target) ts)) >? 0)
                 eqn:Ec.
        -- apply slen_pos in Ec.
           pose proof (containsCandidates_nonempty _ _ Ec) as Hne.
           destruct (pickBest_least _ Hne) as [p [Hp _]].
           fold (containsCandidates (TrimSpace target) ts).
           rewrite Hp. simpl. now apply RunContains.
        -- apply slen_pos_false in Ec. now apply RunNoMatch.
Qed.
End Tiers.

(** ** Messages *)

Lemma Contains_app_l (a b q : string) :
  Contains a q = true -> Contains (a ++ b) q = true.
Proof. intros H. now apply (Contains_inside "" a b q). Qed.

Lemma Contains_app_r (a b q : string) :
  Contains b q = true -> Contains (a ++ b) q = true.
Proof.
  intros H. rewrite <- (app_nil_r_str b). now apply Contains_inside.
Qed.

Lemma Contains_refl (q : string) : Contains q q = true.
Proof. rewrite <- (app_nil_r_str q) at 1. apply Contains_prefix. Qed.

Lemma Contains_quoted (s : string) : Contains (quoted s) s = true.
Proof. apply (Contains_middle (String dquote "") s (String dquote "")). Qed.

(** Which part of a message a goal is about: the part itself, or a part
    further left or right in the concatenation. *)
Ltac find_part :=
  solve [ repeat first [ assumption
                       | apply Contains_refl
                       | apply Contains_app_l; assumption
                       | apply Contains_app_l; apply Contains_refl
                       | apply Contains_app_r ] ].

Section Messages.
Context {lib : GoLib}.

Lemma Contains_Quote_plain (s : string) :
  plain s = true -> Contains (Quote s) s = true.
Proof. intros H. rewrite (Quote_plain s H). apply Contains_quoted. Qed.

Lemma ambiguityWarning_few (query : string)
      (candidates : list JiraTransition) (selected : JiraTransition) :
  slen candidates <= 1 -> ambiguityWarning query candidates selected = "".
Proof.
  intros H. unfold ambiguityWarning.
  apply Z.leb_le in H. now rewrite H.
Qed.

Lemma ambiguityWarning_many (query : string)
      (candidates : list JiraTransition) (selected : JiraTransition) :
  2 <= slen candidates ->
  ambiguityWarning query candidates selected
  = warningText query (map Name candidates) (Name selected).
Proof.
  intros H. unfold ambiguityWarning.
  assert (E : (slen candidates <=? 1) = false) by (apply Z.leb_gt; lia).
  now rewrite E.
Qed.

Lemma warningText_parts (query : string) (names : list string)
      (selected : string) :
  warningText query names selected <> ""
  /\ Contains (warningText query names selected) (Quote query) = true
  /\ Contains (warningText query names selected) (Join names ", ") = true
  /\ Contains (warningText query names selected) (Quote selected) = true
  /\ (forall n, In n names ->
                Contains (warningText query names selected) n = true)
  /\ (plain query = true ->
      Contains (warningText query names selected) query = true)
  /\ (plain selected = true ->
      Contains (warningText query names selected) selected = true).
Proof.
  unfold warningText. repeat split.
  - discriminate.
  - find_part.
  - find_part.
  - find_part.
  - intros n Hn. pose proof (Join_contains names ", " n Hn). find_part.
  - intros Hp. pose proof (Contains_Quote_plain query Hp). find_part.
  - intros Hp. pose proof (Contains_Quote_plain selected Hp). find_part.
Qed.

Lemma noMatchText_parts (query : string) (names : list string) :
  Contains (noMatchText query names) (Quote query) = true
  /\ Contains (noMatchText query names) (Join names ", ") = true
  /\ (forall n, In n names -> Contains (noMatchText query names) n = true)
  /\ (plain query = true -> Contains (noMatchText query names) query = true).
Proof.
  unfold noMatchText. repeat split.
  - find_part.
  - find_part.
  - intros n Hn. pose proof (Join_contains names ", " n Hn). find_part.
  - intros Hp. pose proof (Contains_Quote_plain query Hp). find_part.
Qed.
End Messages.

(** ** matchTransition: the claims *)

Section MatchClaims.
Context {lib : GoLib}.

Lemma filter_subset {A : Type} (f : A -> bool) (l : list A) (x : A) :
  In x (filter f l) -> In x l.
Proof. intros H. now apply filter_In in H. Qed.

Lemma containsCandidates_In (query : string) (ts : list JiraTransition)
      (t : JiraTransition) :
  In t (containsCandidates query ts) <->
  In t ts /\ isContains query t = true.
Proof.
  rewrite <- filter_In. split; intros H.
  - exact (Permutation_in _ (containsCandidates_perm query ts) H).
  - exact (Permutation_in _ (Permutation_sym
                               (containsCandidates_perm query ts)) H).
Qed.

(** X1. matchTransition never panics: it returns on every list and
    query. *)
Lemma matchTransition_returns (ts : list JiraTransition)
      (target : string) :
  exists r, matchTransition ts target = Ret r.
Proof.
  destruct (matchTransition_run ts target); eexists; reflexivity.
Qed.

(** A successful run: the result comes from the first non-empty tier,
    and the selected transition is the least candidate of that tier in
    the tie-break order. *)
Lemma matchTransition_success (ts : list JiraTransition)
      (target : string) (picked : JiraTransition)
      (matchedBy warning : string) :
  matchTransition ts target = Ret (picked, matchedBy, warning, None) ->
  let query := TrimSpace target in
  let candidates := winningCandidates matchedBy query ts in
  query <> ""
  /\ (matchedBy = "exact" \/ matchedBy = "prefix"
      \/ matchedBy = "contains")
  /\ candidates <> []
  /\ In picked candidates
  /\ (forall c, In c candidates -> lessTransition c picked = false)
  /\ warning = (if (matchedBy =? "exact")%string then ""
                else ambiguityWarning query candidates picked)
  /\ (matchedBy <> "exact" -> exact (collect query ts) = [])
  /\ (matchedBy = "contains" -> prefix (collect query ts) = []).
Proof.
  intros H. pose proof (matchTransition_run ts target) as R.
  rewrite H in R. clear H.
  inversion R as [ | p Hq He Hp | p Hq He Hpre Hp
                   | p Hq He Hpre Hc Hp | ]; subst; simpl.
  - destruct (pickBest_least _ He) as [p' [Hp' [Hin Hleast]]].
    rewrite Hp in Hp'. injection Hp' as <-.
    repeat split; auto; congruence.
  - destruct (pickBest_least _ Hpre) as [p' [Hp' [Hin Hleast]]].
    rewrite Hp in Hp'. injection Hp' as <-.
    repeat split; auto; try discriminate.
  - pose proof (containsCandidates_nonempty _ _ Hc) as Hne.
    destruct (pickBest_least _ Hne) as [p' [Hp' [Hin Hleast]]].
    rewrite Hp in Hp'. injection Hp' as <-.
    repeat split; auto.
Qed.

Lemma winningCandidates_subset (matchedBy query : string)
      (ts : list JiraTransition) (t : JiraTransition) :
  In t (winningCandidates matchedBy query ts) -> In t ts.
Proof.
  unfold winningCandidates.
  destruct (matchedBy =? "exact")%string.
  { rewrite collect_exact. apply filter_subset. }
  destruct (matchedBy =? "prefix")%string.
  { rewrite collect_prefix. apply filter_subset. }
  destruct (matchedBy =? "contains")%string; [|contradiction].
  intros H. now apply containsCandidates_In in H.
Qed.

(** C5. When matchTransition succeeds, the selected transition is one of
    the transitions passed in, with its id, name and target. *)
Theorem matchTransition_selects_member
        (ts : list JiraTransition) (target : string)
        (picked : JiraTransition) (matchedBy warning : string) :
  matchTransition ts target = Ret (picked, matchedBy, warning, None) ->
  In picked ts.
Proof.
  intros H. apply matchTransition_success in H.
  destruct H as (_ & _ & _ & Hin & _).
  exact (winningCandidates_subset _ _ _ _ Hin).
Qed.

(** C4, amended. For a query that is not blank after trimming, and a
    list holding a transition whose name equals the trimmed query under
    EqualFold, matchTransition returns such a transition of the list
    with matchedBy "exact", no warning and no error, whatever else the
    list holds. *)
Theorem exact_match_wins
        (ts : list JiraTransition) (target : string) (t : JiraTransition) :
  TrimSpace target <> "" ->
  In t ts ->
  EqualFold (Name t) (TrimSpace target) = true ->
  exists picked,
    matchTransition ts target = Ret (picked, "exact", "", None)
    /\ In picked ts
    /\ EqualFold (Name picked) (TrimSpace target) = true.
Proof.
  intros Hq Hin Hfold.
  assert (Hex : In t (exact (collect (TrimSpace target) ts))).
  { rewrite collect_exact. apply filter_In. now split. }
  pose proof (matchTransition_run ts target) as R.
  inversion R as [ E | p _ He Hp E | p _ He _ _ E
                   | p _ He _ _ _ E | _ He _ _ E ];
    try contradiction;
    try (rewrite He in Hex; contradiction).
  exists p. split; [reflexivity|].
  destruct (pickBest_least _ He) as [p' [Hp' [Hin' _]]].
  rewrite Hp in Hp'. injection Hp' as <-.
  rewrite collect_exact in Hin'. apply filter_In in Hin'.
  exact Hin'.
Qed.

(** C7, amended. For a query that is not blank after trimming and matches
    no transition at any tier, matchTransition fails, and the message is
    "no transition matching Q; available transitions: N" where Q is the
    trimmed query as printed by the verb q and N the names of all the
    transitions in input order, joined by a comma and a space.  So the
    message holds every transition name, and the trimmed query word for
    word when that is plain. *)
Theorem no_match_lists_transitions
        (ts : list JiraTransition) (target : string) :
  TrimSpace target <> "" ->
  (forall t, In t ts ->
             EqualFold (Name t) (TrimSpace target) = false
             /\ HasPrefix (ToLower (Name t)) (ToLower (TrimSpace target))
                = false
             /\ Contains (ToLower (Name t)) (ToLower (TrimSpace target))
                = false) ->
  exists msg,
    matchTransition ts target = Ret (noTransition, "", "", Some msg)
    /\ msg = "no transition matching " ++ Quote (TrimSpace target)
             ++ "; available transitions: " ++ Join (map Name ts) ", "
    /\ Contains msg (Quote (TrimSpace target)) = true
    /\ (plain (TrimSpace target) = true ->
        Contains msg (TrimSpace target) = true)
    /\ (forall t, In t ts -> Contains msg (Name t) = true).
Proof.
  intros Hq Hnone.
  assert (Hempty : forall f : JiraTransition -> bool,
             (forall t, In t ts -> f t = false) -> filter f ts = []).
  { intros f Hf. destruct (filter f ts) as [|x l] eqn:E; [reflexivity|].
    assert (Hx : In x (filter f ts)) by (rewrite E; now left).
    apply filter_In in Hx as [Hx1 Hx2]. rewrite (Hf x Hx1) in Hx2.
    discriminate. }
  assert (He : exact (collect (TrimSpace target) ts) = []).
  { rewrite collect_exact. apply Hempty. intros t Ht.
    unfold isExact. now destruct (Hnone t Ht) as (-> & _). }
  assert (Hp : prefix (collect (TrimSpace target) ts) = []).
  { rewrite collect_prefix. apply Hempty. intros t Ht.
    unfold isPrefix. destruct (Hnone t Ht) as (_ & -> & _).
    apply andb_false_r. }
  assert (Hc : contains (collect (TrimSpace target) ts) = []).
  { rewrite collect_contains.
    rewrite (Hempty (isContains (TrimSpace target))); [reflexivity|].
    intros t Ht. unfold isContains.
    destruct (Hnone t Ht) as (_ & _ & ->). apply andb_false_r. }
  pose proof (matchTransition_run ts target) as R.
  inversion R as [ E | p _ He' _ E | p _ _ Hp' _ E
                   | p _ _ _ Hc' _ E | _ _ _ _ E ];
    try contradiction.
  eexists. split; [reflexivity|]. split; [reflexivity|].
  destruct (noMatchText_parts (TrimSpace target) (map Name ts))
    as (H1 & _ & H3 & H4).
  unfold noMatchText in *.
  split; [exact H1|]. split; [exact H4|].
  intros t Ht. apply H3. now apply in_map.
Qed.

(** C3, amended. The warning of a successful run is empty when the
    winning tier is the exact one or holds one candidate.  When the
    winning tier is the prefix or the contains one and holds two or more
    candidates, the warning is not empty and reads
    "status Q matched multiple transitions (N); using S": Q is the
    trimmed query and S the selected name, both as printed by the verb q
    (word for word when plain), and N lists the names of the candidates
    in the order of the list handed to the tie-break, which is the input
    order for the prefix tier and the order left by the sort for the
    contains tier. *)
Theorem ambiguity_warning_contents
        (ts : list JiraTransition) (target : string)
        (picked : JiraTransition) (matchedBy warning : string) :
  matchTransition ts target = Ret (picked, matchedBy, warning, None) ->
  let query := TrimSpace target in
  let candidates := winningCandidates matchedBy query ts in
  let names := map Name candidates in
  (matchedBy = "exact" \/ slen candidates = 1 -> warning = "")
  /\ (matchedBy <> "exact" -> 2 <= slen candidates ->
      warning <> ""
      /\ warning = "status " ++ Quote query
                   ++ " matched multiple transitions ("
                   ++ Join names ", " ++ "); using " ++ Quote (Name picked)
      /\ Contains warning (Quote query) = true
      /\ (plain query = true -> Contains warning query = true)
      /\ (forall n, In n names -> Contains warning n = true)
      /\ In (Name picked) names
      /\ Contains warning (Quote (Name picked)) = true)
  /\ (matchedBy = "prefix" ->
      candidates = filter (isPrefix query) ts)
  /\ (matchedBy = "contains" ->
      candidates
      = map transition (sortSlice lessScored (contains (collect query ts)))).
Proof.
  intros H. apply matchTransition_success in H.
  destruct H as (_ & _ & _ & Hin & _ & Hw & _).
  cbv zeta. split; [|split; [|split]].
  - intros [->|Hone]; [now rewrite Hw|].
    rewrite Hw. destruct (matchedBy =? "exact")%string; [reflexivity|].
    apply ambiguityWarning_few. lia.
  - intros Hby Hmany. apply String.eqb_neq in Hby. rewrite Hby in Hw.
    rewrite ambiguityWarning_many in Hw by assumption. subst warning.
    destruct (warningText_parts
                (TrimSpace target)
                (map Name (winningCandidates matchedBy (TrimSpace target) ts))
                (Name picked))
      as (Hne & Hq & _ & Hsel & Hnames & Hplain & _).
    split; [exact Hne|]. split; [reflexivity|]. split; [exact Hq|].
    split; [exact Hplain|]. split; [exact Hnames|].
    split; [now apply in_map | exact Hsel].
  - intros ->. unfold winningCandidates. simpl. apply collect_prefix.
  - intros ->. reflexivity.
Qed.

(** X4. When the query is not blank, no name folds to the trimmed query
    and exactly one transition has it as a prefix, that transition is
    returned with matchedBy "prefix" and no warning. *)
Theorem single_prefix_match
        (ts : list JiraTransition) (target : string) (t : JiraTransition) :
  TrimSpace target <> "" ->
  filter (isExact (TrimSpace target)) ts = [] ->
  filter (isPrefix (TrimSpace target)) ts = [t] ->
  matchTransition ts target = Ret (t, "prefix", "", None).
Proof.
  intros Hq He Hp.
  pose proof (matchTransition_run ts target) as R.
  rewrite <- collect_exact in He. rewrite <- collect_prefix in Hp.
  inversion R as [ E | p _ He' _ E | p _ _ _ Hpick E
                   | p _ _ Hp' _ _ E | _ _ Hp' _ E ];
    try contradiction;
    try (rewrite Hp in Hp'; discriminate).
  rewrite Hp in Hpick |- *. simpl in Hpick. injection Hpick as <-.
  reflexivity.
Qed.

(** C10. The classification loop puts every transition into at most one
    tier, the first it qualifies for: the exact candidates are the
    transitions whose name folds to the query, the prefix candidates are
    those among the rest whose lower-cased name starts with the
    lower-cased query, the contains candidates are those among what is
    left whose lower-cased name holds it, each list in input order.  So a
    name that folds to the query is in neither the prefix nor the contains
    list, a name that starts with the query is not in the contains list,
    no transition is in two of the lists, and the three lists together
    are no longer than the input. *)
Theorem tiers_are_disjoint (query : string) (ts : list JiraTransition) :
  let tiers := collect query ts in
  let inContains := map transition (contains tiers) in
  exact tiers = filter (fun t => EqualFold (Name t) query) ts
  /\ prefix tiers
     = filter (fun t => negb (EqualFold (Name t) query)
                        && HasPrefix (ToLower (Name t)) (ToLower query)) ts
  /\ inContains
     = filter (fun t => negb (EqualFold (Name t) query)
                        && negb (HasPrefix (ToLower (Name t))
                                           (ToLower query))
                        && Contains (ToLower (Name t)) (ToLower query)) ts
  /\ (forall t, EqualFold (Name t) query = true ->
                ~ In t (prefix tiers) /\ ~ In t inContains)
  /\ (forall t, HasPrefix (ToLower (Name t)) (ToLower query) = true ->
                ~ In t inContains)
  /\ (forall t, ~ (In t (exact tiers) /\ In t (prefix tiers))
                /\ ~ (In t (exact tiers) /\ In t inContains)
                /\ ~ (In t (prefix tiers) /\ In t inContains))
  /\ (List.length (exact tiers) + List.length (prefix tiers)
      + List.length (contains tiers) <= List.length ts)%nat.
Proof.
  cbv zeta.
  rewrite collect_exact, collect_prefix, collect_contains_transitions.
  rewrite collect_contains, length_map.
  unfold isExact, isPrefix, isContains.
  assert (Hfold : forall t, EqualFold (Name t) query = true ->
            ~ In t (filter (fun t => negb (EqualFold (Name t) query)
                        && HasPrefix (ToLower (Name t)) (ToLower query)) ts)
            /\ ~ In t (filter (fun t => negb (EqualFold (Name t) query)
                        && negb (HasPrefix (ToLower (Name t))
                                           (ToLower query))
                        && Contains (ToLower (Name t)) (ToLower query)) ts)).
  { intros t He. split; intros Hin; apply filter_In in Hin as [_ Hin];
      rewrite He in Hin; discriminate. }
  assert (Hpre : forall t,
            HasPrefix (ToLower (Name t)) (ToLower query) = true ->
            ~ In t (filter (fun t => negb (EqualFold (Name t) query)
                        && negb (HasPrefix (ToLower (Name t))
                                           (ToLower query))
                        && Contains (ToLower (Name t)) (ToLower query)) ts)).
  { intros t Hp Hin. apply filter_In in Hin as [_ Hin].
    rewrite Hp, andb_false_r in Hin. discriminate. }
  split; [reflexivity|]. split; [reflexivity|]. split; [reflexivity|].
  split; [exact Hfold|]. split; [exact Hpre|]. split.
  - intros t. split; [|split]; intros [H1 H2].
    + apply filter_In in H1 as [_ H1]. exact (proj1 (Hfold t H1) H2).
    + apply filter_In in H1 as [_ H1]. exact (proj2 (Hfold t H1) H2).
    + apply filter_In in H1 as [_ H1].
      apply andb_true_iff in H1 as [_ H1]. exact (Hpre t H1 H2).
  - clear Hfold Hpre. induction ts as [|t ts IH]; simpl; [lia|].
    destruct (EqualFold (Name t) query); simpl; [lia|].
    destruct (HasPrefix (ToLower (Name t)) (ToLower query)); simpl; [lia|].
    destruct (Contains (ToLower (Name t)) (ToLower query)); simpl; lia.
Qed.
Lemma lessScored_false_score (a b : scoredMatch) :
  lessScored b a = false -> score a <= score b.
Proof.
  unfold lessScored.
  destruct (score b =? score a) eqn:E; simpl.
  - apply Z.eqb_eq in E. lia.
  - intros H. apply Z.ltb_ge in H. exact H.
Qed.

Lemma StronglySorted_weaken {A : Type} (R R' : A -> A -> Prop)
      (l : list A) :
  (forall a b, R a b -> R' a b) ->
  StronglySorted R l -> StronglySorted R' l.
Proof.
  intros Himp Hs. induction Hs as [|a l Hs IH Hall]; constructor.
  - exact IH.
  - rewrite Forall_forall in *. intros x Hx. apply Himp. now apply Hall.
Qed.

(** The candidates of the contains tier come out of the sort in ascending
    order of their score. *)
Lemma contains_sorted_by_score (query : string) (ts : list JiraTransition) :
  StronglySorted (fun a b => score a <= score b)
                 (sortSlice lessScored (contains (collect query ts))).
Proof.
  apply (StronglySorted_weaken (fun a b => lessScored b a = false)).
  - intros a b. apply lessScored_false_score.
  - apply Sorted_StronglySorted.
    + intros x y z Hyx Hzy.
      exact (sw_incomp lessScored lessScored_StrictWeak z y x Hzy Hyx).
    + apply sortSlice_sorted, lessScored_StrictWeak.
Qed.

(** C2, amended. When the contains tier wins, every candidate carries as
    score the 0-based offset of the first occurrence of the lower-cased
    query in its lower-cased name, and the sort orders the candidates by
    ascending score, which is the order the warning lists them in; the
    transition selected is the one the tie-break of pickBestTransition
    puts first: a candidate whose name is no longer than that of any other
    candidate, whatever the scores. *)
Theorem contains_tier_by_design
        (ts : list JiraTransition) (target : string)
        (picked : JiraTransition) (warning : string) :
  matchTransition ts target = Ret (picked, "contains", warning, None) ->
  let query := TrimSpace target in
  let found := contains (collect query ts) in
  (forall m, In m found ->
     let name := ToLower (Name (transition m)) in
     score m = Index name (ToLower query)
     /\ 0 <= score m
     /\ HasPrefix (skip (Z.to_nat (score m)) name) (ToLower query) = true
     /\ forall j : nat, (j < Z.to_nat (score m))%nat ->
                        HasPrefix (skip j name) (ToLower query) = false)
  /\ StronglySorted (fun a b => score a <= score b)
                    (sortSlice lessScored found)
  /\ warning = ambiguityWarning
                 query (map transition (sortSlice lessScored found)) picked
  /\ In picked (map transition found)
  /\ (forall m, In m found -> len (Name picked) <= len (Name (transition m))).
Proof.
  intros H. apply matchTransition_success in H.
  destruct H as (_ & _ & _ & Hin & Hleast & Hw & _).
  unfold winningCandidates in Hin, Hleast, Hw. simpl in Hin, Hleast, Hw.
  cbv zeta. split; [|split; [|split; [exact Hw|split]]].
  - intros m Hm. rewrite collect_contains in Hm.
    apply in_map_iff in Hm as (t & <- & Ht).
    apply filter_In in Ht as [_ Ht]. unfold isContains in Ht.
    apply andb_true_iff in Ht as [_ Hc]. simpl.
    unfold Contains in Hc. apply Z.leb_le in Hc.
    destruct (Index_first (ToLower (Name t)) (ToLower (TrimSpace target)))
      as [[H0 _]|[[Hlo _] [Hat Hbefore]]]; [lia|].
    now repeat split.
  - apply contains_sorted_by_score.
  - apply containsCandidates_In in Hin.
    rewrite collect_contains_transitions. now apply filter_In.
  - intros m Hm. apply lessTransition_false_len, Hleast.
    apply containsCandidates_In. rewrite <- filter_In.
    rewrite <- collect_contains_transitions. now apply in_map.
Qed.
End MatchClaims.

(** ** searchIssues *)

Section SearchFacts.
Variable src : PageSource.
Variable jql : string.
Variable limit : Z.

Lemma slen_app {A : Type} (x y : list A) : slen (x ++ y) = slen x + slen y.
Proof. unfold slen. rewrite length_app. lia. Qed.

Lemma slen_nonneg {A : Type} (x : list A) : 0 <= slen x.
Proof. unfold slen. lia. Qed.

(** A pass that does not leave the loop has added an issue, so the loop
    ends within [limit - len(all)] passes. *)
Lemma searchLoop_total (fuel : nat) (srv : Server src) (st : SearchState) :
  limit - slen (all st) <= Z.of_nat fuel ->
  exists e, searchLoop src jql limit fuel srv st = Some e.
Proof.
  revert srv st. induction fuel as [|fuel IH]; intros srv st Hfuel; simpl.
  - assert (E : (slen (all st) <? limit) = false) by (apply Z.ltb_ge; lia).
    rewrite E. eauto.
  - destruct (slen (all st) <? limit) eqn:E; [|eauto].
    destruct (fetch src srv jql _ (nextPageToken st)) as [srv' [err|resp]];
      [eauto|].
    destruct (lastPage resp) eqn:Elast; [eauto|].
    apply IH. unfold lastPage in Elast.
    apply orb_false_iff in Elast as [Hn _]. apply Z.eqb_neq in Hn.
    simpl. rewrite slen_app.
    pose proof (slen_nonneg (RespIssues resp)). lia.
Qed.

(** The state the loop ends in is the initial one after absorbing the
    pages in order. *)
Lemma searchLoop_pages (fuel : nat) (srv : Server src)
      (st st' : SearchState) :
  searchLoop src jql limit fuel srv st = Some (LoopDone st') ->
  st' = fold_left absorb (pages src jql limit fuel srv st) st.
Proof.
  revert srv st. induction fuel as [|fuel IH]; intros srv st; simpl.
  - destruct (slen (all st) <? limit); [discriminate|].
    now intros [= <-].
  - destruct (slen (all st) <? limit); [|now intros [= <-]].
    destruct (fetch src srv jql _ (nextPageToken st)) as [srv' [err|resp]];
      [discriminate|].
    destruct (lastPage resp); [now intros [= <-]|].
    intros H. simpl. now apply IH.
Qed.

Lemma absorb_all (ps : list JiraSearchResponse) (st : SearchState) :
  all (fold_left absorb ps st)
  = (all st ++ List.concat (map RespIssues ps))%list.
Proof.
  revert st. induction ps as [|p ps IH]; intros st; simpl.
  - now rewrite app_nil_r.
  - rewrite IH. simpl. now rewrite app_assoc.
Qed.

Lemma absorb_last (ps : list JiraSearchResponse) (st : SearchState)
      (p : JiraSearchResponse) :
  nextPageToken st = NextPageToken p -> resultTotal st = RespTotal p ->
  nextPageToken (fold_left absorb ps st) = NextPageToken (last ps p)
  /\ resultTotal (fold_left absorb ps st) = RespTotal (last ps p).
Proof.
  revert st p. induction ps as [|q ps IH]; intros st p Ht Hn.
  - now split.
  - change (fold_left absorb (q :: ps) st)
      with (fold_left absorb ps (absorb st q)).
    destruct (IH (absorb st q) q eq_refl eq_refl) as [H1 H2].
    rewrite H1, H2.
    assert (E : last (q :: ps) p = last ps q).
    { clear. revert p q. induction ps as [|r ps IH]; intros p q;
        [reflexivity|].
      change (last (q :: r :: ps) p) with (last (r :: ps) p).
      now rewrite (IH p r), (IH q r). }
    now rewrite E.
Qed.

Lemma finish_spec (st : SearchState) (r : SearchIssuesResult)
      (err : option string) :
  finish limit st = Ret (r, err) ->
  0 <= limit \/ slen (all st) <= limit ->
  err = None
  /\ Issues r = firstn (Z.to_nat limit) (all st)
  /\ Total r = resultTotal st
  /\ HasMore r = negb (nextPageToken st =? "")%string
                 || (slen (Issues r) <? resultTotal st)
  /\ slen (Issues r) <= limit.
Proof.
  unfold finish. intros H Hlim.
  destruct (slen (all st) >? limit) eqn:E.
  - unfold sliceTo in H.
    destruct ((0 <=? limit) && (limit <=? slen (all st))) eqn:Eb;
      [|discriminate].
    simpl in H. injection H as <- <-. simpl.
    repeat split.
    apply andb_true_iff in Eb as [H0 _]. apply Z.leb_le in H0.
    unfold slen. rewrite length_firstn. lia.
  - simpl in H. injection H as <- <-. simpl.
    rewrite Z.gtb_ltb in E. apply Z.ltb_ge in E.
    assert (Hall : firstn (Z.to_nat limit) (all st) = all st).
    { apply firstn_all2. unfold slen in E. lia. }
    rewrite Hall. repeat split. exact E.
Qed.

Lemma finish_returns (st : SearchState) :
  0 <= limit -> exists r, finish limit st = Ret (r, None).
Proof.
  intros H. unfold finish.
  destruct (slen (all st) >? limit) eqn:E; simpl; [|eauto].
  unfold sliceTo.
  rewrite Z.gtb_ltb in E. apply Z.ltb_lt in E.
  assert (Eb : (0 <=? limit) && (limit <=? slen (all st)) = true).
  { apply andb_true_iff. split; apply Z.leb_le; lia. }
  rewrite Eb. simpl. eauto.
Qed.

(** C6. For a positive limit searchIssues returns (it neither panics nor
    runs on for ever), and the issues of the result are at most [limit]
    many, whatever pages the source sends. *)
Theorem searchIssues_at_most_limit (srv : Server src) :
  0 < limit ->
  exists (r : SearchIssuesResult) (err : option string),
    searchIssues src jql limit srv = Some (Ret (r, err))
    /\ slen (Issues r) <= limit.
Proof.
  intros Hpos. unfold searchIssues, searchIssuesFuel.
  destruct (searchLoop_total (Z.to_nat limit) srv initialState)
    as [e He]; [simpl; unfold slen; simpl; lia|].
  rewrite He. destruct e as [st|st err].
  - destruct (finish_returns st) as [r Hr]; [lia|].
    exists r, None. split; [now rewrite Hr|].
    apply (finish_spec st r None Hr). lia.
  - eexists _, _. split; [reflexivity|]. simpl. unfold slen. simpl. lia.
Qed.

(** X2. searchIssues always comes to an end, and it panics exactly on a
    negative limit. *)
Theorem searchIssues_total (srv : Server src) :
  exists out,
    searchIssues src jql limit srv = Some out
    /\ (out = Panic <-> limit < 0).
Proof.
  unfold searchIssues, searchIssuesFuel.
  destruct (searchLoop_total (Z.to_nat limit) srv initialState)
    as [e He]; [simpl; unfold slen; simpl; lia|].
  rewrite He. destruct e as [st|st err].
  - exists (finish limit st). split; [reflexivity|].
    destruct (Z_lt_ge_dec limit 0) as [Hneg|Hpos].
    + split; [intros _; exact Hneg|]. intros _. unfold finish.
      assert (E : (slen (all st) >? limit) = true).
      { rewrite Z.gtb_ltb. apply Z.ltb_lt.
        pose proof (slen_nonneg (all st)). lia. }
      rewrite E. unfold sliceTo.
      assert (E0 : (0 <=? limit) = false) by (apply Z.leb_gt; lia).
      now rewrite E0.
    + destruct (finish_returns st) as [r Hr]; [lia|]. rewrite Hr.
      split; [discriminate | lia].
  - eexists. split; [reflexivity|].
    split; [discriminate|]. intros Hneg. exfalso.
    destruct (Z.to_nat limit) eqn:En; [|lia].
    simpl in He. destruct (_ <? limit) in He; discriminate.
Qed.

(** X3. Every request asks for at least one and at most a hundred
    issues, however large the limit. *)
Theorem requests_are_capped (srv : Server src) :
  Forall (fun maxResults => 1 <= maxResults <= 100)
         (requested src jql limit (Z.to_nat limit) srv initialState).
Proof.
  generalize (Z.to_nat limit) as fuel. generalize initialState as st.
  intros st fuel. revert srv st.
  induction fuel as [|fuel IH]; intros srv st; simpl.
  - destruct (slen (all st) <? limit); constructor.
  - destruct (slen (all st) <? limit) eqn:E; [|constructor].
    apply Z.ltb_lt in E. constructor.
    + unfold minInt. destruct (limit - slen (all st) <? 100) eqn:Em.
      * apply Z.ltb_lt in Em. lia.
      * lia.
    + destruct (fetch src srv jql _ (nextPageToken st)) as [srv' [err|resp]];
        [constructor|].
      destruct (lastPage resp); [constructor | apply IH].
Qed.

(** C1, amended. When searchIssues succeeds, HasMore is true exactly when
    the last page received carried a continuation token or the number of
    issues returned, counted after the cut to [limit], is below the
    total that page reported (no token and total 0 when no page was
    requested); the issues returned are the first [limit] of all those
    received. *)
Theorem hasMore_counts_returned_issues
        (srv : Server src) (r : SearchIssuesResult) :
  searchIssues src jql limit srv = Some (Ret (r, None)) ->
  let received := pagesOf src jql limit srv in
  Issues r = firstn (Z.to_nat limit) (List.concat (map RespIssues received))
  /\ Total r = RespTotal (last received noPage)
  /\ HasMore r
     = negb (NextPageToken (last received noPage) =? "")%string
       || (slen (Issues r) <? RespTotal (last received noPage)).
Proof.
  unfold searchIssues, searchIssuesFuel, pagesOf. intros H.
  destruct (searchLoop src jql limit (Z.to_nat limit) srv initialState)
    as [[st|st err]|] eqn:Eloop; [|discriminate|discriminate].
  injection H as H.
  apply searchLoop_pages in Eloop.
  assert (Hlim : 0 <= limit \/ slen (all st) <= limit).
  { destruct (Z_le_gt_dec 0 limit) as [Hl|Hl]; [now left|].
    exfalso. unfold finish in H.
    assert (E : (slen (all st) >? limit) = true).
    { rewrite Z.gtb_ltb. apply Z.ltb_lt.
      pose proof (slen_nonneg (all st)). lia. }
    rewrite E in H. unfold sliceTo in H.
    assert (E0 : (0 <=? limit) = false) by (apply Z.leb_gt; lia).
    rewrite E0 in H. discriminate. }
  destruct (finish_spec st r None H Hlim) as (_ & Hi & Ht & Hm & _).
  destruct (absorb_last (pages src jql limit (Z.to_nat limit) srv
                               initialState)
                        initialState noPage eq_refl eq_refl)
    as [Htok Htot].
  rewrite <- Eloop in Htok, Htot.
  pose proof (absorb_all (pages src jql limit (Z.to_nat limit) srv
                                initialState) initialState) as Hall.
  rewrite <- Eloop in Hall. simpl in Hall.
  cbv zeta. rewrite <- Htok, <- Htot, <- Hall.
  now repeat split.
Qed.
End SearchFacts.

(** ** formatDate *)

Lemma substring_prefix (n : nat) (s : string) :
  (n <= String.length s)%nat ->
  String.length (substring 0 n s) = n
  /\ s = substring 0 n s ++ skip n s.
Proof.
  revert s. induction n as [|n IH]; intros s Hn.
  - destruct s; simpl; now split.
  - destruct s as [|c s]; simpl in Hn; [lia|].
    destruct (IH s) as [H1 H2]; [lia|]. simpl. split.
    + now rewrite H1.
    + now rewrite <- H2.
Qed.

Lemma length_app_str (a b : string) :
  String.length (a ++ b) = (String.length a + String.length b)%nat.
Proof. induction a as [|c a IH]; simpl; [reflexivity | now rewrite IH]. Qed.

Lemma decimal_length (w : nat) : forall n, String.length (decimal w n) = w.
Proof.
  induction w as [|w IH]; intros n; [reflexivity|].
  cbn [decimal]. rewrite length_app_str, IH. simpl. lia.
Qed.

Lemma isoDate_length (y m d : Z) : String.length (isoDate y m d) = 10%nat.
Proof.
  unfold isoDate. rewrite !length_app_str, !decimal_length. reflexivity.
Qed.

Lemma substring_HasPrefix (p : string) : forall s,
  HasPrefix s p = true -> substring 0 (String.length p) s = p.
Proof.
  induction p as [|c p IH]; intros s H.
  - destruct s; reflexivity.
  - destruct s as [|d s]; simpl in H; [discriminate|].
    apply andb_true_iff in H as [Hc Hp].
    apply Ascii.eqb_eq in Hc. subst d. simpl. now rewrite IH.
Qed.

Section DateClaims.
Context {lib : GoLib} {clock : GoTime lib}.

(** What [Format] prints of a time that [Parse] returned: its date, which
    is the ten bytes at the head of the string that was parsed. *)
Lemma parsed_date (layout s : string) (t : Time) :
  layout = layoutMillis \/ layout = layoutFrac ->
  timeParse layout s = Some t ->
  validDate (Year t) (Month t) (Day t)
  /\ timeFormat t layoutDate = isoDate (Year t) (Month t) (Day t)
  /\ timeFormat t layoutDate = substring 0 10 s
  /\ len (timeFormat t layoutDate) = 10.
Proof.
  intros Hl Hp. destruct (timeParse_date layout s t Hl Hp) as [Hv Hpre].
  rewrite (timeFormat_date t Hv).
  split; [exact Hv|]. split; [reflexivity|].
  apply substring_HasPrefix in Hpre. rewrite isoDate_length in Hpre.
  split; [now rewrite Hpre|].
  unfold len. now rewrite isoDate_length.
Qed.

(** C9, amended. formatDate returns on every string.  When the string
    parses under neither layout the result is its first ten bytes if it
    has ten bytes or more, and the string itself if it is shorter.  When
    it parses under the first layout, or else under the second, the
    result is the date of the parsed time, a day of the calendar, written
    as year-month-day with four, two and two digits: ten bytes, which are
    the first ten of the string. *)
Theorem formatDate_never_fails (s : string) :
  exists out,
    formatDate s = Ret out
    /\ (timeParse layoutMillis s = None ->
        timeParse layoutFrac s = None ->
        (10 <= len s ->
         out = substring 0 10 s /\ len out = 10
         /\ HasPrefix s out = true)
        /\ (len s < 10 -> out = s))
    /\ (forall t,
          timeParse layoutMillis s = Some t
          \/ (timeParse layoutMillis s = None
              /\ timeParse layoutFrac s = Some t) ->
          validDate (Year t) (Month t) (Day t)
          /\ out = isoDate (Year t) (Month t) (Day t)
          /\ out = substring 0 10 s
          /\ len out = 10).
Proof.
  unfold formatDate.
  destruct (s =? "")%string eqn:Es.
  - apply String.eqb_eq in Es. subst s. exists "".
    split; [reflexivity|]. split.
    + intros _ _. split; [unfold len; simpl; lia | reflexivity].
    + intros t [Ht|[_ Ht]].
      * rewrite timeParse_empty_millis in Ht. discriminate.
      * rewrite timeParse_empty_frac in Ht. discriminate.
  - destruct (timeParse layoutMillis s) as [t1|] eqn:E1.
    + exists (timeFormat t1 layoutDate). split; [reflexivity|].
      split; [discriminate|].
      intros t [[= <-]|[Hn _]]; [|discriminate].
      apply (parsed_date layoutMillis s t1); [now left | exact E1].
    + destruct (timeParse layoutFrac s) as [t2|] eqn:E2.
      * exists (timeFormat t2 layoutDate). split; [reflexivity|].
        split; [discriminate|].
        intros t [Ht|[_ [= <-]]]; [discriminate|].
        apply (parsed_date layoutFrac s t2); [now right | exact E2].
      * destruct (len s >=? 10) eqn:El.
        -- rewrite Z.geb_leb in El. apply Z.leb_le in El.
           exists (substring 0 10 s). unfold strTo.
           assert (Eb : (0 <=? 10) && (10 <=? len s) = true).
           { apply andb_true_iff. split; apply Z.leb_le; lia. }
           rewrite Eb. split; [reflexivity|].
           split; [|intros t [Ht|[_ Ht]]; discriminate].
           intros _ _. split; [|lia]. intros _.
           destruct (substring_prefix 10 s) as [Hlen Hsplit];
             [unfold len in El; lia|].
           split; [reflexivity|]. split.
           ++ unfold len. rewrite Hlen. reflexivity.
           ++ rewrite Hsplit at 1. apply HasPrefix_app.
        -- rewrite Z.geb_leb in El. apply Z.leb_gt in El.
           exists s. split; [reflexivity|].
           split; [|intros t [Ht|[_ Ht]]; discriminate].
           intros _ _. split; [lia | reflexivity].
Qed.
End DateClaims.

(** *** The dates of the ASCII library *)

Lemma digit_decimal (c : ascii) (d : Z) :
  Ascii7.digit c = Some d ->
  0 <= d <= 9 /\ ascii_of_N (Z.to_N (48 + d)) = c.
Proof.
  unfold Ascii7.digit, inRange, code. intros H.
  destruct (_ && _) eqn:E; [|discriminate].
  injection H as <-. apply andb_true_iff in E. destruct E as [E1 E2].
  apply Z.leb_le in E1, E2. split; [lia|].
  replace (48 + (Z.of_N (N_of_ascii c) - 48)) with (Z.of_N (N_of_ascii c))
    by lia.
  rewrite N2Z.id. apply ascii_N_embedding.
Qed.

(** The first of [n + 1] digits is the multiple of [10 ^ n]. *)
Lemma decimal_cons (n : nat) : forall d lo : Z,
  0 <= d <= 9 -> 0 <= lo < 10 ^ Z.of_nat n ->
  decimal (S n) (d * 10 ^ Z.of_nat n + lo)
  = String (ascii_of_N (Z.to_N (48 + d))) (decimal n lo).
Proof.
  induction n as [|n IH]; intros d lo Hd Hlo.
  - simpl in Hlo. assert (lo = 0) by lia. subst lo.
    cbn [decimal]. replace (d * 10 ^ Z.of_nat 0 + 0) with d by (simpl; lia).
    rewrite Z.mod_small by lia. reflexivity.
  - rewrite Nat2Z.inj_succ, Z.pow_succ_r in * by lia.
    change (decimal (S (S n)) ?x)
      with (decimal (S n) (x / 10)
            ++ String (ascii_of_N (Z.to_N (48 + x mod 10))) "").
    replace ((d * (10 * 10 ^ Z.of_nat n) + lo) / 10)
      with (d * 10 ^ Z.of_nat n + lo / 10).
    2:{ replace (d * (10 * 10 ^ Z.of_nat n) + lo)
          with (lo + (d * 10 ^ Z.of_nat n) * 10) by lia.
        rewrite Z.div_add by lia. lia. }
    replace ((d * (10 * 10 ^ Z.of_nat n) + lo) mod 10) with (lo mod 10).
    2:{ replace (d * (10 * 10 ^ Z.of_nat n) + lo)
          with (lo + (d * 10 ^ Z.of_nat n) * 10) by lia.
        now rewrite Z.mod_add by lia. }
    rewrite IH; [reflexivity | exact Hd |].
    split; [apply Z.div_pos; lia|].
    apply Z.div_lt_upper_bound; lia.
Qed.

(** What [digits] reads is what [decimal] writes. *)
Lemma digits_decimal (n : nat) : forall (acc : Z) (s r : string) (v : Z),
  Ascii7.digits n acc s = Some (v, r) ->
  exists lo, 0 <= lo < 10 ^ Z.of_nat n
             /\ v = acc * 10 ^ Z.of_nat n + lo
             /\ s = decimal n lo ++ r.
Proof.
  induction n as [|n IH]; intros acc s r v H.
  - injection H as <- <-. exists 0. simpl. repeat split; lia.
  - cbn [Ascii7.digits] in H. destruct s as [|c s]; [discriminate|].
    destruct (Ascii7.digit c) as [d|] eqn:Ed; [|discriminate].
    apply digit_decimal in Ed. destruct Ed as [Hd Hc].
    apply IH in H. destruct H as (lo & Hlo & -> & ->).
    exists (d * 10 ^ Z.of_nat n + lo).
    rewrite Nat2Z.inj_succ, Z.pow_succ_r by lia.
    split; [nia|]. split; [lia|].
    rewrite decimal_cons by assumption. now rewrite Hc.
Qed.

Lemma padded_decimal (w : nat) : forall n, Ascii7.padded w n = decimal w n.
Proof.
  induction w as [|w IH]; intros n; [reflexivity|].
  simpl. rewrite IH. unfold Ascii7.digitChar.
  assert (H := Z.mod_pos_bound n 10 ltac:(lia)).
  destruct (n mod 10 <? 10) eqn:E; [reflexivity|].
  apply Z.ltb_ge in E. lia.
Qed.

Lemma expect_cons (c : ascii) (s r : string) :
  Ascii7.expect c s = Some r -> s = String c r.
Proof.
  destruct s as [|c' s]; simpl; [discriminate|].
  destruct (Ascii.eqb_spec c c'); [|discriminate].
  now intros [= ->]; subst.
Qed.

Lemma obind_some {A B : Type} (m : option A) (k : A -> option B) (b : B) :
  Ascii7.obind m k = Some b -> exists a, m = Some a /\ k a = Some b.
Proof. destruct m as [a|]; simpl; [eauto | discriminate]. Qed.

(** The date [dateClock] reads is a day of the calendar, and the string
    starts with it. *)
Lemma dateClock_date (s rest : string) (y mo d h mi sec : Z) :
  Ascii7.dateClock s = Some (y, mo, d, h, mi, sec, rest) ->
  validDate y mo d /\ HasPrefix s (isoDate y mo d) = true.
Proof.
  unfold Ascii7.dateClock. intros H.
  apply obind_some in H. destruct H as ([y' s1] & Hy & H).
  apply obind_some in H. destruct H as (s2 & H1 & H).
  apply obind_some in H. destruct H as ([mo' s3] & Hmo & H).
  apply obind_some in H. destruct H as (s4 & H2 & H).
  apply obind_some in H. destruct H as ([d' s5] & Hd & H).
  apply obind_some in H. destruct H as (s6 & _ & H).
  apply obind_some in H. destruct H as ([h' s7] & _ & H).
  apply obind_some in H. destruct H as (s8 & _ & H).
  apply obind_some in H. destruct H as ([mi' s9] & _ & H).
  apply obind_some in H. destruct H as (s10 & _ & H).
  apply obind_some in H. destruct H as ([sec' s11] & _ & H).
  destruct (_ && _) eqn:E in H; [|discriminate].
  injection H as -> -> -> -> -> -> ->.
  repeat (apply andb_true_iff in E; destruct E as [E ?]).
  apply digits_decimal in Hy, Hmo, Hd.
  destruct Hy as (ly & Hly & -> & ->).
  destruct Hmo as (lm & Hlm & -> & ->).
  destruct Hd as (ld & Hld & -> & ->).
  apply expect_cons in H1, H2. subst s1 s3.
  simpl in Hly, Hlm, Hld.
  rewrite !Z.mul_0_l, !Z.add_0_l in *.
  split.
  - unfold validDate.
    change (daysInMonth lm ly) with (Ascii7.daysIn lm ly). lia.
  - match goal with
    | |- HasPrefix (_ ++ String _ (_ ++ String _ (_ ++ ?r))) _ = true =>
        replace (decimal 4 ly ++ String "-" (decimal 2 lm
                   ++ String "-" (decimal 2 ld ++ r)))
          with (isoDate ly lm ld ++ r)
    end.
    + apply HasPrefix_app.
    + unfold isoDate. rewrite !app_assoc_str. reflexivity.
Qed.

Lemma timeParse_dateClock (layout s : string) (t : Ascii7.Time) :
  Ascii7.timeParse layout s = Some t ->
  exists y mo d h mi sec rest,
    Ascii7.dateClock s = Some (y, mo, d, h, mi, sec, rest)
    /\ Ascii7.year t = y /\ Ascii7.month t = mo /\ Ascii7.day t = d.
Proof.
  unfold Ascii7.timeParse. intros H.
  destruct (layout =? layoutMillis)%string;
    [|destruct (layout =? layoutFrac)%string; [|discriminate]];
    apply obind_some in H; destruct H as (p & Hp & H);
    destruct p as [[[[[[y mo] d] h] mi] sec] rest];
    exists y, mo, d, h, mi, sec, rest; (split; [exact Hp|]);
    apply obind_some in H; destruct H as (x & _ & H).
  - apply obind_some in H. destruct H as (off & _ & [= <-]).
    now repeat split.
  - injection H as <-. now repeat split.
Qed.

Lemma ascii_timeParse_date (layout s : string) (t : Ascii7.Time) :
  layout = layoutMillis \/ layout = layoutFrac ->
  Ascii7.timeParse layout s = Some t ->
  validDate (Ascii7.year t) (Ascii7.month t) (Ascii7.day t)
  /\ HasPrefix s (isoDate (Ascii7.year t) (Ascii7.month t) (Ascii7.day t))
     = true.
Proof.
  intros _ Hp. apply timeParse_dateClock in Hp.
  destruct Hp as (y & mo & d & h & mi & sec & rest & Hp & <- & <- & <-).
  now apply dateClock_date in Hp.
Qed.

Lemma ascii_timeFormat_date (t : Ascii7.Time) :
  validDate (Ascii7.year t) (Ascii7.month t) (Ascii7.day t) ->
  Ascii7.timeFormat t layoutDate
  = isoDate (Ascii7.year t) (Ascii7.month t) (Ascii7.day t).
Proof.
  intros _. unfold Ascii7.timeFormat. rewrite String.eqb_refl.
  unfold isoDate. now rewrite !padded_decimal.
Qed.

(** The ASCII library's times with their dates. *)
#[local] Instance asciiTime : GoTime asciiLib := {|
  Year := Ascii7.year : @Time asciiLib -> Z;
  Month := Ascii7.month : @Time asciiLib -> Z;
  Day := Ascii7.day : @Time asciiLib -> Z;
  timeParse_date := ascii_timeParse_date;
  timeFormat_date := ascii_timeFormat_date
|}.

(** ** adfExtract *)

(** [adfExtract] as the program reads: the text of the node, then, if the
    node has a content array, the children and the end of a list item. *)
Lemma adfExtract_unfold (node : list (string * any)) :
  adfExtract node =
  stringOr (mapIndex node "text") ++
  match mapIndex node "content" with
  | Arr content =>
      extractChildren (slen content) content 0
      ++ listItemEnd (stringOr (mapIndex node "type"))
  | _ => ""
  end.
Proof.
  unfold adfExtract. simpl extractValue. f_equal.
  generalize (stringOr (mapIndex node "type")) as nodeType.
  intros nodeType.
  induction node as [|[k c] fs IH]; [reflexivity|].
  cbn [mapIndex]. destruct (k =? "content")%string; [|exact IH].
  destruct c as [| | | |children|]; try reflexivity.
  f_equal.
  generalize (slen children) as n. generalize 0 as i.
  clear IH. induction children as [|child cs IHc]; intros i n; [reflexivity|].
  rewrite IHc. now destruct child.
Qed.

(** C8, amended. For every node whose type is "listItem": if its content
    is an array, the extractor writes the node's text, then what the
    children yield with their separators, then exactly one line feed; if
    it has no content array, it writes the node's text and nothing more.
    The parent writes no separator after a list item, which is not a
    block-level type. *)
Theorem listItem_ends_its_line (node : list (string * any)) :
  mapIndex node "type" = Str "listItem" ->
  match mapIndex node "content" with
  | Arr content =>
      adfExtract node
      = stringOr (mapIndex node "text")
        ++ extractChildren (slen content) content 0 ++ nl
  | _ => adfExtract node = stringOr (mapIndex node "text")
  end
  /\ forall i n : Z, separator "listItem" i n = "".
Proof.
  intros Htype. split; [|reflexivity].
  rewrite adfExtract_unfold, Htype.
  destruct (mapIndex node "content"); try apply app_nil_r_str.
  reflexivity.
Qed.

(* ------------------------------------------------------------------ *)
(** ** searchIssues: where the loop stops and which tokens it sends *)
(* ------------------------------------------------------------------ *)

Section SearchStops.
Variable src : PageSource.
Variable jql : string.
Variable limit : Z.

(** The loop ends normally for one of two reasons: the limit is reached,
    or the page just received was the last one. *)
Lemma searchLoop_stops (fuel : nat) (srv : Server src)
      (st st' : SearchState) :
  searchLoop src jql limit fuel srv st = Some (LoopDone st') ->
  limit <= slen (all st')
  \/ (pages src jql limit fuel srv st <> []
      /\ lastPage (last (pages src jql limit fuel srv st) noPage) = true).
Proof.
  revert srv st. induction fuel as [|fuel IH]; intros srv st; simpl.
  - destruct (slen (all st) <? limit) eqn:E; [discriminate|].
    intros [= <-]. left. now apply Z.ltb_ge in E.
  - destruct (slen (all st) <? limit) eqn:E.
    2:{ intros [= <-]. left. now apply Z.ltb_ge in E. }
    destruct (fetch src srv jql _ (nextPageToken st)) as [srv' [err|resp]];
      [discriminate|].
    destruct (lastPage resp) eqn:El.
    + intros _. right. split; [discriminate | exact El].
    + intros H. destruct (IH _ _ H) as [Hl|[Hne Hlast]]; [now left|].
      right. split; [discriminate|].
      destruct (pages src jql limit fuel srv' (absorb st resp));
        [contradiction | exact Hlast].
Qed.

(** The state a failed loop is left in is also the initial one after the
    pages received. *)
Lemma searchLoop_failed_pages (fuel : nat) (srv : Server src)
      (st st' : SearchState) (err : string) :
  searchLoop src jql limit fuel srv st = Some (LoopFailed st' err) ->
  st' = fold_left absorb (pages src jql limit fuel srv st) st.
Proof.
  revert srv st. induction fuel as [|fuel IH]; intros srv st; simpl.
  - destruct (slen (all st) <? limit); discriminate.
  - destruct (slen (all st) <? limit); [|discriminate].
    destruct (fetch src srv jql _ (nextPageToken st)) as [srv' [e|resp]].
    + now intros [= <- _].
    + destruct (lastPage resp); [discriminate|].
      intros H. simpl. now apply IH.
Qed.

(** X15. When searchIssues succeeds with fewer issues than the limit,
    the source had said it was done: at least one page was received, and
    the last page held no issue or carried no continuation token. *)
Theorem short_result_means_last_page
        (srv : Server src) (r : SearchIssuesResult) :
  searchIssues src jql limit srv = Some (Ret (r, None)) ->
  slen (Issues r) < limit ->
  let received := pagesOf src jql limit srv in
  received <> []
  /\ (RespIssues (last received noPage) = []
      \/ NextPageToken (last received noPage) = "").
Proof.
  unfold searchIssues, searchIssuesFuel, pagesOf. intros H Hshort.
  destruct (searchLoop src jql limit (Z.to_nat limit) srv initialState)
    as [[st|st err]|] eqn:Eloop; [|discriminate|discriminate].
  injection H as H.
  pose proof (slen_nonneg (Issues r)) as Hpos.
  destruct (finish_spec limit st r None H) as (_ & Hi & _); [lia|].
  destruct (searchLoop_stops _ _ _ _ Eloop) as [Hfull|[Hne Hlast]].
  - exfalso. rewrite Hi in Hshort. unfold slen in Hshort, Hfull.
    rewrite length_firstn in Hshort. lia.
  - cbv zeta. split; [exact Hne|].
    unfold lastPage in Hlast. apply orb_true_iff in Hlast.
    destruct Hlast as [Hl|Hl].
    + left. apply Z.eqb_eq in Hl. unfold slen in Hl.
      destruct (RespIssues _); [reflexivity | simpl in Hl; lia].
    + right. now apply String.eqb_eq in Hl.
Qed.

(** X16. When a page request fails, searchIssues returns the error with
    no issue at all, also when earlier pages had brought some, and with
    HasMore false; the total it reports is the one of the last page
    received (0 when the first request failed). *)
Theorem failed_search_keeps_no_issue
        (srv : Server src) (r : SearchIssuesResult) (err : string) :
  searchIssues src jql limit srv = Some (Ret (r, Some err)) ->
  Issues r = [] /\ HasMore r = false
  /\ Total r = RespTotal (last (pagesOf src jql limit srv) noPage).
Proof.
  unfold searchIssues, searchIssuesFuel, pagesOf. intros H.
  destruct (searchLoop src jql limit (Z.to_nat limit) srv initialState)
    as [[st|st e]|] eqn:Eloop; [| |discriminate].
  - exfalso. injection H as H. unfold finish in H.
    destruct (slen (all st) >? limit).
    + destruct (sliceTo (all st) limit); simpl in H; discriminate.
    + simpl in H. discriminate.
  - injection H as <- _. simpl. split; [reflexivity|].
    split; [reflexivity|].
    apply searchLoop_failed_pages in Eloop.
    destruct (absorb_last (pages src jql limit (Z.to_nat limit) srv
                                 initialState)
                          initialState noPage eq_refl eq_refl)
      as [_ Htot].
    now rewrite <- Eloop in Htot.
Qed.

(** The tokens sent from a state on: the token of the state, then the
    tokens of the pages received, none of them empty. *)
Lemma tokensSent_chain (fuel : nat) (srv : Server src) (st : SearchState) :
  tokensSent src jql limit fuel srv st = []
  \/ exists rest,
       tokensSent src jql limit fuel srv st = nextPageToken st :: rest
       /\ rest = firstn (List.length rest)
                        (map NextPageToken (pages src jql limit fuel srv st))
       /\ Forall (fun token => token <> "") rest.
Proof.
  revert srv st. induction fuel as [|fuel IH]; intros srv st; simpl.
  - left. now destruct (slen (all st) <? limit).
  - destruct (slen (all st) <? limit); [|now left].
    right.
    destruct (fetch src srv jql _ (nextPageToken st)) as [srv' [e|resp]].
    { exists []. repeat split. constructor. }
    destruct (lastPage resp) eqn:El.
    { exists []. repeat split. constructor. }
    destruct (IH srv' (absorb st resp)) as [E|(rest & E & Hrest & Hall)];
      rewrite E.
    + exists []. repeat split. constructor.
    + exists (NextPageToken resp :: rest). split; [reflexivity|]. split.
      * simpl. f_equal. exact Hrest.
      * constructor; [|exact Hall].
        unfold lastPage in El. apply orb_false_iff in El as [_ El].
        now apply String.eqb_neq in El.
Qed.

(** X17. The page tokens chain: the first request of searchIssues
    carries no token, and each later request carries the token of the
    response before it, which is never empty (so the first page is never
    asked for twice). *)
Theorem page_tokens_are_chained (srv : Server src) :
  tokensOf src jql limit srv = []
  \/ exists rest,
       tokensOf src jql limit srv = "" :: rest
       /\ rest = firstn (List.length rest)
                        (map NextPageToken (pagesOf src jql limit srv))
       /\ Forall (fun token => token <> "") rest.
Proof.
  unfold tokensOf, pagesOf.
  destruct (tokensSent_chain (Z.to_nat limit) srv initialState)
    as [E|(rest & E & Hrest & Hall)].
  - now left.
  - right. exists rest. now repeat split.
Qed.

End SearchStops.

(* ------------------------------------------------------------------ *)
(** ** matchTransition and the order of the transitions *)
(* ------------------------------------------------------------------ *)

Section MatchOrder.
Context {lib : GoLib}.

Lemma lessTransition_antisym (a b : JiraTransition) :
  lessTransition a b = false -> lessTransition b a = false ->
  keyOfTransition a = keyOfTransition b.
Proof.
  rewrite !lessTransition_key. apply keyLt_total; order_facts.
Qed.

Lemma nonempty_In {A : Type} (l : list A) : l <> [] <-> exists x, In x l.
Proof.
  destruct l as [|x l].
  - split; [congruence | intros [x []]].
  - split; [intros _; exists x; now left | discriminate].
Qed.

Lemma same_members_nil {A : Type} (l l' : list A) :
  (forall x, In x l <-> In x l') -> l = [] <-> l' = [].
Proof.
  intros H. split; intros ->.
  - destruct l' as [|x l']; [reflexivity|].
    destruct (proj2 (H x) (or_introl eq_refl)).
  - destruct l as [|x l]; [reflexivity|].
    destruct (proj1 (H x) (or_introl eq_refl)).
Qed.

(** Two candidate lists with the same members, no two of which share a
    tie-break key, have the same best transition. *)
Lemma pickBest_same_members (cs cs' : list JiraTransition)
      (p p' : JiraTransition) :
  (forall x, In x cs <-> In x cs') ->
  (forall a b, In a cs -> In b cs ->
               keyOfTransition a = keyOfTransition b -> a = b) ->
  cs <> [] ->
  pickBestTransition cs = Ret p -> pickBestTransition cs' = Ret p' ->
  p = p'.
Proof.
  intros Hsame Hinj Hne Hp Hp'.
  assert (Hne' : cs' <> []).
  { intros E. apply Hne. now apply (same_members_nil cs cs' Hsame). }
  destruct (pickBest_least cs Hne) as (q & Hq & Hin & Hleast).
  destruct (pickBest_least cs' Hne') as (q' & Hq' & Hin' & Hleast').
  rewrite Hp in Hq. injection Hq as <-.
  rewrite Hp' in Hq'. injection Hq' as <-.
  apply Hsame in Hin'. apply Hinj; [exact Hin | exact Hin' |].
  apply lessTransition_antisym.
  - apply Hleast'. now apply Hsame.
  - now apply Hleast.
Qed.

Lemma filter_same_members {A : Type} (f : A -> bool) (l l' : list A) :
  Permutation l l' -> forall x, In x (filter f l) <-> In x (filter f l').
Proof.
  intros P x. rewrite !filter_In. split; intros [H1 H2]; split; auto.
  - exact (Permutation_in _ P H1).
  - exact (Permutation_in _ (Permutation_sym P) H1).
Qed.

Lemma containsCandidates_same_members (query : string)
      (ts ts' : list JiraTransition) :
  Permutation ts ts' ->
  forall x, In x (containsCandidates query ts)
            <-> In x (containsCandidates query ts').
Proof.
  intros P x. rewrite !containsCandidates_In.
  split; intros [H1 H2]; split; auto.
  - exact (Permutation_in _ P H1).
  - exact (Permutation_in _ (Permutation_sym P) H1).
Qed.

(** X14. The answer of matchTransition does not depend on the order in
    which the transitions are listed: when no two transitions of the list
    agree in the length of the name, the lower-case name and the id, every
    reordering of the list gives the same selected transition and the same
    matchedBy, and fails exactly when the original list does.  (The warning
    and the error message list the names in the order of the input.) *)
Theorem matchTransition_ignores_order
        (ts ts' : list JiraTransition) (target : string) :
  Permutation ts ts' ->
  (forall a b, In a ts -> In b ts ->
               keyOfTransition a = keyOfTransition b -> a = b) ->
  exists picked matchedBy warning warning' err err',
    matchTransition ts target = Ret (picked, matchedBy, warning, err)
    /\ matchTransition ts' target = Ret (picked, matchedBy, warning', err')
    /\ (err = None <-> err' = None).
Proof.
  intros P Hinj. set (query := TrimSpace target).
  pose proof (filter_same_members (isExact query) ts ts' P) as He.
  pose proof (filter_same_members (isPrefix query) ts ts' P) as Hp.
  pose proof (containsCandidates_same_members query ts ts' P) as Hc.
  rewrite <- !collect_exact in He. rewrite <- !collect_prefix in Hp.
  pose proof (same_members_nil _ _ He) as Ne.
  pose proof (same_members_nil _ _ Hp) as Np.
  assert (Nc : contains (collect query ts) = []
               <-> contains (collect query ts') = []).
  { rewrite !collect_contains.
    pose proof (same_members_nil _ _
                  (filter_same_members (isContains query) ts ts' P)) as N.
    split; intros E; apply map_eq_nil in E; apply N in E;
      now rewrite E. }
  assert (Hsub : forall cs, (forall x, In x cs -> In x ts) ->
                 forall a b, In a cs -> In b cs ->
                   keyOfTransition a = keyOfTransition b -> a = b).
  { intros cs Hcs a b Ha Hb. apply Hinj; auto. }
  pose proof (matchTransition_run ts target) as R.
  pose proof (matchTransition_run ts' target) as R'.
  inversion R as [ Hq | p Hq Hex Hpick | p Hq Hex Hpre Hpick
                 | p Hq Hex Hpre Hco Hpick | Hq Hex Hpre Hco ];
    inversion R' as [ Hq' | p' Hq' Hex' Hpick' | p' Hq' Hex' Hpre' Hpick'
                    | p' Hq' Hex' Hpre' Hco' Hpick' | Hq' Hex' Hpre' Hco' ];
    try congruence;
    try (exfalso; first [ apply Hex | apply Hex' | apply Hpre | apply Hpre'
                        | apply Hco | apply Hco' ];
         first [ now apply Ne | now apply Np | now apply Nc ]).
  - do 6 eexists. split; [reflexivity|]. split; [reflexivity|]. tauto.
  - assert (p = p') as <-.
    { apply (pickBest_same_members _ _ p p' He); auto.
      apply Hsub. intros x Hx. rewrite collect_exact in Hx.
      now apply filter_In in Hx. }
    do 6 eexists. split; [reflexivity|]. split; [reflexivity|]. tauto.
  - assert (p = p') as <-.
    { apply (pickBest_same_members _ _ p p' Hp); auto.
      apply Hsub. intros x Hx. rewrite collect_prefix in Hx.
      now apply filter_In in Hx. }
    do 6 eexists. split; [reflexivity|]. split; [reflexivity|]. tauto.
  - assert (p = p') as <-.
    { apply (pickBest_same_members _ _ p p' Hc); auto.
      - apply Hsub. intros x Hx. now apply containsCandidates_In in Hx.
      - now apply containsCandidates_nonempty. }
    do 6 eexists. split; [reflexivity|]. split; [reflexivity|]. tauto.
  - do 6 eexists. split; [reflexivity|]. split; [reflexivity|].
    split; discriminate.
Qed.


Lemma filter_grows {A : Type} (f : A -> bool) (l l' : list A) :
  (forall x, In x l -> In x l') -> filter f l <> [] -> filter f l' <> [].
Proof.
  intros Hsub Hne E. apply nonempty_In in Hne as [x Hx].
  apply filter_In in Hx as [Hx Hf].
  assert (Hin : In x (filter f l')) by (apply filter_In; auto).
  rewrite E in Hin. destruct Hin.
Qed.

(** X29. More transitions never lose a match: when matchTransition
    succeeds on a list, it succeeds on every list that holds all the
    transitions of the first, in whatever order and with whatever else,
    and the tier can only improve: an exact match stays exact, a prefix
    match stays prefix or becomes exact. *)
Theorem more_transitions_keep_the_match
        (ts ts' : list JiraTransition) (target : string)
        (picked : JiraTransition) (matchedBy warning : string) :
  matchTransition ts target = Ret (picked, matchedBy, warning, None) ->
  (forall t, In t ts -> In t ts') ->
  exists picked' matchedBy' warning',
    matchTransition ts' target
    = Ret (picked', matchedBy', warning', None)
    /\ (matchedBy = "exact" -> matchedBy' = "exact")
    /\ (matchedBy = "prefix" ->
        matchedBy' = "exact" \/ matchedBy' = "prefix").
Proof.
  intros H Hsub.
  pose proof (matchTransition_run ts target) as R. rewrite H in R.
  pose proof (matchTransition_run ts' target) as R'.
  assert (Hc : contains (collect (TrimSpace target) ts) <> [] ->
               contains (collect (TrimSpace target) ts') <> []).
  { rewrite !collect_contains. intros Hne E. apply map_eq_nil in E.
    revert E. apply (filter_grows _ ts ts' Hsub).
    intros E. apply Hne. now rewrite E. }
  inversion R as [ | p Hq Hex Hpick | p Hq Hex Hpre Hpick
                 | p Hq Hex Hpre Hco Hpick | ]; subst;
    inversion R' as [ Hq' | p' Hq' Hex' Hpick' | p' Hq' Hex' Hpre' Hpick'
                    | p' Hq' Hex' Hpre' Hco' Hpick' | Hq' Hex' Hpre' Hco' ];
    try contradiction;
    try (rewrite collect_exact in *;
         exfalso; revert Hex'; now apply (filter_grows _ ts ts' Hsub));
    try (rewrite collect_prefix in *;
         exfalso; revert Hpre'; now apply (filter_grows _ ts ts' Hsub));
    try (exfalso; now apply Hc);
    do 3 eexists; (split; [reflexivity|]);
    split; first [discriminate | auto].
Qed.

End MatchOrder.

(* ------------------------------------------------------------------ *)
(** ** The configuration and the helpers of the commands *)
(* ------------------------------------------------------------------ *)

Lemma trimRightByte_split (s : string) (c : ascii) :
  exists n, s = trimRightByte s c ++ bytes n c.
Proof.
  induction s as [|b s [n IH]]; [now exists O|].
  simpl. destruct (trimRightByte s c) as [|x t] eqn:E.
  - simpl in IH. destruct (Ascii.eqb b c) eqn:Eb.
    + apply Ascii.eqb_eq in Eb. subst b. exists (S n). simpl.
      now f_equal.
    + exists n. simpl. now f_equal.
  - exists n. simpl. f_equal. exact IH.
Qed.

Lemma trimRightByte_last (s : string) (c : ascii) :
  lastByte (trimRightByte s c) <> Some c.
Proof.
  induction s as [|b s IH]; [discriminate|].
  simpl. destruct (trimRightByte s c) as [|x t] eqn:E.
  - destruct (Ascii.eqb b c) eqn:Eb; [discriminate|].
    simpl. apply Ascii.eqb_neq in Eb. congruence.
  - exact IH.
Qed.

Lemma trimRightByte_bytes (n : nat) (c : ascii) :
  trimRightByte (bytes n c) c = "".
Proof.
  induction n as [|n IH]; [reflexivity|].
  simpl. rewrite IH. now rewrite Ascii.eqb_refl.
Qed.

Module CliFacts.
Import Cli.

Section Helpers.
Context {lib : GoLib} {wire : Wire}.

(** X5. firstNonEmpty returns the empty string exactly when every value
    is blank (empty after TrimSpace); otherwise it returns the trimmed
    form of the first value that is not blank, whatever follows it. *)
Theorem firstNonEmpty_first_nonblank (values : list string) :
  (firstNonEmpty values = "" <->
   forall v, In v values -> TrimSpace v = "")
  /\ (firstNonEmpty values <> "" ->
      exists before v after,
        values = (before ++ v :: after)%list
        /\ (forall b, In b before -> TrimSpace b = "")
        /\ TrimSpace v <> ""
        /\ firstNonEmpty values = TrimSpace v).
Proof.
  induction values as [|v rest [IHe IHn]]; simpl.
  - split; [|congruence]. split; [intros _ v [] | reflexivity].
  - destruct (TrimSpace v =? "")%string eqn:E; simpl.
    + apply String.eqb_eq in E. split.
      * rewrite IHe. split.
        -- intros H x [<-|Hx]; [exact E | now apply H].
        -- intros H x Hx. apply H. now right.
      * intros Hne. destruct (IHn Hne) as (before & x & after & H1 & H2 & H3).
        exists (v :: before), x, after. split; [now rewrite H1|].
        split; [|exact H3]. intros b [<-|Hb]; [exact E | now apply H2].
    + apply String.eqb_neq in E. split.
      * split; [contradiction|]. intros H. apply H. now left.
      * intros _. exists [], v, rest. repeat split; auto.
        intros b [].
Qed.

Lemma loadAuthConfig_inv (os : Os) (cfg : Config) :
  loadAuthConfig os = (cfg, None) ->
  exists file,
    loadConfig os = (file, None)
    /\ Server (resolved os file) <> ""
    /\ Email (resolved os file) <> ""
    /\ APIToken (resolved os file) <> ""
    /\ cfg = {| Server := trimRightByte (Server (resolved os file)) "/";
                Email := Email (resolved os file);
                APIToken := APIToken (resolved os file) |}.
Proof.
  unfold loadAuthConfig.
  destruct (loadConfig os) as [file [err|]]; [discriminate|].
  destruct (Server (resolved os file) =? "")%string eqn:Es;
    [discriminate|].
  destruct (Email (resolved os file) =? "")%string eqn:Ee;
    [discriminate|].
  destruct (APIToken (resolved os file) =? "")%string eqn:Et;
    [discriminate|].
  simpl. intros [= <-]. exists file.
  apply String.eqb_neq in Es, Ee, Et. repeat split; assumption.
Qed.

(** X6. When loadAuthConfig succeeds, the e-mail address and the token
    of the result are not empty and are the values resolved from the
    environment and the file; the server of the result does not end in a
    slash, and the resolved server is that server followed by slashes
    only. *)
Theorem loadAuthConfig_success (os : Os) (cfg : Config) :
  loadAuthConfig os = (cfg, None) ->
  exists (file : Config) (n : nat),
    loadConfig os = (file, None)
    /\ Server (resolved os file) = Server cfg ++ bytes n "/"
    /\ lastByte (Server cfg) <> Some "/"%char
    /\ Email cfg = Email (resolved os file) /\ Email cfg <> ""
    /\ APIToken cfg = APIToken (resolved os file) /\ APIToken cfg <> "".
Proof.
  intros H. apply loadAuthConfig_inv in H.
  destruct H as (file & Hload & Hs & He & Ht & ->).
  destruct (trimRightByte_split (Server (resolved os file)) "/") as [n Hn].
  exists file, n. simpl.
  repeat split; auto using trimRightByte_last.
Qed.

(** X7. The environment beats the file: when the configuration path is
    found and the file is missing or decodes without error, and the three
    variables JIRACTL_SERVER, JIRACTL_EMAIL and JIRACTL_API_TOKEN are set,
    loadAuthConfig succeeds with the values of the variables (the server
    without its trailing slashes), whatever the file holds. *)
Theorem environment_beats_file (os : Os) (path : string) :
  configPath os = inr path ->
  (ReadFile os path = NotExist
   \/ exists b file, ReadFile os path = FileBytes b
                     /\ unmarshalConfig b = (file, None)) ->
  Getenv os "JIRACTL_SERVER" <> "" ->
  Getenv os "JIRACTL_EMAIL" <> "" ->
  Getenv os "JIRACTL_API_TOKEN" <> "" ->
  loadAuthConfig os
  = ({| Server := trimRightByte (Getenv os "JIRACTL_SERVER") "/";
        Email := Getenv os "JIRACTL_EMAIL";
        APIToken := Getenv os "JIRACTL_API_TOKEN" |}, None).
Proof.
  intros Hpath Hfile Hs He Ht.
  assert (Hload : exists file, loadConfig os = (file, None)).
  { unfold loadConfig. rewrite Hpath.
    destruct Hfile as [-> | (b & file & -> & ->)]; eauto. }
  destruct Hload as [file Hload].
  unfold loadAuthConfig, resolved, override. rewrite Hload. simpl.
  apply String.eqb_neq in Hs, He, Ht. rewrite !Hs, !He, !Ht. simpl.
  rewrite Hs, He, Ht. reflexivity.
Qed.

(** X8. The check for a missing server comes before the trailing slashes
    are dropped: a resolved server made of slashes only is accepted, and
    the configuration returned then has the empty string as its server. *)
Theorem server_of_slashes_is_accepted (os : Os) (file : Config)
        (n : nat) :
  loadConfig os = (file, None) ->
  Server (resolved os file) = bytes (S n) "/" ->
  Email (resolved os file) <> "" ->
  APIToken (resolved os file) <> "" ->
  exists cfg, loadAuthConfig os = (cfg, None) /\ Server cfg = "".
Proof.
  intros Hload Hs He Ht. unfold loadAuthConfig. rewrite Hload, Hs.
  apply String.eqb_neq in He, Ht. rewrite He, Ht.
  change (bytes (S n) "/" =? "")%string with false. simpl orb.
  cbv iota. eexists. split; [reflexivity|].
  cbn [Server]. apply trimRightByte_bytes.
Qed.

(** X9. The two labels of a user are empty together: userEmail and
    userDisplayName give the empty string exactly when there is no user
    or the user has neither an e-mail address nor a display name; when
    both fields are set, each function returns the field it is named
    after. *)
Theorem user_labels (u : option JiraUser) :
  (userEmail u = "" <-> userDisplayName u = "")
  /\ (userEmail u = "" <->
      forall x, u = Some x -> EmailAddress x = "" /\ DisplayName x = "")
  /\ (forall x, u = Some x -> EmailAddress x <> "" ->
                DisplayName x <> "" ->
                userEmail u = EmailAddress x
                /\ userDisplayName u = DisplayName x).
Proof.
  destruct u as [x|]; simpl.
  - destruct (String.eqb_spec (EmailAddress x) "") as [Ee|Ee];
      destruct (String.eqb_spec (DisplayName x) "") as [Ed|Ed]; simpl;
      (split; [|split]);
      try (split; intros H; try congruence);
      try (intros y [= <-]; split; congruence);
      try (intros y [= <-] ? ?; split; congruence);
      try (destruct (H x eq_refl); congruence).
  - repeat split; try discriminate.
Qed.

End Helpers.
Section Views.
Context {lib : GoLib}.

Lemma formatDate_returns (s : string) : exists out, formatDate s = Ret out.
Proof.
  unfold formatDate. destruct (s =? "")%string; [eauto|].
  destruct (timeParse layoutMillis s); [eauto|].
  destruct (timeParse layoutFrac s); [eauto|].
  destruct (len s >=? 10) eqn:El; [|eauto].
  unfold strTo. rewrite Z.geb_leb in El.
  assert (Eb : (0 <=? 10) && (10 <=? len s) = true)
    by (apply andb_true_iff; split; [reflexivity | exact El]).
  rewrite Eb. eauto.
Qed.

Lemma issueToView_returns (issue : JiraIssue) (server : string) :
  exists view,
    issueToView issue server = Ret view
    /\ ViewKey view = Key issue
    /\ ViewURL view = server ++ "/browse/" ++ Key issue.
Proof.
  unfold issueToView.
  destruct (formatDate_returns (Created (Fields issue))) as [c ->].
  destruct (formatDate_returns (Updated (Fields issue))) as [u ->].
  simpl. eexists. split; [reflexivity|]. now split.
Qed.

Lemma setAt_middle {A : Type} (done rest : list A) (old v : A) :
  setAt (done ++ old :: rest) (List.length done) v
  = Ret (done ++ v :: rest)%list.
Proof.
  induction done as [|d done IH]; simpl; [reflexivity|].
  now rewrite IH.
Qed.

(** The loop writes slot [i] on pass [i]: with [i] views in place and a
    zero view left for each remaining issue, it ends with every slot
    written. *)
Lemma fillViews_spec (server : string) (issues : list JiraIssue)
      (done : list IssueView) :
  exists views,
    Forall2 (fun issue view => issueToView issue server = Ret view)
            issues views
    /\ fillViews server issues (List.length done)
                 (done ++ repeat noView (List.length issues))
       = Ret (done ++ views)%list.
Proof.
  revert done. induction issues as [|issue rest IH]; intros done.
  - exists []. split; [constructor|]. reflexivity.
  - destruct (issueToView_returns issue server) as (view & Hv & _).
    destruct (IH (done ++ [view])%list) as (views & Hall & Hfill).
    exists (view :: views). split; [now constructor|].
    cbn [fillViews List.length repeat]. rewrite Hv. cbn [bind].
    rewrite setAt_middle. cbn [bind].
    rewrite length_app, Nat.add_1_r in Hfill.
    rewrite <- app_assoc in Hfill. simpl in Hfill.
    rewrite Hfill. now rewrite <- app_assoc.
Qed.

(** X10. issuesToViews never panics: the loop over the indices writes
    every slot of the slice it made, so the result holds, for each issue
    and in the order of the issues, the view issueToView gives; in
    particular its keys are the keys of the issues and each URL is the
    server followed by /browse/ and the key. *)
Theorem issuesToViews_one_view_per_issue
        (issues : list JiraIssue) (server : string) :
  exists views,
    issuesToViews issues server = Ret views
    /\ Forall2 (fun issue view => issueToView issue server = Ret view)
               issues views
    /\ map ViewKey views = map Key issues
    /\ map ViewURL views
       = map (fun issue => server ++ "/browse/" ++ Key issue) issues.
Proof.
  destruct (fillViews_spec server issues []) as (views & Hall & Hfill).
  exists views. split; [exact Hfill|]. split; [exact Hall|].
  clear Hfill. induction Hall as [|issue view issues views Hv _ [IHk IHu]];
    [now split|].
  destruct (issueToView_returns issue server) as (view' & Hv' & Hk & Hu).
  rewrite Hv in Hv'. injection Hv' as <-.
  simpl. now rewrite Hk, Hu, IHk, IHu.
Qed.

Lemma commentViews_spec (comments : list JiraComment)
      (acc : list CommentView) :
  exists views,
    commentViews comments acc = Ret (acc ++ views)%list
    /\ Forall2 (fun c view =>
                  ViewAuthor view = userDisplayName (Author c)
                  /\ ViewBody view = adfToText (Body c)
                  /\ formatDate (CommentCreated c)
                     = Ret (ViewCommentCreated view))
               comments views.
Proof.
  revert acc. induction comments as [|c rest IH]; intros acc.
  - exists []. split; [now rewrite app_nil_r | constructor].
  - destruct (formatDate_returns (CommentCreated c)) as [created Hc].
    cbn [commentViews]. rewrite Hc. cbn [bind].
    destruct (IH (acc ++ [{| ViewAuthor := userDisplayName (Author c);
                             ViewBody := adfToText (Body c);
                             ViewCommentCreated := created |}])%list)
      as (views & Hrun & Hall).
    eexists (_ :: views). split.
    + rewrite Hrun. now rewrite <- app_assoc.
    + constructor; [|exact Hall]. simpl. auto.
Qed.

(** X11. issueToDetailView never panics, and the view it returns shows
    every comment it is given, in the order given: one comment view for
    each comment, with the display name of the author, the text of the
    body and the formatted date; the issue part is the view of
    issueToView and the description is the text of the issue's
    description. *)
Theorem issueToDetailView_shows_every_comment
        (issue : JiraIssue) (server : string)
        (comments : list JiraComment) :
  exists detail,
    issueToDetailView issue server comments = Ret detail
    /\ issueToView issue server = Ret (DetailIssueView detail)
    /\ ViewDescription detail = adfToText (Description (Fields issue))
    /\ Forall2 (fun c view =>
                  ViewAuthor view = userDisplayName (Author c)
                  /\ ViewBody view = adfToText (Body c)
                  /\ formatDate (CommentCreated c)
                     = Ret (ViewCommentCreated view))
               comments (ViewComments detail).
Proof.
  unfold issueToDetailView.
  destruct (issueToView_returns issue server) as (view & Hv & _).
  destruct (commentViews_spec comments []) as (views & Hrun & Hall).
  rewrite Hv, Hrun. simpl. eexists. split; [reflexivity|].
  simpl. auto.
Qed.

End Views.

Section Documents.
Context {lib : GoLib}.

(** The text nodes of a paragraph are written one after the other. *)
Lemma extract_texts (texts : list JiraADFText) (n i : Z) :
  Forall (fun t => TextType t = "text") texts ->
  extractChildren n (map textValue texts) i = Join (map Text texts) "".
Proof.
  intros H. revert i. induction H as [|t rest Ht _ IH]; intros i;
    [reflexivity|].
  cbn [map extractChildren textValue]. rewrite IH.
  unfold separator. cbn [mapIndex String.eqb Ascii.eqb Bool.eqb stringOr].
  rewrite Ht. cbn.
  rewrite !app_nil_r_str.
  destruct rest as [|t' rest]; [now rewrite app_nil_r_str | reflexivity].
Qed.

Lemma extract_paragraph (p : JiraADFParagraph) :
  ParagraphType p = "paragraph" ->
  Forall (fun t => TextType t = "text") (ParagraphContent p) ->
  match paragraphValue p with
  | Obj node => adfExtract node = paragraphText p
  | _ => False
  end.
Proof.
  intros Hp Ht. unfold paragraphValue. rewrite adfExtract_unfold.
  cbn [mapIndex String.eqb Ascii.eqb Bool.eqb stringOr].
  rewrite Hp. cbn [listItemEnd String.eqb Ascii.eqb Bool.eqb].
  rewrite extract_texts by exact Ht. simpl.
  apply app_nil_r_str.
Qed.

(** The paragraphs from child [i] on, [n] being the number of children:
    a line feed after each one but the last. *)
Lemma extract_paragraphs (ps : list JiraADFParagraph) (n i : Z) :
  Forall (fun p => ParagraphType p = "paragraph"
                   /\ Forall (fun t => TextType t = "text")
                             (ParagraphContent p)) ps ->
  i + slen ps = n ->
  extractChildren n (map paragraphValue ps) i
  = Join (map paragraphText ps) nl.
Proof.
  intros H. revert i. induction H as [|p rest [Hp Ht] _ IH]; intros i Hn;
    [reflexivity|].
  pose proof (extract_paragraph p Hp Ht) as Hx.
  cbn [map extractChildren]. unfold paragraphValue in *.
  rewrite Hx. cbn [mapIndex String.eqb Ascii.eqb Bool.eqb stringOr].
  rewrite Hp. rewrite IH.
  2:{ unfold slen in *. rewrite length_cons in Hn. lia. }
  unfold separator. cbn [isBlock String.eqb Ascii.eqb Bool.eqb orb andb].
  destruct rest as [|p' rest].
  - assert (E : (i <? n - 1) = false).
    { apply Z.ltb_ge. unfold slen in Hn. simpl in Hn. lia. }
    rewrite E. simpl. now rewrite !app_nil_r_str.
  - assert (E : (i <? n - 1) = true).
    { apply Z.ltb_lt. unfold slen in Hn.
      rewrite !length_cons in Hn. lia. }
    rewrite E. rewrite Join_cons by (simpl; discriminate).
    now rewrite app_assoc_str.
Qed.

(** X12. A node without a text of its own that is not a list item and
    whose content is a list of paragraphs of text nodes yields the texts
    of the paragraphs, each paragraph's text nodes run together, joined
    by single line feeds: a separator between two paragraphs and none
    after the last. *)
Theorem paragraphs_are_joined_by_line_feeds
        (node : list (string * any)) (ps : list JiraADFParagraph) :
  stringOr (mapIndex node "text") = "" ->
  stringOr (mapIndex node "type") <> "listItem" ->
  mapIndex node "content" = Arr (map paragraphValue ps) ->
  Forall (fun p => ParagraphType p = "paragraph"
                   /\ Forall (fun t => TextType t = "text")
                             (ParagraphContent p)) ps ->
  adfExtract node = Join (map paragraphText ps) nl.
Proof.
  intros Htext Htype Hcontent Hps.
  rewrite adfExtract_unfold, Htext, Hcontent.
  rewrite extract_paragraphs; [|exact Hps|].
  - unfold listItemEnd. apply String.eqb_neq in Htype. rewrite Htype.
    simpl. apply app_nil_r_str.
  - unfold slen. rewrite length_map. lia.
Qed.

(** X13. A comment reads back as it was written: the text adfToText
    extracts from the document addComment builds for a text is that text
    with the white space around it dropped. *)
Theorem comment_reads_back (text : string) :
  adfToText (documentValue (RequestBody (commentRequest text)))
  = TrimSpace text.
Proof.
  unfold commentRequest, documentValue. cbn [RequestBody DocumentType
    DocumentContent Version adfToText]. f_equal.
  rewrite adfExtract_unfold.
  cbn [mapIndex String.eqb Ascii.eqb Bool.eqb stringOr].
  rewrite extract_paragraphs.
  - simpl. now rewrite app_nil_r_str.
  - repeat constructor.
  - reflexivity.
Qed.

End Documents.

Section CommandFacts.
Context {lib : GoLib} {wire : Wire}.
Variable remote : Remote.

Lemma requestsOf_app (a b : list Event) :
  requestsOf (a ++ b) = (requestsOf a ++ requestsOf b)%list.
Proof.
  induction a as [|[req|text|text|path b'] a IH]; simpl;
    [reflexivity| |exact IH..].
  now rewrite IH.
Qed.

Lemma matchTransition_no_panic (ts : list JiraTransition) (target : string) :
  matchTransition ts target <> Panic.
Proof.
  destruct (matchTransition_run ts target); discriminate.
Qed.

(** A step followed by the rest: either the step gave a value and the
    rest ran from the world it left, or the step's failure is the
    outcome. *)
Lemma andThen_inv {W A B : Type} (m : Cmd W A) (k : A -> Cmd W B)
      (w w' : W) (r : Result B) :
  andThen m k w = (w', r) ->
  (exists w1 a, m w = (w1, Ok a) /\ k a w1 = (w', r))
  \/ (exists err, m w = (w', Err err) /\ r = Err err)
  \/ (m w = (w', Crash) /\ r = Crash).
Proof.
  unfold andThen. destruct (m w) as [w1 [a|err|]]; intros H.
  - left. eauto.
  - right. left. injection H as <- <-. eauto.
  - right. right. injection H as <- <-. eauto.
Qed.

Lemma orFail_inv {W A : Type} (x : string + A) (w w' : W) (r : Result A) :
  orFail x w = (w', r) ->
  w' = w /\ r = match x with inl err => Err err | inr a => Ok a end.
Proof. destruct x; intros [= <- <-]; now split. Qed.

(** What a GET does: nothing when the request cannot be built; else it
    hands one request to the client and turns the answer into the
    outcome. *)
Lemma getJSON_inv {A : Type} (client : basicAuthTransport)
      (decode : string -> string + A) (u : string)
      (w w' : World remote) (r : Result A) :
  getJSON remote client decode u w = (w', r) ->
  (w' = w /\ exists err, r = Err err)
  \/ exists get c answer,
       Method get = "GET" /\ URL get = u /\ Payload get = None
       /\ baseRoundTrip remote (conn w) get = (c, answer)
       /\ w' = {| conn := c; events := (events w ++ [Sends get])%list |}
       /\ r = match answer with
              | inl err => Err (requestFailed err)
              | inr resp =>
                  match decodeAPIResponse decode resp with
                  | inl err => Err err
                  | inr a => Ok a
                  end
              end.
Proof.
  unfold getJSON, newRequest. intros H.
  apply andThen_inv in H.
  destruct H as [(w1 & req & H1 & H)|[(err & H1 & ->)|[H1 _]]];
    apply orFail_inv in H1 as [-> H1].
  - destruct (requestError "GET" u); [discriminate|].
    injection H1 as ->.
    apply andThen_inv in H.
    unfold clientDo, RoundTrip in H. cbv zeta in H.
    destruct (baseRoundTrip remote (conn w) _) as [c answer] eqn:Ert.
    destruct H as [(w2 & a & [= <- <-] & H)|[(err & [=] & _)|[[=] _]]].
    right. eexists _, c, answer.
    split; [|split; [|split; [|split; [exact Ert|split]]]];
      try reflexivity.
    + destruct answer as [err|resp]; [now injection H|].
      apply orFail_inv in H as [-> _]. reflexivity.
    + destruct answer as [err|resp]; [now injection H|].
      apply orFail_inv in H as [_ ->].
      now destruct (decodeAPIResponse decode resp).
  - left. split; [reflexivity|]. eauto.
  - destruct (requestError "GET" u); discriminate.
Qed.

(** What a request with a body does: nothing when it cannot be built;
    else it hands one request to the client and succeeds exactly on the
    expected status. *)
Lemma sendJSON_inv (client : basicAuthTransport) (method u b : string)
      (expected : Z) (w w' : World remote) (r : Result unit) :
  sendJSON remote client method u b expected w = (w', r) ->
  (w' = w /\ exists err, r = Err err)
  \/ exists req c answer,
       Method req = method /\ URL req = u /\ Payload req = Some b
       /\ baseRoundTrip remote (conn w) req = (c, answer)
       /\ w' = {| conn := c; events := (events w ++ [Sends req])%list |}
       /\ r = match answer with
              | inl err => Err (requestFailed err)
              | inr resp =>
                  if StatusCode resp =? expected then Ok tt
                  else Err (apiError resp)
              end.
Proof.
  unfold sendJSON, newRequest. intros H.
  apply andThen_inv in H.
  destruct H as [(w1 & req & H1 & H)|[(err & H1 & ->)|[H1 _]]];
    apply orFail_inv in H1 as [-> H1].
  - destruct (requestError method u); [discriminate|].
    injection H1 as ->.
    apply andThen_inv in H.
    unfold clientDo, RoundTrip in H. cbv zeta in H.
    destruct (baseRoundTrip remote (conn w) _) as [c answer] eqn:Ert.
    destruct H as [(w2 & a & [= <- <-] & H)|[(err & [=] & _)|[[=] _]]].
    right. eexists _, c, answer.
    split; [|split; [|split; [|split; [exact Ert|split]]]];
      try reflexivity.
    + destruct answer as [err|resp]; [now injection H|].
      destruct (StatusCode resp =? expected); now injection H.
    + destruct answer as [err|resp]; [now injection H|].
      destruct (StatusCode resp =? expected); now injection H.
  - left. split; [reflexivity|]. eauto.
  - destruct (requestError method u); discriminate.
Qed.

Lemma printJSON_inv (os : Os) (v : Shown) (w w' : World remote)
      (r : Result unit) :
  printJSON remote os v w = (w', r) ->
  (w' = w /\ exists err, r = Err err)
  \/ exists json,
       marshalShown
         (TrimSpace (Getenv os "JIRACTL_JSON_PRETTY") =? "1")%string v
       = inr json
       /\ w' = {| conn := conn w;
                  events := (events w ++ [Stdout (json ++ nl)])%list |}
       /\ r = Ok tt.
Proof.
  unfold printJSON. intros H. apply andThen_inv in H.
  destruct H as [(w1 & json & H1 & H)|[(err & H1 & ->)|[H1 _]]];
    apply orFail_inv in H1 as [-> H1].
  - right. exists json. split.
    + destruct (marshalShown _ v); [discriminate | now injection H1 as ->].
    + injection H as <- <-. now split.
  - left. split; [reflexivity|]. eauto.
  - destruct (marshalShown _ v); discriminate.
Qed.


(** The lines a transition ends with: the JSON of the result, or the
    warning on the error stream, if any, and the report. *)
Lemma lift_inv {W A : Type} (m : Go A) (w w' : W) (r : Result A) :
  lift m w = (w', r) ->
  w' = w /\ r = match m with Ret a => Ok a | Panic => Crash end.
Proof. destruct m; intros [= <- <-]; now split. Qed.

(** Every run of runIssuesTransition: it stops before any request, or
    after the GET, or after the POST, or it reports. *)
Lemma runIssuesTransition_inv (os : Os) (status : string) (jsonOut : bool)
      (remaining : list string) (w w' : World remote) (r : Result unit) :
  runIssuesTransition remote os status jsonOut remaining w = (w', r) ->
  (w' = w /\ exists err, r = Err err)
  \/ exists first rest cfg get c1 answer1,
       remaining = first :: rest /\ status <> ""
       /\ loadAuthConfig os = (cfg, None)
       /\ Method get = "GET"
       /\ URL get = issueURL cfg (ToUpper first) "/transitions"
       /\ baseRoundTrip remote (conn w) get = (c1, answer1)
       /\ ((w' = {| conn := c1; events := (events w ++ [Sends get])%list |}
            /\ exists err, r = Err err)
           \/ exists resp1 ts t matchedBy warning b post c2 answer2,
                answer1 = inr resp1
                /\ decodeAPIResponse decodeTransitions resp1 = inr ts
                /\ matchTransition ts status
                   = Ret (t, matchedBy, warning, None)
                /\ marshalTransitionRequest (ID t) = inr b
                /\ Method post = "POST" /\ URL post = URL get
                /\ Payload post = Some b
                /\ baseRoundTrip remote c1 post = (c2, answer2)
                /\ ((w' = {| conn := c2;
                             events := ((events w ++ [Sends get])
                                        ++ [Sends post])%list |}
                     /\ exists err, r = Err err)
                    \/ exists resp2 out,
                         answer2 = inr resp2 /\ StatusCode resp2 = 204
                         /\ r = Ok tt
                         /\ w' = {| conn := c2;
                                    events := (((events w ++ [Sends get])
                                                ++ [Sends post])
                                               ++ out)%list |}
                         /\ if jsonOut then
                              exists json, out = [Stdout (json ++ nl)]
                            else
                              out = ((if (warning =? "")%string then []
                                      else [Stderr ("warning: " ++ warning
                                                    ++ nl)])
                                     ++ [Stdout (ToUpper first
                                                 ++ " transitioned to "
                                                 ++ Name t ++ nl)])%list)).
Proof.
  intros H. unfold runIssuesTransition in H.
  destruct remaining as [|first rest];
    [injection H as <- <-; left; eauto|].
  destruct (String.eqb_spec status "") as [Es|Es];
    [injection H as <- <-; left; eauto|].
  apply andThen_inv in H.
  unfold authConfig in H.
  destruct (loadAuthConfig os) as [cfg [e|]] eqn:Eauth.
  { destruct H as [(? & ? & [=] & _)|[(err & [= <- <-] & ->)|[[=] _]]].
    left. eauto. }
  destruct H as [(w1 & cfg' & [= <- <-] & H)|[(err & [=] & _)|[[=] _]]].
  apply andThen_inv in H. unfold getTransitions in H.
  destruct H as [(w1 & ts & Hget & H)|[(err & Hget & ->)|[Hget ->]]];
    apply getJSON_inv in Hget;
    destruct Hget as [[-> [e He]]
                     |(get & c1 & answer1 & Hm & Hu & _ & Hrt & -> & Hr)];
    try discriminate; try (left; now eauto).
  2:{ right. exists first, rest, cfg, get, c1, answer1.
      repeat (split; [first [assumption | reflexivity]|]). left. eauto. }
  2:{ destruct answer1 as [e|resp]; [discriminate|].
      destruct (decodeAPIResponse decodeTransitions resp); discriminate. }
  right. exists first, rest, cfg, get, c1, answer1.
  repeat (split; [first [assumption | reflexivity]|]).
  destruct answer1 as [e|resp1]; [discriminate|].
  destruct (decodeAPIResponse decodeTransitions resp1) as [e|ts'] eqn:Edec;
    [discriminate|]. injection Hr as ->.
  apply andThen_inv in H.
  destruct H as [(w2 & found & Hlift & H)|[(err & Hlift & ->)|[Hlift ->]]];
    apply lift_inv in Hlift as [-> Hlift];
    pose proof (matchTransition_no_panic ts' status) as Hnp;
    destruct (matchTransition ts' status)
      as [[[[t matchedBy] warning] err']|] eqn:Em;
    try contradiction; try discriminate.
  injection Hlift as ->.
  destruct err' as [err'|]; [injection H as <- <-; left; eauto|].
  apply andThen_inv in H. unfold doTransition in H.
  destruct H as [(w3 & [] & Hdo & H)|[(err & Hdo & ->)|[Hdo ->]]];
    apply andThen_inv in Hdo;
    destruct Hdo as [(w4 & b & Hb & Hdo)|[(err2 & Hb & Hr)|[Hb Hr]]];
    apply orFail_inv in Hb as [-> Hb];
    destruct (marshalTransitionRequest (ID t)) as [e|b'] eqn:Emar;
    try discriminate; try (left; now eauto).
  all: injection Hb as ->.
  all: apply sendJSON_inv in Hdo.
  all: destruct Hdo as [[-> [e He]]
                       |(post & c2 & answer2 & Hpm & Hpu & Hpp & Hprt
                         & -> & Hpr)];
    try discriminate; try (left; now eauto).
  all: right; exists resp1, ts', t, matchedBy, warning, b', post, c2, answer2.
  all: rewrite Hu.
  all: repeat (split; [first [assumption | reflexivity]|]).
  - destruct answer2 as [e|resp2]; [discriminate|].
    destruct (Z.eqb_spec (StatusCode resp2) 204) as [E204|E204];
      [|discriminate].
    destruct jsonOut.
    + apply printJSON_inv in H.
      destruct H as [[-> [e He]]|(json & Hjson & -> & ->)].
      * left. eauto.
      * right. exists resp2, [Stdout (json ++ nl)]. repeat split; eauto.
    + right. exists resp2.
      exists ((if (warning =? "")%string then []
               else [Stderr ("warning: " ++ warning ++ nl)])
              ++ [Stdout (ToUpper first ++ " transitioned to "
                          ++ Name t ++ nl)])%list.
      split; [reflexivity|]. split; [exact E204|].
      destruct (warning =? "")%string; cbn [negb] in H;
        unfold andThen, emit, ret in H; cbn [conn events] in H;
        injection H as <- <-.
      * split; [reflexivity|]. split; [|reflexivity]. reflexivity.
      * split; [reflexivity|]. split; [|reflexivity].
        now rewrite <- app_assoc.
  - left. eauto.
  - exfalso. destruct answer2 as [e|resp2]; [discriminate|].
    destruct (StatusCode resp2 =? 204); discriminate.
Qed.

(** X18. runIssuesTransition never panics and sends at most two requests:
    a GET and then possibly one POST to the same URL.  The POST goes out
    only after the server has answered the GET with a list of transitions,
    and its body is the marshalled id of a transition of that list: the
    command never asks for a transition the server did not offer. *)
Theorem transition_posts_a_listed_id
        (os : Os) (status : string) (jsonOut : bool)
        (remaining : list string) (w : World remote) :
  let run := runIssuesTransition remote os status jsonOut remaining w in
  snd run <> Crash
  /\ exists new,
       events (fst run) = (events w ++ new)%list
       /\ (requestsOf new = []
           \/ (exists get, requestsOf new = [get] /\ Method get = "GET")
           \/ exists get post c1 resp1 ts t b,
                requestsOf new = [get; post]
                /\ Method get = "GET" /\ Method post = "POST"
                /\ URL post = URL get
                /\ baseRoundTrip remote (conn w) get = (c1, inr resp1)
                /\ decodeAPIResponse decodeTransitions resp1 = inr ts
                /\ In t ts
                /\ marshalTransitionRequest (ID t) = inr b
                /\ Payload post = Some b).
Proof.
  cbv zeta.
  destruct (runIssuesTransition remote os status jsonOut remaining w)
    as [w' r] eqn:H.
  apply runIssuesTransition_inv in H. cbn [fst snd].
  destruct H as [[-> [e ->]]|H].
  { split; [discriminate|]. exists []. rewrite app_nil_r. auto. }
  destruct H as (first & rest & cfg & get & c1 & answer1 & _ & _ & _ & Hm
                 & Hu & Hrt & H).
  destruct H as [[-> [e ->]]|H].
  { split; [discriminate|]. exists [Sends get]. split; [reflexivity|].
    right. left. exists get. now split. }
  destruct H as (resp1 & ts & t & matchedBy & warning & b & post & c2
                 & answer2 & -> & Hdec & Hmatch & Hmar & Hpm & Hpu & Hpp
                 & Hprt & H).
  assert (Hin : In t ts).
  { apply matchTransition_success in Hmatch.
    destruct Hmatch as (_ & _ & _ & Hin & _).
    exact (winningCandidates_subset _ _ _ _ Hin). }
  assert (Hreq : forall out,
             (forall e, In e out -> forall req, e <> Sends req) ->
             requestsOf ([Sends get; Sends post] ++ out) = [get; post]).
  { intros out Hout. cbn. f_equal. f_equal.
    induction out as [|[req|text|text|path b0] out IH];
      [reflexivity| |apply IH..].
    1: exfalso; apply (Hout (Sends req) (or_introl eq_refl) req eq_refl).
    all: intros e He; apply Hout; now right. }
  destruct H as [[-> [e ->]]|(resp2 & out & _ & _ & -> & -> & Hout)].
  - split; [discriminate|]. exists [Sends get; Sends post].
    split; [now rewrite <- app_assoc|].
    right. right. exists get, post, c1, resp1, ts, t, b.
    repeat (split; [first [assumption | reflexivity]|]). assumption.
  - split; [discriminate|]. exists ([Sends get; Sends post] ++ out)%list.
    split; [cbn [events]; now rewrite <- !app_assoc|].
    right. right. exists get, post, c1, resp1, ts, t, b.
    split.
    { apply Hreq. destruct jsonOut.
      - destruct Hout as [json ->]. intros e [<-|[]]; discriminate.
      - subst out. destruct (warning =? "")%string;
          intros e [<-|He]; try discriminate; try contradiction.
        destruct He as [<-|[]]. discriminate. }
    repeat (split; [first [assumption | reflexivity]|]). assumption.
Qed.

(** X19. When runIssuesTransition succeeds, the server has answered the
    POST with 204 No Content for a transition that matchTransition
    selected from the list the server sent for the issue, whose key is
    the first argument in upper case; without --json the command then
    writes the warning, if there is one, to the error stream and ends
    with the line KEY transitioned to NAME, NAME being the name of the
    selected transition. *)
Theorem transition_success_report
        (os : Os) (status : string) (remaining : list string)
        (w w' : World remote) :
  runIssuesTransition remote os status false remaining w = (w', Ok tt) ->
  exists first rest cfg get c1 resp1 ts t matchedBy warning post c2 resp2 b,
    remaining = first :: rest
    /\ loadAuthConfig os = (cfg, None)
    /\ Method get = "GET"
    /\ URL get = issueURL cfg (ToUpper first) "/transitions"
    /\ baseRoundTrip remote (conn w) get = (c1, inr resp1)
    /\ decodeAPIResponse decodeTransitions resp1 = inr ts
    /\ matchTransition ts status = Ret (t, matchedBy, warning, None)
    /\ marshalTransitionRequest (ID t) = inr b
    /\ Method post = "POST"
    /\ URL post = URL get /\ Payload post = Some b
    /\ baseRoundTrip remote c1 post = (c2, inr resp2)
    /\ StatusCode resp2 = 204
    /\ conn w' = c2
    /\ events w'
       = (events w ++ [Sends get; Sends post]
          ++ (if (warning =? "")%string then []
              else [Stderr ("warning: " ++ warning ++ nl)])
          ++ [Stdout (ToUpper first ++ " transitioned to " ++ Name t
                      ++ nl)])%list.
Proof.
  intros H. apply runIssuesTransition_inv in H.
  destruct H as [[_ [e [=]]]|H].
  destruct H as (first & rest & cfg & get & c1 & answer1 & -> & _ & Hcfg
                 & Hgm & Hu & Hrt & H).
  destruct H as [[_ [e [=]]]|H].
  destruct H as (resp1 & ts & t & matchedBy & warning & b & post & c2
                 & answer2 & -> & Hdec & Hmatch & Hmar & Hpm & Hpu & Hpp
                 & Hprt & H).
  destruct H as [[_ [e [=]]]|(resp2 & out & -> & H204 & _ & -> & ->)].
  exists first, rest, cfg, get, c1, resp1, ts, t, matchedBy, warning,
    post, c2, resp2, b.
  repeat (split; [first [assumption | reflexivity]|]).
  cbn [events]. now rewrite <- !app_assoc.
Qed.

(** X30. A status of white space only is refused late: it passes the
    command's own check for an empty --status, so the transitions of the
    issue are fetched, and only then does matchTransition refuse it; the
    command returns the error --status is required after exactly one
    request, the GET, and posts nothing. *)
Theorem blank_status_is_refused_after_the_fetch
        (os : Os) (status : string) (jsonOut : bool)
        (first : string) (rest : list string) (w : World remote)
        (cfg : Config) (c : Conn remote) (resp : Response)
        (ts : list JiraTransition) :
  status <> "" ->
  TrimSpace status = "" ->
  loadAuthConfig os = (cfg, None) ->
  let u := issueURL cfg (ToUpper first) "/transitions" in
  let get := authorized (clientOf cfg)
               (setHeader "Accept" "application/json"
                  {| Method := "GET"; URL := u; Header := [];
                     Payload := None |}) in
  requestError "GET" u = None ->
  baseRoundTrip remote (conn w) get = (c, inr resp) ->
  decodeAPIResponse decodeTransitions resp = inr ts ->
  runIssuesTransition remote os status jsonOut (first :: rest) w
  = ({| conn := c; events := (events w ++ [Sends get])%list |},
     Err "--status is required").
Proof.
  intros Hne Hblank Hcfg u get Hreq Hrt Hdec.
  unfold runIssuesTransition.
  apply String.eqb_neq in Hne. rewrite Hne.
  unfold andThen, authConfig. rewrite Hcfg. cbn [ret].
  unfold getTransitions, getJSON, andThen, newRequest.
  fold u. rewrite Hreq. cbn [orFail ret].
  unfold clientDo, RoundTrip. cbv zeta. fold get. rewrite Hrt.
  rewrite Hdec. cbn [orFail ret].
  unfold matchTransition. rewrite Hblank. reflexivity.
Qed.

(** How runIssuesAssign finds the assignee: nothing is sent when the
    lookup request cannot be built; else one GET goes out, and a value
    comes back only when the answer names a reporter with an account id
    (no e-mail address given) or at least one user (address given). *)
Lemma resolveAssignee_inv (cfg : Config) (issueKey email : string)
      (w w' : World remote) (r : Result (string * string * string)) :
  resolveAssignee remote cfg issueKey email w = (w', r) ->
  (w' = w /\ exists err, r = Err err)
  \/ exists lookup c answer,
       Method lookup = "GET"
       /\ baseRoundTrip remote (conn w) lookup = (c, answer)
       /\ w' = {| conn := c; events := (events w ++ [Sends lookup])%list |}
       /\ ((exists err, r = Err err)
           \/ exists resp accountID displayName assigneeEmail,
                answer = inr resp
                /\ r = Ok (accountID, displayName, assigneeEmail)
                /\ if (email =? "")%string then
                     exists issue reporter,
                       URL lookup = issueURL cfg issueKey issueFields
                       /\ decodeAPIResponse decodeIssue resp = inr issue
                       /\ Reporter (Fields issue) = Some reporter
                       /\ AccountID reporter <> ""
                       /\ accountID = AccountID reporter
                       /\ displayName = DisplayName reporter
                       /\ assigneeEmail = EmailAddress reporter
                   else
                     exists user others,
                       searchURL (Server cfg ++ "/rest/api/3/user/search")
                                 email = inr (URL lookup)
                       /\ decodeAPIResponse decodeUsers resp
                          = inr (user :: others)
                       /\ accountID = AccountID user
                       /\ displayName = DisplayName user
                       /\ assigneeEmail = EmailAddress user).
Proof.
  unfold resolveAssignee. intros H.
  destruct (email =? "")%string.
  - apply andThen_inv in H. unfold getIssue in H.
    destruct H as [(w1 & issue & Hget & H)|[(err & Hget & ->)|[Hget ->]]];
      apply getJSON_inv in Hget;
      destruct Hget as [[-> [e He]]
                       |(get & c1 & answer1 & Hm & Hu & _ & Hrt & -> & Hr)];
      try discriminate; try (left; now eauto).
    + right. exists get, c1, answer1. repeat (split; [assumption|]).
      destruct answer1 as [e|resp]; [discriminate|].
      destruct (decodeAPIResponse decodeIssue resp) as [e|issue']
        eqn:Edec; [discriminate|]. injection Hr as ->.
      destruct (Reporter (Fields issue')) as [reporter|] eqn:Erep;
        [|injection H as <- <-; split; [reflexivity|]; left; eauto].
      destruct (String.eqb_spec (AccountID reporter) "") as [Ea|Ea];
        injection H as <- <-; (split; [reflexivity|]); [left; eauto|].
      right. exists resp, (AccountID reporter), (DisplayName reporter),
               (EmailAddress reporter).
      split; [reflexivity|]. split; [reflexivity|].
      exists issue', reporter. repeat split; assumption.
    + right. exists get, c1, answer1. repeat (split; [assumption|]).
      split; [reflexivity|]. left. eauto.
    + destruct answer1 as [e|resp]; [discriminate|].
      destruct (decodeAPIResponse decodeIssue resp); discriminate.
  - apply andThen_inv in H. unfold searchUser in H.
    destruct H as [(w1 & users & Hs & H)|[(err & Hs & ->)|[Hs ->]]];
      apply andThen_inv in Hs;
      destruct Hs as [(w0 & u & Hu & Hget)|[(err0 & Hu & Hr0)|[Hu Hr0]]];
      apply orFail_inv in Hu as [-> Hu];
      destruct (searchURL (Server cfg ++ "/rest/api/3/user/search") email)
        as [e|u'] eqn:Eurl;
      try discriminate; try (left; now eauto).
    all: injection Hu as ->.
    all: apply getJSON_inv in Hget;
      destruct Hget as [[-> [e He]]
                       |(get & c1 & answer1 & Hm & Hu & _ & Hrt & -> & Hr)];
      try discriminate; try (left; now eauto).
    + right. exists get, c1, answer1. repeat (split; [assumption|]).
      destruct answer1 as [e|resp]; [discriminate|].
      destruct (decodeAPIResponse decodeUsers resp) as [e|users']
        eqn:Edec; [discriminate|]. injection Hr as ->.
      destruct users' as [|user others]; injection H as <- <-.
      * split; [reflexivity|]. left. eauto.
      * split; [reflexivity|]. right.
        exists resp, (AccountID user), (DisplayName user),
          (EmailAddress user).
        split; [reflexivity|]. split; [reflexivity|].
        exists user, others. rewrite Hu. repeat split; assumption.
    + right. exists get, c1, answer1. repeat (split; [assumption|]).
      split; [reflexivity|]. left. eauto.
    + destruct answer1 as [e|resp]; [discriminate|].
      destruct (decodeAPIResponse decodeUsers resp); discriminate.
Qed.

Lemma emit_inv (e : Event) (w w' : World remote) (r : Result unit) :
  emit remote e w = (w', r) ->
  w' = {| conn := conn w; events := (events w ++ [e])%list |} /\ r = Ok tt.
Proof. now intros [= <- <-]. Qed.

(** X20. runIssuesAssign never panics and sends at most two requests: a
    GET that looks the assignee up and then possibly one PUT.  The PUT
    carries the marshalled account id of the reporter of the issue the
    server sent, which is then not empty, when no e-mail address was
    given, and of the first user the server found for the address
    otherwise: nobody else is ever assigned. *)
Theorem assign_puts_a_resolved_account
        (os : Os) (email : string) (jsonOut : bool)
        (remaining : list string) (w : World remote) :
  let run := runIssuesAssign remote os email jsonOut remaining w in
  snd run <> Crash
  /\ exists new,
       events (fst run) = (events w ++ new)%list
       /\ (requestsOf new = []
           \/ (exists lookup,
                 requestsOf new = [lookup] /\ Method lookup = "GET")
           \/ exists lookup put c1 resp1 accountID b,
                requestsOf new = [lookup; put]
                /\ Method lookup = "GET" /\ Method put = "PUT"
                /\ baseRoundTrip remote (conn w) lookup = (c1, inr resp1)
                /\ marshalAssignRequest accountID = inr b
                /\ Payload put = Some b
                /\ if (email =? "")%string then
                     exists issue reporter,
                       decodeAPIResponse decodeIssue resp1 = inr issue
                       /\ Reporter (Fields issue) = Some reporter
                       /\ accountID = AccountID reporter
                       /\ accountID <> ""
                   else
                     exists user others,
                       decodeAPIResponse decodeUsers resp1
                       = inr (user :: others)
                       /\ accountID = AccountID user).
Proof.
  cbv zeta.
  destruct (runIssuesAssign remote os email jsonOut remaining w)
    as [w' r] eqn:H.
  cbn [fst snd]. unfold runIssuesAssign in H.
  assert (Hnone : forall e : string,
             Err e <> (Crash : Result unit)
             /\ exists new,
                  events w = (events w ++ new)%list
                  /\ (requestsOf new = []
                      \/ (exists lookup,
                            requestsOf new = [lookup]
                            /\ Method lookup = "GET")
                      \/ exists lookup put c1 resp1 accountID b,
                           requestsOf new = [lookup; put]
                           /\ Method lookup = "GET" /\ Method put = "PUT"
                           /\ baseRoundTrip remote (conn w) lookup
                              = (c1, inr resp1)
                           /\ marshalAssignRequest accountID = inr b
                           /\ Payload put = Some b
                           /\ if (email =? "")%string then
                                exists issue reporter,
                                  decodeAPIResponse decodeIssue resp1
                                  = inr issue
                                  /\ Reporter (Fields issue) = Some reporter
                                  /\ accountID = AccountID reporter
                                  /\ accountID <> ""
                              else
                                exists user others,
                                  decodeAPIResponse decodeUsers resp1
                                  = inr (user :: others)
                                  /\ accountID = AccountID user)).
  { intros e. split; [discriminate|]. exists [].
    rewrite app_nil_r. auto. }
  destruct remaining as [|first rest]; [injection H as <- <-; apply Hnone|].
  apply andThen_inv in H. unfold authConfig in H.
  destruct (loadAuthConfig os) as [cfg [e|]] eqn:Eauth.
  { destruct H as [(? & ? & [=] & _)|[(err & [= <- <-] & ->)|[[=] _]]].
    apply Hnone. }
  destruct H as [(w1 & cfg' & [= <- <-] & H)|[(err & [=] & _)|[[=] _]]].
  apply andThen_inv in H.
  destruct H as [(w1 & who & Hwho & H)|[(err & Hwho & ->)|[Hwho ->]]];
    apply resolveAssignee_inv in Hwho;
    destruct Hwho as [[-> [e He]]
                     |(lookup & c1 & answer1 & Hm & Hrt & -> & Hwho)];
    try discriminate; try apply Hnone.
  2:{ split; [discriminate|]. exists [Sends lookup].
      split; [reflexivity|]. right. left. exists lookup. now split. }
  2:{ destruct Hwho as [[e [=]]|(? & ? & ? & ? & _ & [=] & _)]. }
  destruct Hwho as [[e [=]]
                   |(resp1 & accountID & displayName & assigneeEmail & ->
                     & [= ->] & Hwho)].
  assert (Hone : forall e : string,
             Err e <> (Crash : Result unit)
             /\ exists new,
                  (events w ++ [Sends lookup])%list = (events w ++ new)%list
                  /\ (requestsOf new = []
                      \/ (exists lookup0,
                            requestsOf new = [lookup0]
                            /\ Method lookup0 = "GET")
                      \/ exists lookup0 put c0 resp0 accountID0 b,
                           requestsOf new = [lookup0; put]
                           /\ Method lookup0 = "GET" /\ Method put = "PUT"
                           /\ baseRoundTrip remote (conn w) lookup0
                              = (c0, inr resp0)
                           /\ marshalAssignRequest accountID0 = inr b
                           /\ Payload put = Some b
                           /\ if (email =? "")%string then
                                exists issue reporter,
                                  decodeAPIResponse decodeIssue resp0
                                  = inr issue
                                  /\ Reporter (Fields issue) = Some reporter
                                  /\ accountID0 = AccountID reporter
                                  /\ accountID0 <> ""
                              else
                                exists user others,
                                  decodeAPIResponse decodeUsers resp0
                                  = inr (user :: others)
                                  /\ accountID0 = AccountID user)).
  { intros e. split; [discriminate|]. exists [Sends lookup].
    split; [reflexivity|]. right. left. exists lookup. now split. }
  apply andThen_inv in H. unfold assignIssue in H.
  destruct H as [(w3 & [] & Hdo & H)|[(err & Hdo & ->)|[Hdo ->]]];
    apply andThen_inv in Hdo;
    destruct Hdo as [(w4 & b & Hb & Hdo)|[(err2 & Hb & Hr)|[Hb Hr]]];
    apply orFail_inv in Hb as [-> Hb];
    destruct (marshalAssignRequest accountID) as [e|b'] eqn:Emar;
    try discriminate; try apply Hone.
  all: injection Hb as ->.
  all: apply sendJSON_inv in Hdo.
  all: destruct Hdo as [[-> [e He]]
                       |(put & c2 & answer2 & Hpm & Hpu & Hpp & Hprt
                         & -> & Hpr)];
    try discriminate; try apply Hone.
  3:{ exfalso. destruct answer2 as [e|resp2]; [discriminate|].
      destruct (StatusCode resp2 =? 204); discriminate. }
  all: assert (Hwho' :
                 if (email =? "")%string then
                   exists issue reporter,
                     decodeAPIResponse decodeIssue resp1 = inr issue
                     /\ Reporter (Fields issue) = Some reporter
                     /\ accountID = AccountID reporter
                     /\ accountID <> ""
                 else
                   exists user others,
                     decodeAPIResponse decodeUsers resp1
                     = inr (user :: others)
                     /\ accountID = AccountID user)
    by (destruct (email =? "")%string;
        [destruct Hwho as (issue & reporter & _ & H1 & H2 & H3 & H4 & _);
         exists issue, reporter; subst accountID; auto
        |destruct Hwho as (user & others & _ & H1 & H2 & _);
         exists user, others; auto]).
  - assert (Hout : exists out,
               events w' = (((events w ++ [Sends lookup])
                             ++ [Sends put]) ++ out)%list
               /\ requestsOf out = [] /\ r <> Crash).
    { destruct jsonOut.
      - apply printJSON_inv in H.
        destruct H as [[-> [e ->]]|(json & _ & -> & ->)].
        + exists []. rewrite app_nil_r. repeat split. discriminate.
        + eexists [_]. repeat split. discriminate.
      - destruct (negb (displayName =? "")%string
                  && negb (assigneeEmail =? "")%string);
          [|destruct (negb (displayName =? "")%string)];
          apply emit_inv in H as [-> ->]; eexists [_];
          repeat split; discriminate. }
    destruct Hout as (out & Hev & Hno & Hr). split; [exact Hr|].
    exists ([Sends lookup; Sends put] ++ out)%list. split.
    { rewrite Hev. now rewrite <- !app_assoc. }
    right. right. exists lookup, put, c1, resp1, accountID, b'.
    split; [cbn; now rewrite Hno|].
    repeat (split; [first [assumption | reflexivity]|]). exact Hwho'.
  - split; [discriminate|]. exists [Sends lookup; Sends put].
    split; [cbn [events]; now rewrite <- app_assoc|].
    right. right. exists lookup, put, c1, resp1, accountID, b'.
    repeat (split; [first [assumption | reflexivity]|]). exact Hwho'.
Qed.

(** X21. runIssuesComment never panics and sends at most one request: a
    POST to the comment URL of the issue whose body is the marshalled
    document addComment builds for the text of --body, which is then not
    empty; the command succeeds only when the server answers that POST
    with 201 Created. *)
Theorem comment_posts_the_document
        (os : Os) (body : string) (jsonOut : bool)
        (remaining : list string) (w : World remote) :
  let run := runIssuesComment remote os body jsonOut remaining w in
  snd run <> Crash
  /\ exists new,
       events (fst run) = (events w ++ new)%list
       /\ (requestsOf new = [] /\ snd run <> Ok tt
           \/ exists first rest cfg post b c answer,
                remaining = first :: rest /\ body <> ""
                /\ loadAuthConfig os = (cfg, None)
                /\ requestsOf new = [post]
                /\ Method post = "POST"
                /\ URL post = issueURL cfg (ToUpper first) "/comment"
                /\ marshalCommentRequest (commentRequest body) = inr b
                /\ Payload post = Some b
                /\ baseRoundTrip remote (conn w) post = (c, answer)
                /\ (snd run = Ok tt ->
                    exists resp, answer = inr resp
                                 /\ StatusCode resp = 201)).
Proof.
  cbv zeta.
  destruct (runIssuesComment remote os body jsonOut remaining w)
    as [w' r] eqn:H.
  cbn [fst snd]. unfold runIssuesComment in H.
  assert (Hnone : forall e : string,
             Err e <> (Crash : Result unit)
             /\ exists new,
                  events w = (events w ++ new)%list
                  /\ (requestsOf new = [] /\ Err e <> Ok tt
                      \/ exists first rest cfg post b c answer,
                           remaining = first :: rest /\ body <> ""
                           /\ loadAuthConfig os = (cfg, None)
                           /\ requestsOf new = [post]
                           /\ Method post = "POST"
                           /\ URL post
                              = issueURL cfg (ToUpper first) "/comment"
                           /\ marshalCommentRequest (commentRequest body)
                              = inr b
                           /\ Payload post = Some b
                           /\ baseRoundTrip remote (conn w) post = (c, answer)
                           /\ (Err e = Ok tt ->
                               exists resp, answer = inr resp
                                            /\ StatusCode resp = 201))).
  { intros e. split; [discriminate|]. exists [].
    rewrite app_nil_r. split; [reflexivity|]. left.
    split; [reflexivity | discriminate]. }
  destruct remaining as [|first rest]; [injection H as <- <-; apply Hnone|].
  destruct (String.eqb_spec body "") as [Eb|Eb];
    [injection H as <- <-; apply Hnone|].
  apply andThen_inv in H. unfold authConfig in H.
  destruct (loadAuthConfig os) as [cfg [e|]] eqn:Eauth.
  { destruct H as [(? & ? & [=] & _)|[(err & [= <- <-] & ->)|[[=] _]]].
    apply Hnone. }
  destruct H as [(w1 & cfg' & [= <- <-] & H)|[(err & [=] & _)|[[=] _]]].
  apply andThen_inv in H. unfold addComment in H.
  destruct H as [(w3 & [] & Hdo & H)|[(err & Hdo & ->)|[Hdo ->]]];
    apply andThen_inv in Hdo;
    destruct Hdo as [(w4 & b & Hb & Hdo)|[(err2 & Hb & Hr)|[Hb Hr]]];
    apply orFail_inv in Hb as [-> Hb];
    destruct (marshalCommentRequest (commentRequest body)) as [e|b']
      eqn:Emar;
    try discriminate; try apply Hnone.
  all: injection Hb as ->.
  all: apply sendJSON_inv in Hdo.
  all: destruct Hdo as [[-> [e He]]
                       |(post & c2 & answer2 & Hpm & Hpu & Hpp & Hprt
                         & -> & Hpr)];
    try discriminate; try apply Hnone.
  3:{ exfalso. destruct answer2 as [e|resp2]; [discriminate|].
      destruct (StatusCode resp2 =? 201); discriminate. }
  - assert (Hout : exists out,
               events w' = ((events w ++ [Sends post]) ++ out)%list
               /\ requestsOf out = [] /\ r <> Crash).
    { destruct jsonOut.
      - apply printJSON_inv in H.
        destruct H as [[-> [e ->]]|(json & _ & -> & ->)].
        + exists []. rewrite app_nil_r. repeat split. discriminate.
        + eexists [_]. repeat split. discriminate.
      - apply emit_inv in H as [-> ->]. eexists [_].
        repeat split. discriminate. }
    destruct Hout as (out & Hev & Hno & Hr). split; [exact Hr|].
    exists ([Sends post] ++ out)%list. split.
    { rewrite Hev. now rewrite <- !app_assoc. }
    right. exists first, rest, cfg, post, b', c2, answer2.
    split; [reflexivity|]. split; [exact Eb|]. split; [reflexivity|].
    split; [cbn; now rewrite Hno|].
    repeat (split; [first [assumption | reflexivity]|]).
    intros _. destruct answer2 as [e|resp2]; [discriminate|].
    exists resp2. split; [reflexivity|].
    destruct (Z.eqb_spec (StatusCode resp2) 201); [assumption|discriminate].
  - split; [discriminate|]. exists [Sends post].
    split; [reflexivity|].
    right. exists first, rest, cfg, post, b', c2, answer2.
    split; [reflexivity|]. split; [exact Eb|]. split; [reflexivity|].
    repeat (split; [first [assumption | reflexivity]|]).
    discriminate.
Qed.



(** ** What the requests carry *)

Lemma sendsOnly_silent {A : Type} (P : Request -> Prop)
      (m : Cmd (World remote) A) :
  (forall w, exists out, events (fst (m w)) = (events w ++ out)%list
                         /\ requestsOf out = []) ->
  sendsOnly remote P m.
Proof.
  intros H w. destruct (H w) as (out & Hev & Hno).
  exists out. split; [exact Hev|]. rewrite Hno. constructor.
Qed.

Lemma sendsOnly_ret {A : Type} (P : Request -> Prop) (a : A) :
  sendsOnly remote P (ret a).
Proof.
  apply sendsOnly_silent. intros w. exists []. now rewrite app_nil_r.
Qed.

Lemma sendsOnly_failWith {A : Type} (P : Request -> Prop) (err : string) :
  sendsOnly remote P (failWith (A := A) err).
Proof.
  apply sendsOnly_silent. intros w. exists []. now rewrite app_nil_r.
Qed.

Lemma sendsOnly_orFail {A : Type} (P : Request -> Prop) (x : string + A) :
  sendsOnly remote P (orFail x).
Proof. destruct x; [apply sendsOnly_failWith | apply sendsOnly_ret]. Qed.

Lemma sendsOnly_lift {A : Type} (P : Request -> Prop) (m : Go A) :
  sendsOnly remote P (lift m).
Proof.
  destruct m; [apply sendsOnly_ret|].
  apply sendsOnly_silent. intros w. exists []. now rewrite app_nil_r.
Qed.

Lemma sendsOnly_emit (P : Request -> Prop) (e : Event) :
  requestsOf [e] = [] -> sendsOnly remote P (emit remote e).
Proof. intros H. apply sendsOnly_silent. intros w. now exists [e]. Qed.

Lemma sendsOnly_writeFile (P : Request -> Prop) (os : Os)
      (path b : string) :
  sendsOnly remote P (writeFile remote os path b).
Proof.
  apply sendsOnly_silent. intros w. now exists [Writes path b].
Qed.

Lemma sendsOnly_clientDo (P : Request -> Prop)
      (client : basicAuthTransport) (req : Request) :
  P (authorized client req) -> sendsOnly remote P (clientDo remote client req).
Proof.
  intros H w. unfold clientDo, RoundTrip. cbv zeta.
  destruct (baseRoundTrip remote (conn w) _) as [c answer].
  exists [Sends (authorized client req)]. split; [reflexivity|].
  now constructor.
Qed.

(** A step and the rest: the rest may rely on the value the step gave. *)
Lemma sendsOnly_andThen {A B : Type} (P : Request -> Prop)
      (m : Cmd (World remote) A) (k : A -> Cmd (World remote) B) :
  sendsOnly remote P m ->
  (forall a, (exists w, snd (m w) = Ok a) -> sendsOnly remote P (k a)) ->
  sendsOnly remote P (andThen m k).
Proof.
  intros Hm Hk w. unfold andThen.
  destruct (Hm w) as (new & Hev & Hall).
  destruct (m w) as [w1 [a|err|]] eqn:E; cbn [fst] in Hev;
    [|now exists new..].
  destruct (Hk a (ex_intro _ w (f_equal snd E)) w1) as (new' & Hev' & Hall').
  exists (new ++ new')%list. split.
  - rewrite Hev', Hev. now rewrite app_assoc.
  - rewrite requestsOf_app. apply Forall_app. now split.
Qed.

Lemma sendsOnly_wrapped {A : Type} (P : Request -> Prop) (prefix : string)
      (m : Cmd (World remote) A) :
  sendsOnly remote P m -> sendsOnly remote P (wrapped remote prefix m).
Proof.
  intros Hm w. unfold wrapped. destruct (Hm w) as (new & Hev & Hall).
  exists new. split; [|exact Hall].
  now destruct (m w) as [w1 [a|err|]].
Qed.

Lemma sendsOnly_printJSON (P : Request -> Prop) (os : Os) (v : Shown) :
  sendsOnly remote P (printJSON remote os v).
Proof.
  unfold printJSON. apply sendsOnly_andThen; [apply sendsOnly_orFail|].
  intros b _. now apply sendsOnly_emit.
Qed.

(** The requests of the API calls carry the two headers. *)
Lemma sendsOnly_getJSON {A : Type} (P : Request -> Prop)
      (client : basicAuthTransport) (decode : string -> string + A)
      (u : string) :
  (forall req, Method req = "GET" -> Payload req = None ->
               In ("Accept", "application/json") (Header req) ->
               In ("Authorization", basicAuth client) (Header req) ->
               P req) ->
  sendsOnly remote P (getJSON remote client decode u).
Proof.
  intros HP. unfold getJSON, newRequest.
  apply sendsOnly_andThen; [apply sendsOnly_orFail|]. intros req [w Hreq].
  assert (Hget : Method req = "GET" /\ Payload req = None).
  { destruct (requestError "GET" u); [discriminate|].
    injection Hreq as <-. now split. }
  apply sendsOnly_andThen.
  - apply sendsOnly_clientDo. apply HP; simpl; try apply Hget.
    + apply in_or_app. left. apply in_or_app. right. now left.
    + apply in_or_app. right. now left.
  - intros [err|resp] _; [apply sendsOnly_failWith | apply sendsOnly_orFail].
Qed.

Lemma sendsOnly_sendJSON (P : Request -> Prop)
      (client : basicAuthTransport) (method u b : string) (expected : Z) :
  (forall req, In ("Accept", "application/json") (Header req) ->
               In ("Authorization", basicAuth client) (Header req) ->
               P req) ->
  sendsOnly remote P (sendJSON remote client method u b expected).
Proof.
  intros HP. unfold sendJSON.
  apply sendsOnly_andThen; [apply sendsOnly_orFail|]. intros req _.
  apply sendsOnly_andThen.
  - apply sendsOnly_clientDo. apply HP; simpl.
    + apply in_or_app. left. apply in_or_app. right. now left.
    + apply in_or_app. right. now left.
  - intros [err|resp] _; [apply sendsOnly_failWith|].
    destruct (negb (StatusCode resp =? expected));
      [apply sendsOnly_failWith | apply sendsOnly_ret].
Qed.

Lemma authConfig_ok (os : Os) (cfg : Config) :
  (exists w : World remote, snd (authConfig remote os w) = Ok cfg) ->
  loadAuthConfig os = (cfg, None).
Proof.
  intros [w H]. unfold authConfig in H.
  destruct (loadAuthConfig os) as [cfg' [err|]]; [discriminate|].
  now injection H as ->.
Qed.

Lemma sendsOnly_authConfig (P : Request -> Prop) (os : Os) :
  sendsOnly remote P (authConfig remote os).
Proof.
  unfold authConfig. destruct (loadAuthConfig os) as [cfg [err|]];
    [apply sendsOnly_failWith | apply sendsOnly_ret].
Qed.

(** X23. Every request that runIssuesTransition, runIssuesAssign and
    runIssuesComment hand to the network is signed with the credentials
    loadAuthConfig resolved: it carries the header Authorization with
    Basic and the base64 text of the e-mail address, a colon and the API
    token, and the header Accept: application/json.  No request goes out
    when loadAuthConfig fails. *)
Theorem requests_are_signed (os : Os) :
  let signed req :=
    exists cfg,
      loadAuthConfig os = (cfg, None)
      /\ In ("Authorization",
             "Basic " ++ EncodeToString (Email cfg ++ ":" ++ APIToken cfg))
            (Header req)
      /\ In ("Accept", "application/json") (Header req) in
  (forall status jsonOut remaining,
      sendsOnly remote signed
                (runIssuesTransition remote os status jsonOut remaining))
  /\ (forall address jsonOut remaining,
         sendsOnly remote signed
                   (runIssuesAssign remote os address jsonOut remaining))
  /\ (forall body jsonOut remaining,
         sendsOnly remote signed
                   (runIssuesComment remote os body jsonOut remaining)).
Proof.
  intros signed.
  assert (Hsigned : forall cfg, loadAuthConfig os = (cfg, None) ->
            forall req, In ("Accept", "application/json") (Header req) ->
                        In ("Authorization", basicAuth (clientOf cfg))
                           (Header req) ->
                        signed req).
  { intros cfg Hcfg req Hacc Hauth. exists cfg. now repeat split. }
  split; [|split].
  - intros status jsonOut [|first rest]; [apply sendsOnly_failWith|].
    unfold runIssuesTransition.
    destruct (status =? "")%string; [apply sendsOnly_failWith|].
    apply sendsOnly_andThen; [apply sendsOnly_authConfig|].
    intros cfg Hcfg. apply authConfig_ok in Hcfg.
    apply sendsOnly_andThen.
    { apply sendsOnly_getJSON. intros req _ _.
      apply (Hsigned cfg Hcfg). }
    intros ts _. apply sendsOnly_andThen; [apply sendsOnly_lift|].
    intros [[[t matchedBy] warning] [err|]] _; [apply sendsOnly_failWith|].
    apply sendsOnly_andThen.
    { unfold doTransition.
      apply sendsOnly_andThen; [apply sendsOnly_orFail|]. intros b _.
      apply sendsOnly_sendJSON, (Hsigned cfg Hcfg). }
    intros _ _. destruct jsonOut; [apply sendsOnly_printJSON|].
    apply sendsOnly_andThen.
    { destruct (negb (warning =? "")%string);
        [now apply sendsOnly_emit | apply sendsOnly_ret]. }
    intros _ _. now apply sendsOnly_emit.
  - intros address jsonOut [|first rest]; [apply sendsOnly_failWith|].
    unfold runIssuesAssign.
    apply sendsOnly_andThen; [apply sendsOnly_authConfig|].
    intros cfg Hcfg. apply authConfig_ok in Hcfg.
    apply sendsOnly_andThen.
    { unfold resolveAssignee. destruct (address =? "")%string.
      - apply sendsOnly_andThen.
        { apply sendsOnly_getJSON. intros req _ _.
      apply (Hsigned cfg Hcfg). }
        intros issue _. destruct (Reporter (Fields issue)) as [who|];
          [|apply sendsOnly_failWith].
        destruct (AccountID who =? "")%string;
          [apply sendsOnly_failWith | apply sendsOnly_ret].
      - apply sendsOnly_andThen.
        { unfold searchUser.
          apply sendsOnly_andThen; [apply sendsOnly_orFail|]. intros u _.
          apply sendsOnly_getJSON. intros req _ _.
          apply (Hsigned cfg Hcfg). }
        intros [|user others] _;
          [apply sendsOnly_failWith | apply sendsOnly_ret]. }
    intros [[accountID displayName] assigneeEmail] _.
    apply sendsOnly_andThen.
    { unfold assignIssue.
      apply sendsOnly_andThen; [apply sendsOnly_orFail|]. intros b _.
      apply sendsOnly_sendJSON, (Hsigned cfg Hcfg). }
    intros _ _. destruct jsonOut; [apply sendsOnly_printJSON|].
    destruct (negb (displayName =? "")%string
              && negb (assigneeEmail =? "")%string);
      [now apply sendsOnly_emit|].
    destruct (negb (displayName =? "")%string); now apply sendsOnly_emit.
  - intros body jsonOut [|first rest]; [apply sendsOnly_failWith|].
    unfold runIssuesComment.
    destruct (body =? "")%string; [apply sendsOnly_failWith|].
    apply sendsOnly_andThen; [apply sendsOnly_authConfig|].
    intros cfg Hcfg. apply authConfig_ok in Hcfg.
    apply sendsOnly_andThen.
    { unfold addComment.
      apply sendsOnly_andThen; [apply sendsOnly_orFail|]. intros b _.
      apply sendsOnly_sendJSON, (Hsigned cfg Hcfg). }
    intros _ _. destruct jsonOut; [apply sendsOnly_printJSON|].
    now apply sendsOnly_emit.
Qed.


(** ** The auth commands *)

Lemma resolveToken_inv (os : Os) (secret : string) (w w' : World remote)
      (r : Result string) :
  resolveToken remote os secret w = (w', r) ->
  exists prompt,
    (prompt = [] \/ prompt = [Stdout "API token: "])
    /\ w' = {| conn := conn w; events := (events w ++ prompt)%list |}
    /\ ((exists err, r = Err err)
        \/ exists tok,
             r = Ok tok /\ tok <> ""
             /\ (tok = firstNonEmpty [secret; Getenv os "JIRACTL_API_TOKEN"]
                 \/ (isInteractive os = true
                     /\ exists text, scanLine os = Some text
                                     /\ tok = TrimSpace text))).
Proof.
  unfold resolveToken. intros H.
  destruct (String.eqb_spec
              (firstNonEmpty [secret; Getenv os "JIRACTL_API_TOKEN"]) "")
    as [E|E].
  - destruct (isInteractive os) eqn:Ei; cbn [negb] in H.
    + exists [Stdout "API token: "]. split; [now right|].
      unfold andThen, emit in H. cbn [conn events] in H.
      destruct (scanLine os) as [text|] eqn:Es.
      * destruct (String.eqb_spec (TrimSpace text) "") as [Et|Et];
          injection H as <- <-; (split; [reflexivity|]).
        -- left. eauto.
        -- right. exists (TrimSpace text). repeat split; auto.
           right. split; [reflexivity|]. eauto.
      * rewrite E in H. cbn in H. injection H as <- <-.
        split; [reflexivity|]. left. eauto.
    + exists []. split; [now left|]. injection H as <- <-.
      rewrite app_nil_r. split; [now destruct w|]. left. eauto.
  - exists []. split; [now left|]. injection H as <- <-.
    rewrite app_nil_r. split; [now destruct w|].
    right. eexists. repeat split; auto.
Qed.

Lemma saveConfig_inv (os : Os) (cfg : Config) (w w' : World remote)
      (r : Result unit) :
  saveConfig remote os cfg w = (w', r) ->
  (w' = w /\ exists err, r = Err err)
  \/ exists path b,
       configPath os = inr path /\ marshalConfig cfg = inr b
       /\ w' = {| conn := conn w;
                  events := (events w ++ [Writes path b])%list |}
       /\ r = match WriteFile os path b with
              | Some err => Err err
              | None => Ok tt
              end.
Proof.
  unfold saveConfig. intros H. apply andThen_inv in H.
  destruct H as [(w1 & path & Hp & H)|[(err & Hp & ->)|[Hp _]]];
    apply orFail_inv in Hp as [-> Hp];
    destruct (configPath os) as [e|path'] eqn:Epath;
    try discriminate; try (left; now eauto).
  injection Hp as ->. apply andThen_inv in H.
  destruct H as [(w1 & b & Hb & H)|[(err & Hb & ->)|[Hb _]]];
    apply orFail_inv in Hb as [-> Hb];
    destruct (marshalConfig cfg) as [e|b'] eqn:Emar;
    try discriminate; try (left; now eauto).
  injection Hb as ->. right. exists path', b'.
  unfold writeFile in H. injection H as <- <-. now repeat split.
Qed.

(** Every run of runAuthLogin: it stops before the request, or after the
    request, or it writes the configuration that was verified. *)
Lemma runAuthLogin_inv (os : Os) (server address secret : string)
      (w w' : World remote) (r : Result unit) :
  runAuthLogin remote os server address secret w = (w', r) ->
  let given := firstNonEmpty [server; Getenv os "JIRACTL_SERVER"] in
  let em := firstNonEmpty [address; Getenv os "JIRACTL_EMAIL"] in
  exists prompt,
    (prompt = [] \/ prompt = [Stdout "API token: "])
    /\ ((w' = {| conn := conn w; events := (events w ++ prompt)%list |}
         /\ exists err, r = Err err)
        \/ exists tok get c answer,
             given <> "" /\ em <> "" /\ tok <> ""
             /\ (tok = firstNonEmpty [secret; Getenv os "JIRACTL_API_TOKEN"]
                 \/ (isInteractive os = true
                     /\ exists text, scanLine os = Some text
                                     /\ tok = TrimSpace text))
             /\ Method get = "GET"
             /\ URL get = trimRightByte given "/" ++ "/rest/api/3/myself"
             /\ Header get
                = [("Accept", "application/json");
                   ("Authorization",
                    "Basic " ++ EncodeToString (em ++ ":" ++ tok))]
             /\ baseRoundTrip remote (conn w) get = (c, answer)
             /\ ((w' = {| conn := c;
                          events := ((events w ++ prompt)
                                     ++ [Sends get])%list |}
                  /\ exists err, r = Err err)
                 \/ exists resp user path b,
                      answer = inr resp /\ StatusCode resp = 200
                      /\ decodeUser (ResponseBody resp) = inr user
                      /\ configPath os = inr path
                      /\ marshalConfig
                           {| Server := trimRightByte given "/";
                              Email := em; APIToken := tok |} = inr b
                      /\ ((w' = {| conn := c;
                                   events := (((events w ++ prompt)
                                               ++ [Sends get])
                                              ++ [Writes path b])%list |}
                           /\ exists err, r = Err err)
                          \/ (WriteFile os path b = None /\ r = Ok tt
                              /\ w' = {| conn := c;
                                         events :=
                                           ((((events w ++ prompt)
                                              ++ [Sends get])
                                             ++ [Writes path b])
                                            ++ [Stdout
                                                  ("Authenticated as "
                                                   ++ DisplayName user
                                                   ++ " (" ++ em ++ ") on "
                                                   ++ trimRightByte given "/"
                                                   ++ nl)])%list |})))).
Proof.
  cbv zeta. unfold runAuthLogin. intros H.
  set (given := firstNonEmpty [server; Getenv os "JIRACTL_SERVER"]) in *.
  set (em := firstNonEmpty [address; Getenv os "JIRACTL_EMAIL"]) in *.
  assert (Hstop : forall e : string,
             (w, Err e) = (w', r) ->
             exists prompt,
               (prompt = [] \/ prompt = [Stdout "API token: "])
               /\ (w' = {| conn := conn w;
                           events := (events w ++ prompt)%list |}
                   /\ exists err, r = Err err)).
  { intros e [= <- <-]. exists []. split; [now left|].
    rewrite app_nil_r. split; [now destruct w | eauto]. }
  destruct (String.eqb_spec given "") as [Eg|Eg].
  { destruct (Hstop _ H) as (p & Hp & Hs). exists p. split; [exact Hp|].
    now left. }
  destruct (String.eqb_spec em "") as [Ee|Ee].
  { destruct (Hstop _ H) as (p & Hp & Hs). exists p. split; [exact Hp|].
    now left. }
  clear Hstop. apply andThen_inv in H.
  destruct H as [(w1 & tok & Htok & H)|[(err & Htok & ->)|[Htok ->]]];
    apply resolveToken_inv in Htok;
    destruct Htok as (prompt & Hprompt & -> & Htok);
    exists prompt; (split; [exact Hprompt|]);
    destruct Htok as [[e He]|(tok' & He & Hne & Hfrom)];
    try discriminate; try (left; split; [reflexivity | now eauto]).
  injection He as ->.
  apply andThen_inv in H. unfold newRequest in H.
  destruct H as [(w1 & req & Hreq & H)|[(err & Hreq & ->)|[Hreq ->]]];
    apply orFail_inv in Hreq as [-> Hreq];
    destruct (requestError "GET" _) as [e|];
    try discriminate; try (left; split; [reflexivity | now eauto]).
  injection Hreq as ->.
  apply andThen_inv in H. unfold clientDo, RoundTrip in H. cbv zeta in H.
  destruct (baseRoundTrip remote _ _) as [c answer] eqn:Ert.
  destruct H as [(w2 & a & [= <- <-] & H)|[(err & [=] & _)|[[=] _]]].
  right.
  match type of Ert with
  | baseRoundTrip _ _ ?q = _ => exists tok', q, c, answer
  end.
  split; [exact Eg|]. split; [exact Ee|]. split; [exact Hne|].
  split; [exact Hfrom|]. split; [reflexivity|]. split; [reflexivity|].
  split; [reflexivity|]. split; [exact Ert|].
  destruct answer as [err|resp];
    [injection H as <- <-; left; split; [reflexivity | eauto]|].
  destruct (Z.eqb_spec (StatusCode resp) 200) as [E200|E200];
    cbn [negb] in H;
    [|injection H as <- <-; left; split; [reflexivity | eauto]].
  destruct (decodeUser (ResponseBody resp)) as [err|user] eqn:Euser;
    [injection H as <- <-; left; split; [reflexivity | eauto]|].
  apply andThen_inv in H.
  destruct H as [(w3 & [] & Hsave & H)|[(err & Hsave & ->)|[Hsave ->]]];
    unfold wrapped in Hsave;
    destruct (saveConfig remote os _ _) as [w4 r4] eqn:Es;
    apply saveConfig_inv in Es;
    destruct Es as [[-> [e ->]]|(path & b & Hpath & Hmar & -> & ->)];
    try discriminate.
  - right. exists resp, user, path, b.
    repeat (split; [first [assumption | reflexivity]|]).
    right. destruct (WriteFile os path b) as [e|] eqn:Ew; [discriminate|].
    injection Hsave as <-. split; [reflexivity|].
    apply emit_inv in H as [-> ->]. now split.
  - injection Hsave as <- <-. left. split; [reflexivity | eauto].
  - right. exists resp, user, path, b.
    repeat (split; [first [assumption | reflexivity]|]).
    left. destruct (WriteFile os path b) as [e|] eqn:Ew; [|discriminate].
    injection Hsave as <- <-. split; [reflexivity | eauto].
  - destruct (WriteFile os path b); discriminate.
Qed.


(** X24. runAuthLogin never panics, and it writes the configuration file
    only after the server has accepted the very credentials it writes:
    every write goes to the configuration path, holds the marshalled
    configuration, and comes after a GET of /rest/api/3/myself on the
    server of that configuration, signed with its e-mail address and its
    token, that was answered 200.  When the command succeeds the file
    was written without error. *)
Theorem login_writes_only_verified_credentials
        (os : Os) (server address secret : string) (w : World remote) :
  let run := runAuthLogin remote os server address secret w in
  snd run <> Crash
  /\ exists new,
       events (fst run) = (events w ++ new)%list
       /\ (forall path b,
              In (Writes path b) new ->
              exists cfg get c resp before after,
                configPath os = inr path
                /\ marshalConfig cfg = inr b
                /\ new = (before ++ Sends get :: after)%list
                /\ In (Writes path b) after
                /\ Method get = "GET"
                /\ URL get = Server cfg ++ "/rest/api/3/myself"
                /\ In ("Authorization",
                       "Basic " ++ EncodeToString
                                     (Email cfg ++ ":" ++ APIToken cfg))
                      (Header get)
                /\ baseRoundTrip remote (conn w) get = (c, inr resp)
                /\ StatusCode resp = 200)
       /\ (snd run = Ok tt ->
           exists path b, In (Writes path b) new
                          /\ WriteFile os path b = None).
Proof.
  cbv zeta.
  destruct (runAuthLogin remote os server address secret w)
    as [w' r] eqn:H.
  cbn [fst snd]. apply runAuthLogin_inv in H. cbv zeta in H.
  destruct H as (prompt & Hprompt & H).
  assert (Hquiet : forall path b, ~ In (Writes path b) prompt).
  { intros path b. destruct Hprompt as [->| ->]; [intros []|].
    intros [E|[]]. discriminate. }
  destruct H as [[-> [e ->]]|H].
  { split; [discriminate|]. exists prompt. split; [reflexivity|].
    split; [|discriminate]. intros path b Hin.
    now apply Hquiet in Hin. }
  destruct H as (tok & get & c & answer & Hg & He & Ht & _ & Hm & Hu & Hh
                 & Hrt & H).
  destruct H as [[-> [e ->]]|H].
  { split; [discriminate|]. exists (prompt ++ [Sends get])%list.
    split; [cbn [events]; now rewrite app_assoc|].
    split; [|discriminate]. intros path b Hin.
    apply in_app_or in Hin as [Hin|[E|[]]];
      [now apply Hquiet in Hin | discriminate]. }
  destruct H as (resp & user & path & b & -> & H200 & Huser & Hpath & Hmar
                 & H).
  assert (Hwritten : forall out path' b',
             (forall p q, ~ In (Writes p q) out) ->
             In (Writes path' b')
                (prompt ++ [Sends get; Writes path b] ++ out)%list ->
             exists cfg get0 c0 resp0 before after,
               configPath os = inr path'
               /\ marshalConfig cfg = inr b'
               /\ (prompt ++ [Sends get; Writes path b] ++ out)%list
                  = (before ++ Sends get0 :: after)%list
               /\ In (Writes path' b') after
               /\ Method get0 = "GET"
               /\ URL get0 = Server cfg ++ "/rest/api/3/myself"
               /\ In ("Authorization",
                      "Basic " ++ EncodeToString
                                    (Email cfg ++ ":" ++ APIToken cfg))
                     (Header get0)
               /\ baseRoundTrip remote (conn w) get0 = (c0, inr resp0)
               /\ StatusCode resp0 = 200).
  { intros out path' b' Hout Hin.
    apply in_app_or in Hin as [Hin|[E|[E|Hin]]];
      [now apply Hquiet in Hin | discriminate | | now apply Hout in Hin].
    injection E as <- <-.
    eexists _, get, c, resp, prompt, (Writes path b :: out).
    split; [exact Hpath|]. split; [exact Hmar|].
    split; [reflexivity|]. split; [now left|]. split; [exact Hm|].
    split; [exact Hu|]. split; [rewrite Hh; right; now left|].
    now split. }
  destruct H as [[-> [e ->]]|(Hw & -> & ->)].
  - split; [discriminate|].
    exists (prompt ++ [Sends get; Writes path b] ++ [])%list.
    split; [cbn [events app]; now rewrite <- !app_assoc|].
    split; [|discriminate]. intros path' b'.
    apply Hwritten. intros p q [].
  - split; [discriminate|]. eexists (prompt ++ [_; _] ++ [_])%list.
    split; [cbn [events app]; now rewrite <- !app_assoc|]. split.
    + intros path' b'. apply Hwritten. intros p q [E|[]]. discriminate.
    + intros _. exists path, b. split; [|exact Hw].
      apply in_or_app. right. right. now left.
Qed.

Lemma trimRightByte_fixed (s : string) (c : ascii) :
  lastByte s <> Some c -> trimRightByte s c = s.
Proof.
  induction s as [|b s IH]; [reflexivity|]. intros H.
  destruct s as [|b' s'].
  - simpl in *. destruct (Ascii.eqb_spec b c); congruence.
  - change (lastByte (String b (String b' s')))
      with (lastByte (String b' s')) in H.
    specialize (IH H). cbn [trimRightByte] in *. now rewrite IH.
Qed.

(** X25. What a successful login stores is what later commands load:
    when runAuthLogin has succeeded and written the bytes b to the
    configuration path, then in an environment where that path holds b
    and the three JIRACTL variables are not set, loadAuthConfig succeeds
    with the server (its trailing slashes dropped), the e-mail address and
    the token that the login verified, provided the JSON written decodes
    to the value it was written from and the server is not empty. *)
Theorem login_then_load
        (os os' : Os) (server address secret : string)
        (w w' : World remote) (new : list Event) (path b : string) :
  runAuthLogin remote os server address secret w = (w', Ok tt) ->
  events w' = (events w ++ new)%list ->
  In (Writes path b) new ->
  (forall cfg, marshalConfig cfg = inr b -> unmarshalConfig b = (cfg, None)) ->
  configPath os' = inr path ->
  ReadFile os' path = FileBytes b ->
  Getenv os' "JIRACTL_SERVER" = "" ->
  Getenv os' "JIRACTL_EMAIL" = "" ->
  Getenv os' "JIRACTL_API_TOKEN" = "" ->
  trimRightByte (firstNonEmpty [server; Getenv os "JIRACTL_SERVER"]) "/"
  <> "" ->
  exists cfg get c resp,
    loadAuthConfig os' = (cfg, None)
    /\ Server cfg
       = trimRightByte (firstNonEmpty [server; Getenv os "JIRACTL_SERVER"])
                       "/"
    /\ Email cfg = firstNonEmpty [address; Getenv os "JIRACTL_EMAIL"]
    /\ APIToken cfg <> ""
    /\ In (Sends get) new
    /\ In ("Authorization",
           "Basic " ++ EncodeToString (Email cfg ++ ":" ++ APIToken cfg))
          (Header get)
    /\ baseRoundTrip remote (conn w) get = (c, inr resp)
    /\ StatusCode resp = 200.
Proof.
  intros H Hev Hin Hjson Hpath' Hread Hs He Ht Hserver.
  apply runAuthLogin_inv in H. cbv zeta in H.
  destruct H as (prompt & Hprompt & H).
  destruct H as [[_ [e [=]]]|H].
  destruct H as (tok & get & c & answer & Hg & Hem & Htok & _ & Hm & Hu
                 & Hh & Hrt & H).
  destruct H as [[_ [e [=]]]|H].
  destruct H as (resp & user & path0 & b0 & -> & H200 & Huser & Hpath
                 & Hmar & H).
  destruct H as [[_ [e [=]]]|(Hw & _ & ->)].
  cbn [events] in Hev. rewrite <- !app_assoc in Hev.
  apply app_inv_head in Hev. subst new.
  assert (E : Writes path b = Writes path0 b0).
  { apply in_app_or in Hin as [Hin|[E|[E|[E|[]]]]];
      try discriminate; [|now symmetry].
    destruct Hprompt as [->| ->]; [destruct Hin|].
    destruct Hin as [E|[]]. discriminate. }
  injection E as -> ->.
  specialize (Hjson _ Hmar).
  eexists _, get, c, resp. split.
  - unfold loadAuthConfig, loadConfig. rewrite Hpath', Hread, Hjson.
    unfold resolved, override. rewrite Hs, He, Ht. cbn [negb String.eqb].
    cbn [Server Email APIToken].
    apply String.eqb_neq in Hserver, Hem, Htok.
    rewrite Hserver, Hem, Htok. cbn [orb].
    rewrite trimRightByte_fixed by apply trimRightByte_last.
    reflexivity.
  - cbn [Server Email APIToken].
    split; [reflexivity|]. split; [reflexivity|]. split; [exact Htok|].
    split; [apply in_or_app; right; now left|].
    split; [rewrite Hh; right; now left|]. now split.
Qed.

(** X26. runAuthStatus shows the server and the e-mail address and
    nothing else of the configuration: two environments whose resolved
    configurations agree on the server and the e-mail address (and that
    agree on JIRACTL_JSON_PRETTY) give the same run, whatever their API
    tokens are; and the command sends no request: what it prints comes
    from the configuration alone and is not checked with the server. *)
Theorem status_hides_the_token
        (os os' : Os) (jsonOut : bool) (w : World remote)
        (cfg cfg' : Config) :
  loadAuthConfig os = (cfg, None) ->
  loadAuthConfig os' = (cfg', None) ->
  Server cfg = Server cfg' ->
  Email cfg = Email cfg' ->
  Getenv os "JIRACTL_JSON_PRETTY" = Getenv os' "JIRACTL_JSON_PRETTY" ->
  runAuthStatus remote os jsonOut w = runAuthStatus remote os' jsonOut w
  /\ exists out,
       events (fst (runAuthStatus remote os jsonOut w))
       = (events w ++ out)%list
       /\ requestsOf out = [].
Proof.
  intros Hc Hc' Hs He Hp. unfold runAuthStatus, andThen, authConfig.
  rewrite Hc, Hc'. cbn [ret]. rewrite Hs, He. split.
  - destruct jsonOut; [|reflexivity].
    unfold printJSON. now rewrite Hp.
  - destruct jsonOut.
    + unfold printJSON, andThen, orFail.
      destruct (marshalShown _ _) as [err|json]; cbn.
      * exists []. rewrite app_nil_r. now split.
      * exists [Stdout (json ++ nl)]. now split.
    + cbn. eexists [_; _; _]. split; [now rewrite <- !app_assoc|].
      reflexivity.
Qed.


(** ** issues view *)

Lemma printAll_inv (texts : list string) (w : World remote) :
  printAll remote texts w
  = ({| conn := conn w;
        events := (events w ++ map Stdout texts)%list |}, Ok tt).
Proof.
  revert w. induction texts as [|text rest IH]; intros w.
  - simpl. rewrite app_nil_r. now destruct w.
  - cbn [printAll]. unfold andThen, emit. rewrite IH. cbn [conn events map].
    now rewrite <- app_assoc.
Qed.

Lemma issueToDetailView_returns (issue : JiraIssue) (server : string)
      (comments : list JiraComment) :
  exists view,
    issueToDetailView issue server comments = Ret view
    /\ List.length (ViewComments view) = List.length comments.
Proof.
  unfold issueToDetailView.
  destruct (issueToView_returns issue server) as (v & Hv & _).
  destruct (commentViews_spec comments []) as (views & Hrun & Hall).
  rewrite Hv, Hrun. simpl. eexists. split; [reflexivity|].
  simpl. symmetry. exact (Forall2_length Hall).
Qed.


(** X28. runIssuesView only reads: it never panics, every request it
    sends is a GET without a body, signed like the requests of the other
    commands, and no request is sent at all when the comment limit is
    not positive, the issue key is missing or loadAuthConfig fails. *)
Theorem view_only_reads
        (os : Os) (commentLimit : Z) (jsonOut : bool)
        (remaining : list string) :
  let reads req :=
    Method req = "GET" /\ Payload req = None
    /\ exists cfg,
         loadAuthConfig os = (cfg, None)
         /\ In ("Authorization",
                "Basic " ++ EncodeToString
                              (Email cfg ++ ":" ++ APIToken cfg))
               (Header req) in
  sendsOnly remote reads
            (runIssuesView remote os commentLimit jsonOut remaining)
  /\ (forall w,
         snd (runIssuesView remote os commentLimit jsonOut remaining w)
         <> Crash)
  /\ (commentLimit <= 0 ->
      forall w,
        fst (runIssuesView remote os commentLimit jsonOut remaining w) = w).
Proof.
  intros reads. split; [|split].
  - unfold runIssuesView.
    destruct (commentLimit <=? 0); [apply sendsOnly_failWith|].
    destruct remaining as [|first rest]; [apply sendsOnly_failWith|].
    apply sendsOnly_andThen; [apply sendsOnly_authConfig|].
    intros cfg Hcfg. apply authConfig_ok in Hcfg.
    assert (Hreads : forall req,
               Method req = "GET" -> Payload req = None ->
               In ("Accept", "application/json") (Header req) ->
               In ("Authorization", basicAuth (clientOf cfg)) (Header req)
               -> reads req).
    { intros req Hm Hp _ Ha. split; [exact Hm|]. split; [exact Hp|].
      exists cfg. now split. }
    apply sendsOnly_andThen; [apply sendsOnly_getJSON, Hreads|].
    intros issue _. apply sendsOnly_andThen.
    { unfold getComments.
      apply sendsOnly_andThen; [apply sendsOnly_orFail|]. intros u _.
      apply sendsOnly_getJSON, Hreads. }
    intros comments _. apply sendsOnly_andThen; [apply sendsOnly_lift|].
    intros view _. destruct jsonOut; [apply sendsOnly_printJSON|].
    apply sendsOnly_silent. intros w. rewrite printAll_inv. cbn [fst events].
    eexists. split; [reflexivity|].
    induction (detailOutput view) as [|text texts IH]; [reflexivity|].
    exact IH.
  - intros w.
    destruct (runIssuesView remote os commentLimit jsonOut remaining w)
      as [w' r] eqn:H. cbn [snd]. intros ->.
    unfold runIssuesView in H.
    destruct (commentLimit <=? 0); [discriminate|].
    destruct remaining as [|first rest]; [discriminate|].
    apply andThen_inv in H. unfold authConfig in H.
    destruct (loadAuthConfig os) as [cfg [e|]].
    { destruct H as [(? & ? & [=] & _)|[(err & _ & [=])|[[=] _]]]. }
    destruct H as [(w1 & cfg' & [= <- <-] & H)|[(err & _ & [=])|[[=] _]]].
    apply andThen_inv in H. unfold getIssue in H.
    destruct H as [(w1 & issue & Hget & H)|[(err & _ & [=])|[Hget _]]];
      apply getJSON_inv in Hget;
      destruct Hget as [[_ [e [=]]]
                       |(getI & c1 & answer1 & _ & _ & _ & _ & -> & Hr1)].
    2:{ destruct answer1 as [e|resp1]; [discriminate|].
        destruct (decodeAPIResponse decodeIssue resp1); discriminate. }
    apply andThen_inv in H. unfold getComments in H.
    destruct H as [(w2 & comments & Hcom & H)|[(err & _ & [=])|[Hcom _]]];
      apply andThen_inv in Hcom;
      destruct Hcom as [(w3 & u & Hurl & Hcom)|[(err & Hurl & [=])
                                               |[Hurl _]]];
      apply orFail_inv in Hurl as [-> Hurl];
      destruct (commentsURL _ commentLimit) as [e|u'];
      try discriminate;
      apply getJSON_inv in Hcom;
      destruct Hcom as [[_ [e [=]]]
                       |(getC & c2 & answer2 & _ & _ & _ & _ & -> & Hr2)].
    2:{ destruct answer2 as [e|resp2]; [discriminate|].
        destruct (decodeAPIResponse decodeComments resp2); discriminate. }
    destruct (issueToDetailView_returns issue (Server cfg) comments)
      as (view & Hview & _).
    apply andThen_inv in H. rewrite Hview in H. cbn [lift ret] in H.
    destruct H as [(w4 & view' & [= <- <-] & H)|[(err & [=] & _)|[[=] _]]].
    destruct jsonOut.
    + apply printJSON_inv in H.
      destruct H as [[_ [e [=]]]|(_ & _ & _ & [=])].
    + rewrite printAll_inv in H. discriminate.
  - intros Hl w. unfold runIssuesView.
    destruct (Z.leb_spec commentLimit 0) as [_|Hgt]; [reflexivity | lia].
Qed.

End CommandFacts.

End CliFacts.

(* ------------------------------------------------------------------ *)
(** * Runs on concrete inputs *)
(* ------------------------------------------------------------------ *)

Module Runs.
Import Samples.

(** The repository's tests, run on the model. *)
Example test_exact_wins :
  matchTransition doneLast "Done" = Ret (tr "2" "Done", "exact", "", None).
Proof. reflexivity. Qed.

Example test_prefix_ambiguity_warns :
  matchTransition doneFirst "Do"
  = Ret (tr "10" "Done", "prefix",
         "status " ++ quoted "Do"
         ++ " matched multiple transitions (Done, Done (QA)); using "
         ++ quoted "Done", None).
Proof. reflexivity. Qed.

Example test_no_match_includes_available :
  matchTransition inProgressDone "Blocked"
  = Ret (noTransition, "", "",
         Some ("no transition matching " ++ quoted "Blocked"
               ++ "; available transitions: In Progress, Done")).
Proof. reflexivity. Qed.

Example test_pagination_metadata :
  searchIssues twoPages "project = PROJ" 2 tt
  = Some (Ret ({| Issues := [issue "PROJ-1"; issue "PROJ-2"];
                  Total := 5; HasMore := true |}, None)).
Proof. reflexivity. Qed.

Example two_paragraphs :
  adfToText (Obj [("content", Arr [paragraph "A"; paragraph "B"])])
  = "A" ++ nl ++ "B".
Proof. reflexivity. Qed.

Example formatDate_runs :
  formatDate "2026-02-10T12:34:56.000+0100" = Ret "2026-02-10"
  /\ formatDate "2026-02-10T12:34:56.5+0100" = Ret "2026-02-10"
  /\ formatDate "2026-02-10 12:34" = Ret "2026-02-10"
  /\ formatDate "soon" = Ret "soon".
Proof. repeat split. Qed.

(** C1: the claim as stated fails.  The source sends three issues at
    once with total 3 and no token, the limit is 2: no token is pending
    and the three issues received are not fewer than the total, yet
    HasMore is true, because the two issues returned are. *)
Lemma hasMore_not_from_received_count :
  searchIssues overshooting "project = PROJ" 2 tt
  = Some (Ret ({| Issues := [issue "PROJ-1"; issue "PROJ-2"];
                  Total := 3; HasMore := true |}, None))
  /\ pagesOf overshooting "project = PROJ" 2 tt = [threeAtOnce]
  /\ negb (NextPageToken threeAtOnce =? "")%string
     || (slen (List.concat (map RespIssues [threeAtOnce]))
         <? RespTotal threeAtOnce) = false.
Proof. repeat split. Qed.

(** The amended C1 on the same run. *)
Lemma hasMore_counts_returned_issues_witness :
  HasMore {| Issues := [issue "PROJ-1"; issue "PROJ-2"];
             Total := 3; HasMore := true |}
  = negb (NextPageToken threeAtOnce =? "")%string
    || (2 <? RespTotal threeAtOnce).
Proof.
  exact (proj2 (proj2 (hasMore_counts_returned_issues
                         overshooting "project = PROJ" 2 tt _ eq_refl))).
Defined.

(** C6 on the pagination test of the repository. *)
Lemma searchIssues_at_most_limit_witness :
  exists (r : SearchIssuesResult) (err : option string),
    searchIssues twoPages "project = PROJ" 2 tt = Some (Ret (r, err))
    /\ slen (Issues r) <= 2.
Proof.
  apply (searchIssues_at_most_limit twoPages "project = PROJ" 2 tt).
  lia.
Defined.

(** C2: the claim as stated fails.  Both names hold the query, "Undone
    work item" at offset 2 and "Not Done" at offset 4; the sort puts the
    former first, and the transition selected is the latter. *)
Lemma contains_tier_selects_higher_index :
  contains (collect "done" notDoneUndone)
  = [ {| transition := tr "31" "Not Done"; score := 4 |};
      {| transition := tr "32" "Undone work item"; score := 2 |} ]
  /\ containsCandidates "done" notDoneUndone
     = [tr "32" "Undone work item"; tr "31" "Not Done"]
  /\ matchTransition notDoneUndone "done"
     = Ret (tr "31" "Not Done", "contains",
            "status " ++ quoted "done"
            ++ " matched multiple transitions "
            ++ "(Undone work item, Not Done); using "
            ++ quoted "Not Done", None).
Proof. repeat split. Qed.

(** The run of the contains tier on the two names. *)
Example run_contains_tier :
  matchTransition notDoneUndone "done"
  = Ret (tr "31" "Not Done", "contains",
         "status " ++ quoted "done"
         ++ " matched multiple transitions "
         ++ "(Undone work item, Not Done); using "
         ++ quoted "Not Done", None).
Proof. reflexivity. Qed.

(** The amended C2 on that run: the selected name is no longer than the
    other candidate's. *)
Lemma contains_tier_by_design_witness :
  len (Name (tr "31" "Not Done")) <= len (Name (tr "32" "Undone work item")).
Proof.
  destruct (contains_tier_by_design
              notDoneUndone "done" (tr "31" "Not Done") _ run_contains_tier)
    as (_ & _ & _ & _ & Hshort).
  apply (Hshort {| transition := tr "32" "Undone work item"; score := 2 |}).
  right. now left.
Defined.

(** C3: the claim as stated fails.  Two transitions match exactly and no
    warning is given; with a query that holds a double quote, or has
    spaces around it, the warning of the prefix tier does not hold the
    query as typed. *)
Lemma exact_tier_never_warns :
  exact (collect "done" twiceDone) = twiceDone
  /\ matchTransition twiceDone "done"
     = Ret (tr "1" "Done", "exact", "", None)
  /\ matchTransition quotedNames (withQuote "X" "")
     = Ret (tr "1" (withQuote "x" "y"), "prefix",
            "status " ++ quoted (withQuote "X\" "")
            ++ " matched multiple transitions ("
            ++ withQuote "x" "y" ++ ", " ++ withQuote "x" "z"
            ++ "); using " ++ quoted (withQuote "x\" "y"), None)
  /\ Contains ("status " ++ quoted (withQuote "X\" "")
               ++ " matched multiple transitions ("
               ++ withQuote "x" "y" ++ ", " ++ withQuote "x" "z"
               ++ "); using " ++ quoted (withQuote "x\" "y"))
              (withQuote "X" "") = false
  /\ matchTransition doneFirst " Do "
     = Ret (tr "10" "Done", "prefix",
            "status " ++ quoted "Do"
            ++ " matched multiple transitions (Done, Done (QA)); using "
            ++ quoted "Done", None)
  /\ Contains ("status " ++ quoted "Do"
               ++ " matched multiple transitions (Done, Done (QA)); using "
               ++ quoted "Done") " Do " = false.
Proof. repeat split. Qed.

(** The amended C3 on the prefix test of the repository: the warning
    names the candidate that was not selected. *)
Lemma ambiguity_warning_contents_witness :
  Contains ("status " ++ quoted "Do"
            ++ " matched multiple transitions (Done, Done (QA)); using "
            ++ quoted "Done") "Done (QA)" = true.
Proof.
  destruct (ambiguity_warning_contents
              doneFirst "Do" (tr "10" "Done") "prefix" _
              test_prefix_ambiguity_warns) as (_ & Hmany & _).
  destruct Hmany as (_ & _ & _ & _ & Hnames & _).
  - discriminate.
  - vm_compute. discriminate.
  - apply Hnames. right. now left.
Defined.

(** C4: the claim as stated fails.  A blank query is refused although
    the name of a transition equals it, and a query with a space around
    it is compared after trimming. *)
Lemma blank_query_is_refused :
  EqualFold (Name (tr "7" "")) "" = true
  /\ matchTransition [tr "7" ""] ""
     = Ret (noTransition, "", "", Some "--status is required")
  /\ EqualFold (Name (tr "8" " Done")) " Done" = true
  /\ matchTransition [tr "8" " Done"] " Done"
     = Ret (tr "8" " Done", "contains", "", None).
Proof. repeat split. Qed.

(** The amended C4 on a query with spaces around it. *)
Lemma exact_match_wins_witness :
  exists picked,
    matchTransition doneLast " done " = Ret (picked, "exact", "", None)
    /\ In picked doneLast
    /\ EqualFold (Name picked) (TrimSpace " done ") = true.
Proof.
  apply (exact_match_wins doneLast " done " (tr "2" "Done")).
  - discriminate.
  - right. now left.
  - reflexivity.
Defined.

(** C5 on the prefix test of the repository. *)
Lemma matchTransition_selects_member_witness :
  In (tr "10" "Done") doneFirst.
Proof.
  exact (matchTransition_selects_member
           doneFirst "Do" (tr "10" "Done") "prefix" _
           test_prefix_ambiguity_warns).
Defined.

(** C7: the claim as stated fails.  The query holds a double quote; the
    message shows it escaped and so does not hold the query as typed.
    Nor does it when the query has a space before it, which is trimmed. *)
Lemma no_match_message_escapes_query :
  matchTransition inProgressDone (withQuote "a" "b")
  = Ret (noTransition, "", "",
         Some ("no transition matching " ++ quoted (withQuote "a\" "b")
               ++ "; available transitions: In Progress, Done"))
  /\ Contains ("no transition matching " ++ quoted (withQuote "a\" "b")
               ++ "; available transitions: In Progress, Done")
              (withQuote "a" "b") = false
  /\ matchTransition inProgressDone " Blocked"
     = Ret (noTransition, "", "",
            Some ("no transition matching " ++ quoted "Blocked"
                  ++ "; available transitions: In Progress, Done"))
  /\ Contains ("no transition matching " ++ quoted "Blocked"
               ++ "; available transitions: In Progress, Done")
              " Blocked" = false.
Proof. repeat split. Qed.

(** The amended C7 on the no-match test of the repository, the query
    with a space before it. *)
Lemma no_match_lists_transitions_witness :
  exists msg,
    matchTransition inProgressDone " Blocked"
    = Ret (noTransition, "", "", Some msg)
    /\ msg = "no transition matching " ++ Quote (TrimSpace " Blocked")
             ++ "; available transitions: "
             ++ Join (map Name inProgressDone) ", "
    /\ Contains msg (Quote (TrimSpace " Blocked")) = true
    /\ (plain (TrimSpace " Blocked") = true ->
        Contains msg (TrimSpace " Blocked") = true)
    /\ (forall t, In t inProgressDone -> Contains msg (Name t) = true).
Proof.
  apply (no_match_lists_transitions inProgressDone " Blocked").
  - discriminate.
  - intros t [<-|[<-|[]]]; repeat split.
Defined.

(** C8: the claim as stated fails.  A list item without a content array
    gets no line feed, so the two items of the list run together; with
    the texts inside paragraphs each item ends its line. *)
Lemma bare_list_item_gets_no_newline :
  adfExtract [("type", Str "listItem"); ("text", Str "a")] = "a"
  /\ adfExtract bareList = "ab"
  /\ adfToText (Obj bareList) = "ab"
  /\ adfExtract fullList = "a" ++ nl ++ "b" ++ nl.
Proof. repeat split. Qed.

(** The amended C8 on a list item holding a paragraph. *)
Lemma listItem_ends_its_line_witness :
  adfExtract [("type", Str "listItem"); ("content", Arr [paragraph "a"])]
  = "" ++ extractChildren 1 [paragraph "a"] 0 ++ nl.
Proof.
  exact (proj1 (listItem_ends_its_line
                  [("type", Str "listItem"); ("content", Arr [paragraph "a"])]
                  eq_refl)).
Defined.

(** One transition starts with the query and none equals it. *)
Lemma single_prefix_match_witness :
  matchTransition inProgressDone "in"
  = Ret (tr "1" "In Progress", "prefix", "", None).
Proof.
  apply (single_prefix_match inProgressDone "in" (tr "1" "In Progress"));
    [discriminate | reflexivity | reflexivity].
Defined.

(** C9: the claim as stated fails.  Six letters e with an acute accent
    are six characters, fewer than ten, in twelve bytes, and no time
    stamp: the result is not the string but its first ten bytes, five of
    the letters.  Ten of the letters are ten characters: the result is
    not the first ten of them but, again, the first five. *)
Lemma formatDate_counts_bytes :
  characters (accents 6) = 6
  /\ len (accents 6) = 12
  /\ timeParse layoutMillis (accents 6) = None
  /\ timeParse layoutFrac (accents 6) = None
  /\ formatDate (accents 6) = Ret (accents 5)
  /\ accents 5 <> accents 6
  /\ characters (accents 10) = 10
  /\ timeParse layoutMillis (accents 10) = None
  /\ timeParse layoutFrac (accents 10) = None
  /\ formatDate (accents 10) = Ret (accents 5)
  /\ accents 5 <> accents 10.
Proof. repeat split; discriminate. Qed.

(** The amended C9 on a string that is no time stamp and on one that
    is. *)
Lemma formatDate_never_fails_witness :
  (exists out, formatDate "2026-02-10 12:34" = Ret out
               /\ out = substring 0 10 "2026-02-10 12:34")
  /\ (exists out,
        formatDate "2026-02-10T12:34:56.000+0100" = Ret out
        /\ out = isoDate 2026 2 10
        /\ validDate 2026 2 10).
Proof.
  split.
  - destruct (formatDate_never_fails "2026-02-10 12:34")
      as (out & Hout & Hfall & _).
    exists out. split; [exact Hout|].
    destruct (Hfall eq_refl eq_refl) as [Hlong _].
    apply Hlong. unfold len. simpl. lia.
  - destruct (formatDate_never_fails "2026-02-10T12:34:56.000+0100")
      as (out & Hout & _ & Hparsed).
    exists out. split; [exact Hout|].
    destruct (Hparsed _ (or_introl eq_refl)) as (Hvalid & Hdate & _).
    split; [exact Hdate | exact Hvalid].
Defined.

(** C10 on the transitions of the contains run and three more: one name
    equals the query, one starts with it. *)
Lemma tiers_are_disjoint_witness :
  exact (collect "done" (doneLast ++ notDoneUndone))%list = [tr "2" "Done"]
  /\ prefix (collect "done" (doneLast ++ notDoneUndone))%list
     = [tr "1" "Done (QA)"]
  /\ map transition (contains (collect "done" (doneLast ++ notDoneUndone)%list))
     = notDoneUndone.
Proof.
  destruct (tiers_are_disjoint "done" (doneLast ++ notDoneUndone)%list)
    as (He & Hp & Hc & _).
  rewrite He, Hp, Hc. repeat split.
Defined.

End Runs.

(** ** Runs of the commands *)

Module CliRuns.
Import Samples CliSamples Cli CliFacts.

#[local] Existing Instance words.

(** X6 on the environment without a file: the slash at the end of the
    server is gone. *)
Lemma loadAuthConfig_success_witness :
  exists (file : Config) (n : nat),
    loadConfig fromEnvironment = (file, None)
    /\ Server (resolved fromEnvironment file)
       = "https://jira.example" ++ bytes n "/"
    /\ lastByte "https://jira.example" <> Some "/"%char
    /\ "ann@example.com" = Email (resolved fromEnvironment file)
    /\ "ann@example.com" <> ""
    /\ "secret" = APIToken (resolved fromEnvironment file)
    /\ "secret" <> "".
Proof.
  apply (loadAuthConfig_success fromEnvironment
           {| Server := "https://jira.example";
              Email := "ann@example.com"; APIToken := "secret" |}).
  reflexivity.
Defined.

(** X7 on the same environment. *)
Lemma environment_beats_file_witness :
  loadAuthConfig fromEnvironment
  = ({| Server := "https://jira.example"; Email := "ann@example.com";
        APIToken := "secret" |}, None).
Proof.
  apply (environment_beats_file
           fromEnvironment "/home/ann/.config/jiractl/config.json").
  - reflexivity.
  - left. reflexivity.
  - discriminate.
  - discriminate.
  - discriminate.
Defined.

(** X8 on a server of two slashes. *)
Lemma server_of_slashes_is_accepted_witness :
  exists cfg, loadAuthConfig slashesOnly = (cfg, None) /\ Server cfg = "".
Proof.
  apply (server_of_slashes_is_accepted slashesOnly noConfig 1).
  - reflexivity.
  - reflexivity.
  - discriminate.
  - discriminate.
Defined.

(** X12 on a document of two paragraphs. *)
Lemma paragraphs_are_joined_by_line_feeds_witness :
  adfExtract [("type", Str "doc");
              ("content", Arr (map paragraphValue twoParagraphs))]
  = "A" ++ nl ++ "BC".
Proof.
  apply (paragraphs_are_joined_by_line_feeds
           [("type", Str "doc");
            ("content", Arr (map paragraphValue twoParagraphs))]
           twoParagraphs).
  - reflexivity.
  - discriminate.
  - reflexivity.
  - repeat constructor.
Defined.

(** X14 on the two orders of the test lists of the repository. *)
Lemma matchTransition_ignores_order_witness :
  exists picked matchedBy warning warning' err err',
    matchTransition [tr "10" "Done"; tr "11" "Done (QA)"] "Do"
    = Ret (picked, matchedBy, warning, err)
    /\ matchTransition [tr "11" "Done (QA)"; tr "10" "Done"] "Do"
       = Ret (picked, matchedBy, warning', err')
    /\ (err = None <-> err' = None).
Proof.
  apply (matchTransition_ignores_order
           [tr "10" "Done"; tr "11" "Done (QA)"]
           [tr "11" "Done (QA)"; tr "10" "Done"] "Do").
  - apply perm_swap.
  - intros a b [<-|[<-|[]]] [<-|[<-|[]]] H;
      first [reflexivity | discriminate H].
Defined.

(** X15 on the pagination test of the repository with a limit of 5. *)
Lemma short_result_means_last_page_witness :
  pagesOf twoPages "project = PROJ" 5 tt <> []
  /\ (RespIssues (last (pagesOf twoPages "project = PROJ" 5 tt) noPage)
      = []
      \/ NextPageToken
           (last (pagesOf twoPages "project = PROJ" 5 tt) noPage) = "").
Proof.
  apply (short_result_means_last_page
           twoPages "project = PROJ" 5 tt
           {| Issues := [issue "PROJ-1"; issue "PROJ-2"];
              Total := 5; HasMore := true |}).
  - reflexivity.
  - simpl. unfold slen. simpl. lia.
Defined.

(** X16 on a source that fails on its second page. *)
Lemma failed_search_keeps_no_issue_witness :
  Issues {| Issues := []; Total := 5; HasMore := false |} = []
  /\ HasMore {| Issues := []; Total := 5; HasMore := false |} = false
  /\ Total {| Issues := []; Total := 5; HasMore := false |}
     = RespTotal
         (last (pagesOf breaksOnSecond "project = PROJ" 5 tt) noPage).
Proof.
  apply (failed_search_keeps_no_issue
           breaksOnSecond "project = PROJ" 5 tt
           {| Issues := []; Total := 5; HasMore := false |}
           "connection reset").
  reflexivity.
Defined.

(** A transition by a prefix of its name: the key is put in upper case,
    the id of Done (QA) is posted. *)
Example run_transition :
  runIssuesTransition obliging fromEnvironment "done (" false ["proj-1"]
                      start
  = (Build_World obliging tt
          [Sends {| Method := "GET";
                    URL := "https://jira.example/rest/api/3/issue/PROJ-1"
                           ++ "/transitions";
                    Header := [("Accept", "application/json");
                               ("Authorization",
                                "Basic YW5uQGV4YW1wbGUuY29tOnNlY3JldA==")];
                    Payload := None |};
           Sends {| Method := "POST";
                    URL := "https://jira.example/rest/api/3/issue/PROJ-1"
                           ++ "/transitions";
                    Header := [("Content-Type", "application/json");
                               ("Accept", "application/json");
                               ("Authorization",
                                "Basic YW5uQGV4YW1wbGUuY29tOnNlY3JldA==")];
                    Payload := Some "transition 1" |};
           Stdout ("PROJ-1 transitioned to Done (QA)" ++ nl)],
     Ok tt).
Proof. reflexivity. Qed.

(** X19 on that run. *)
Lemma transition_success_report_witness :
  exists first rest cfg get c1 resp1 ts t matchedBy warning post c2 resp2 b,
    ["proj-1"] = first :: rest
    /\ loadAuthConfig fromEnvironment = (cfg, None)
    /\ Method get = "GET"
    /\ URL get = issueURL cfg (ToUpper first) "/transitions"
    /\ baseRoundTrip obliging (conn start) get = (c1, inr resp1)
    /\ decodeAPIResponse decodeTransitions resp1 = inr ts
    /\ matchTransition ts "done (" = Ret (t, matchedBy, warning, None)
    /\ marshalTransitionRequest (ID t) = inr b
    /\ Method post = "POST"
    /\ URL post = URL get /\ Payload post = Some b
    /\ baseRoundTrip obliging c1 post = (c2, inr resp2)
    /\ StatusCode resp2 = 204
    /\ conn (fst (runIssuesTransition obliging fromEnvironment "done ("
                    false ["proj-1"] start)) = c2
    /\ events (fst (runIssuesTransition obliging fromEnvironment "done ("
                      false ["proj-1"] start))
       = (events start ++ [Sends get; Sends post]
          ++ (if (warning =? "")%string then []
              else [Stderr ("warning: " ++ warning ++ nl)])
          ++ [Stdout (ToUpper first ++ " transitioned to " ++ Name t
                      ++ nl)])%list.
Proof.
  apply (transition_success_report obliging fromEnvironment "done ("
           ["proj-1"] start).
  reflexivity.
Defined.


(** base64 as the encoder of the library writes it: whole groups, a
    group of one byte, a group of two, and bytes with all bits set. *)
Example base64_runs :
  EncodeToString "user:pass" = "dXNlcjpwYXNz"
  /\ EncodeToString "a" = "YQ=="
  /\ EncodeToString "ab" = "YWI="
  /\ EncodeToString (String "255" (String "254" (String "253" "")))
     = "//79".
Proof. repeat split. Qed.

(** A login from the environment: the server is asked who Ann is, the
    configuration is written, the user is greeted. *)
Example run_login :
  runAuthLogin knowsAnn fromEnvironment "" "" "" fresh
  = (Build_World knowsAnn tt
       [Sends {| Method := "GET";
                 URL := "https://jira.example/rest/api/3/myself";
                 Header := [("Accept", "application/json");
                            ("Authorization",
                             "Basic YW5uQGV4YW1wbGUuY29tOnNlY3JldA==")];
                 Payload := None |};
        Writes "/home/ann/.config/jiractl/config.json" "config";
        Stdout ("Authenticated as Ann (ann@example.com) on "
                ++ "https://jira.example" ++ nl)],
     Ok tt).
Proof. reflexivity. Qed.

(** X25 on that login, loaded again with no variable set. *)
Lemma login_then_load_witness :
  exists cfg get c resp,
    loadAuthConfig (afterLogin "" "") = (cfg, None)
    /\ Server cfg
       = trimRightByte
           (firstNonEmpty [""; Getenv fromEnvironment "JIRACTL_SERVER"])
           "/"
    /\ Email cfg
       = firstNonEmpty [""; Getenv fromEnvironment "JIRACTL_EMAIL"]
    /\ APIToken cfg <> ""
    /\ In (Sends get)
          [Sends {| Method := "GET";
                    URL := "https://jira.example/rest/api/3/myself";
                    Header := [("Accept", "application/json");
                               ("Authorization",
                                "Basic YW5uQGV4YW1wbGUuY29tOnNlY3JldA==")];
                    Payload := None |};
           Writes "/home/ann/.config/jiractl/config.json" "config";
           Stdout ("Authenticated as Ann (ann@example.com) on "
                   ++ "https://jira.example" ++ nl)]
    /\ In ("Authorization",
           "Basic " ++ EncodeToString (Email cfg ++ ":" ++ APIToken cfg))
          (Header get)
    /\ baseRoundTrip knowsAnn (conn fresh) get = (c, inr resp)
    /\ StatusCode resp = 200.
Proof.
  apply (login_then_load knowsAnn fromEnvironment (afterLogin "" "")
           "" "" "" fresh _ _
           "/home/ann/.config/jiractl/config.json" "config" run_login).
  - reflexivity.
  - right. now left.
  - intros cfg. simpl. unfold sameConfig.
    destruct (String.eqb_spec (Server cfg) (Server stored));
      [|discriminate].
    destruct (String.eqb_spec (Email cfg) (Email stored));
      [|discriminate].
    destruct (String.eqb_spec (APIToken cfg) (APIToken stored));
      [|discriminate].
    intros _. destruct cfg. simpl in *. now subst.
  - reflexivity.
  - reflexivity.
  - reflexivity.
  - reflexivity.
  - reflexivity.
  - discriminate.
Defined.

(** X26 on two environments that differ in the token only. *)
Lemma status_hides_the_token_witness :
  runAuthStatus knowsAnn (afterLogin "" "") false fresh
  = runAuthStatus knowsAnn (afterLogin "JIRACTL_API_TOKEN" "other") false
                  fresh
  /\ exists out,
       events (fst (runAuthStatus knowsAnn (afterLogin "" "") false fresh))
       = (events fresh ++ out)%list
       /\ requestsOf out = [].
Proof.
  apply (status_hides_the_token
           knowsAnn (afterLogin "" "")
           (afterLogin "JIRACTL_API_TOKEN" "other") false fresh
           stored
           {| Server := "https://jira.example";
              Email := "ann@example.com"; APIToken := "other" |});
    reflexivity.
Defined.

(** The view of an issue with two comments, asked for with a comment
    limit of one: both comments are printed. *)
Example run_view :
  runIssuesView serves fromEnvironment 1 false ["proj-1"] opened
  = (Build_World serves tt
       ([Sends {| Method := "GET";
                  URL := "https://jira.example/rest/api/3/issue/PROJ-1"
                         ++ issueFields;
                  Header := [("Accept", "application/json");
                             ("Authorization",
                              "Basic YW5uQGV4YW1wbGUuY29tOnNlY3JldA==")];
                  Payload := None |};
         Sends {| Method := "GET";
                  URL := "https://jira.example/rest/api/3/issue/PROJ-1"
                         ++ "/comment?maxResults=01&orderBy=-created";
                  Header := [("Accept", "application/json");
                             ("Authorization",
                              "Basic YW5uQGV4YW1wbGUuY29tOnNlY3JldA==")];
                  Payload := None |}]
        ++ map Stdout
             ["Key:         PROJ-1" ++ nl;
              "Summary:     Fix it" ++ nl;
              "Status:      Open" ++ nl;
              "Type:        " ++ nl;
              "Priority:    " ++ nl;
              "Assignee:    " ++ nl;
              "Created:     2026-02-10" ++ nl;
              "Updated:     " ++ nl;
              "URL:         https://jira.example/browse/PROJ-1" ++ nl;
              nl ++ "Comments (2):" ++ nl;
              nl ++ "  Ann (2026-02-11):" ++ nl ++ "  Looks good" ++ nl;
              nl ++ "  Ann (2026-02-11):" ++ nl ++ "  Looks good" ++ nl]),
     Ok tt).
Proof. reflexivity. Qed.


(** X29 on the test lists of the repository: Done alone is matched by
    prefix, and still matched once In Progress is offered too. *)
Lemma more_transitions_keep_the_match_witness :
  exists picked' matchedBy' warning',
    matchTransition inProgressDone "do"
    = Ret (picked', matchedBy', warning', None)
    /\ ("prefix" = "exact" -> matchedBy' = "exact")
    /\ ("prefix" = "prefix" ->
        matchedBy' = "exact" \/ matchedBy' = "prefix").
Proof.
  apply (more_transitions_keep_the_match
           [tr "2" "Done"] inProgressDone "do" (tr "2" "Done") "prefix" "").
  - reflexivity.
  - intros t [<-|[]]. right. now left.
Defined.

(** X30 on a status of one space. *)
Lemma blank_status_is_refused_after_the_fetch_witness :
  runIssuesTransition obliging fromEnvironment " " false ["proj-1"] start
  = (Build_World obliging tt
       [Sends {| Method := "GET";
                 URL := "https://jira.example/rest/api/3/issue/PROJ-1"
                        ++ "/transitions";
                 Header := [("Accept", "application/json");
                            ("Authorization",
                             "Basic YW5uQGV4YW1wbGUuY29tOnNlY3JldA==")];
                 Payload := None |}],
     Err "--status is required").
Proof.
  etransitivity.
  - apply (blank_status_is_refused_after_the_fetch
             obliging fromEnvironment " " false "proj-1" [] start stored tt
             {| StatusCode := 200; ResponseStatus := "200 OK";
                ResponseBody := "transitions" |} doneLast);
      first [discriminate | reflexivity].
  - reflexivity.
Defined.

End CliRuns.
